(** * Trending-sound tracker: time-series store and trend detector

    A shallow embedding of the Go packages [storage] (models, the [Storage]
    interface, [SaveSoundWithHistory], the SQLite implementation) and
    [detector] (trend scoring), together with the properties proved about
    them.

    Conventions of the embedding:
    - Go [int64] and [int] values are [Z]; arithmetic that can wrap in Go is
      written with the wrapping operations of [Int64].
    - Go [float64] values are IEEE 754 binary64 numbers, modelled by the
      standard library's [spec_float] with precision 53 and [emax] 1024.
    - A Go [(value, error)] result is a pair whose second component is
      [option error], [None] standing for [nil]; a nilable pointer is an
      [option]; a nil slice is [[]] and a nil map is the empty map.
    - [time.Time] is an instant in nanoseconds, [time.Duration] a signed
      64-bit count of nanoseconds.
    - Logging calls have no effect on results and are left out. *)

From Stdlib Require Import ZArith Lia List Bool Sorting.Sorted.
From Stdlib Require Import Floats.SpecFloat.
From stdpp Require Import base list gmap strings.

Local Open Scope Z_scope.

(* ================================================================== *)
(** * Part I: the embedding                                             *)
(* ================================================================== *)

(** ** Machine integers *)

Module Int64.
Definition min_int : Z := - 2 ^ 63.
Definition max_int : Z := 2 ^ 63 - 1.
Definition in_range (z : Z) : Prop := min_int <= z <= max_int.

(** Two's complement wrap-around of a mathematical integer. *)
Definition wrap (z : Z) : Z := (z + 2 ^ 63) mod 2 ^ 64 - 2 ^ 63.

Definition sub (a b : Z) : Z := wrap (a - b).
Definition neg (a : Z) : Z := wrap (- a).
Definition mul (a b : Z) : Z := wrap (a * b).
End Int64.

(** ** Binary64 floating point *)

Module Float64.
Definition float64 := spec_float.
Definition prec : Z := 53.
Definition emax : Z := 1024.

Definition fmul : float64 -> float64 -> float64 := SFmul prec emax.
Definition fdiv : float64 -> float64 -> float64 := SFdiv prec emax.
Definition fadd : float64 -> float64 -> float64 := SFadd prec emax.

(** Conversion [float64(i)] of an integer, rounding to nearest even. *)
Definition of_int64 (z : Z) : float64 := binary_normalize prec emax z 0 false.

(** Go's [x > y], [x >= y] and [x == y]: all false when an operand is NaN. *)
Definition fgt (x y : float64) : bool :=
  match SFcompare x y with Some Gt => true | _ => false end.
Definition fge (x y : float64) : bool :=
  match SFcompare x y with Some (Gt | Eq) => true | _ => false end.
Definition feq (x y : float64) : bool := SFeqb x y.

Definition is_nan (x : float64) : bool :=
  match x with S754_nan => true | _ => false end.
Definition is_zero (x : float64) : bool :=
  match x with S754_zero _ => true | _ => false end.

Definition zero : float64 := S754_zero false.
(** 100.0 = 0x1.9p+6 *)
Definition c100 : float64 := S754_finite false 7036874417766400 (-46).
(** 150.0 = 0x1.2cp+7 *)
Definition c150 : float64 := S754_finite false 5277655813324800 (-45).
(** 999.9, nearest binary64 value 0x1.f3f3333333333p+9 *)
Definition c999_9 : float64 := S754_finite false 8795213412905779 (-43).

(** A division that reports a zero divisor instead of producing an
    infinity or a NaN; used to state that a division is guarded. *)
Definition fdiv_checked (x y : float64) : option float64 :=
  if is_zero y then None else Some (fdiv x y).
End Float64.
Import Float64.

(** ** Time *)

Module Time.
Definition Time := Z.
Definition Duration := Z.
(** [time.Hour], in nanoseconds. *)
Definition Hour : Duration := 3600000000000.
(** [t.Add(d)]. *)
Definition Add (t : Time) (d : Duration) : Time := t + d.
End Time.

(** ** Models (storage/models.go) *)

Definition error := string.

(** [fmt.Errorf("<ctx>: %w", err)] *)
Definition wrap_error (ctx : string) (e : error) : error :=
  String.append ctx (String.append ": " e).

Record Sound := mkSound {
  ID : Z;
  Title : string;
  Author : string;
  URL : string;
  UsesCount : Z;
  Category : string;
  CreatedAt : Time.Time;
  UpdatedAt : Time.Time
}.

Record SoundHistory := mkSoundHistory {
  hist_ID : Z;
  SoundID : Z;
  hist_UsesCount : Z;
  RecordedAt : Time.Time
}.

(** [TrendingSound] embeds [Sound]. *)
Record TrendingSound := mkTrendingSound {
  ts_Sound : Sound;
  GrowthPercent : float64;
  OldUsesCount : Z
}.

Definition set_ID (s : Sound) (id : Z) : Sound :=
  mkSound id (Title s) (Author s) (URL s) (UsesCount s) (Category s)
          (CreatedAt s) (UpdatedAt s).
Definition set_CreatedAt (s : Sound) (t : Time.Time) : Sound :=
  mkSound (ID s) (Title s) (Author s) (URL s) (UsesCount s) (Category s)
          t (UpdatedAt s).
Definition set_UpdatedAt (s : Sound) (t : Time.Time) : Sound :=
  mkSound (ID s) (Title s) (Author s) (URL s) (UsesCount s) (Category s)
          (CreatedAt s) t.

(** ** The Storage interface (storage/storage.go)

    Each method threads the store's state.  [SaveSound] receives a pointer
    and may write the new id into it, so it also returns the sound. *)

Class Storage (St : Type) := {
  SaveSound : Sound -> St -> (Sound * option error) * St;
  GetSoundByURL : string -> St -> (option Sound * option error) * St;
  GetSoundsByCategory : string -> Z -> St -> (list Sound * option error) * St;
  UpdateSound : Sound -> St -> option error * St;
  SaveSoundHistory : Z -> Z -> St -> option error * St;
  GetSoundHistoryByTime : Z -> Z -> St -> (option SoundHistory * option error) * St;
  GetAllSoundsWithHistory :
    string -> Z -> St ->
    (list Sound * gmap Z (option SoundHistory) * option error) * St
}.

(** How a call ends: it returns an error value (possibly nil) or panics on
    a nil pointer dereference. *)
Inductive outcome :=
| Returned (err : option error)
| Panicked.

Section SaveSoundWithHistory.
Context {St : Type} `{Storage St}.

(** The [else] branch of [SaveSoundWithHistory]: create the sound, read it
    back for its id, then append the history record. *)
Definition create_path (now : Time.Time) (sound : Sound) (st : St)
  : (Sound * outcome) * St :=
  let sound := set_CreatedAt sound now in
  let sound := set_UpdatedAt sound now in
  let '((sound, err), st) := SaveSound sound st in
  match err with
  | Some e => ((sound, Returned (Some e)), st)
  | None =>
    let '((created, err), st) := GetSoundByURL (URL sound) st in
    match err with
    | Some e => ((sound, Returned (Some e)), st)
    | None =>
      match created with
      | None => ((sound, Panicked), st)
      | Some created =>
        let sound := set_ID sound (ID created) in
        let '(err, st) := SaveSoundHistory (ID sound) (UsesCount sound) st in
        ((sound, Returned err), st)
      end
    end
  end.

(** The [then] branch: update the existing sound in place. *)
Definition update_path (now : Time.Time) (existing sound : Sound) (st : St)
  : (Sound * outcome) * St :=
  let sound := set_ID sound (ID existing) in
  let sound := set_CreatedAt sound (CreatedAt existing) in
  let sound := set_UpdatedAt sound now in
  let '(err, st) := UpdateSound sound st in
  match err with
  | Some e => ((sound, Returned (Some e)), st)
  | None =>
    let '(err, st) := SaveSoundHistory (ID sound) (UsesCount sound) st in
    ((sound, Returned err), st)
  end.

(** [now] is the reading of [time.Now()] during the call. *)
Definition SaveSoundWithHistory (now : Time.Time) (sound : Sound) (st : St)
  : (Sound * outcome) * St :=
  let '((existing, err), st) := GetSoundByURL (URL sound) st in
  match err, existing with
  | None, Some existing => update_path now existing sound st
  | _, _ => create_path now sound st
  end.
End SaveSoundWithHistory.

(** ** SQL ordering

    [ORDER BY] is modelled by a stable insertion sort: rows that compare
    equal keep their table order. *)

Section OrderBy.
Context {A : Type} (lt : A -> A -> bool).

Fixpoint insert_sorted (x : A) (l : list A) : list A :=
  match l with
  | [] => [x]
  | y :: l' => if lt y x then y :: insert_sorted x l' else x :: y :: l'
  end.

Fixpoint order_by (l : list A) : list A :=
  match l with
  | [] => []
  | x :: l' => insert_sorted x (order_by l')
  end.
End OrderBy.

(** [LIMIT n]: a negative limit means no limit. *)
Definition sql_limit {A : Type} (n : Z) (rows : list A) : list A :=
  if n <? 0 then rows else firstn (Z.to_nat n) rows.

(** ** Reading a result set

    What can go wrong while the rows of a [Query] are read.  [NextFails k]:
    the call of [rows.Next()] that would deliver row [k] fails and returns
    false, so the loop ends as at the end of the set; the error stays in
    [rows.Err()].  [ScanFails k e]: [rows.Scan] of row [k] fails with [e]. *)
Inductive cursor_fault :=
| NextFails (k : nat)
| ScanFails (k : nat) (e : error).

(** The loop [for rows.Next() { err := rows.Scan(...); if err != nil {
    return nil, wrap(err) }; acc = append(acc, row) }; return acc, nil]
    from row [i] on.  The methods that use it never read [rows.Err()]. *)
Fixpoint read_rows {A : Type} (what : string) (c : option cursor_fault) (i : nat)
         (pending acc : list A) : list A * option error :=
  match pending with
  | [] => (acc, None)
  | row :: rest =>
    match c with
    | Some (NextFails k) =>
      if (i =? k)%nat then (acc, None)
      else read_rows what c (S i) rest (acc ++ [row])
    | Some (ScanFails k e) =>
      if (i =? k)%nat then ([], Some (wrap_error what e))
      else read_rows what c (S i) rest (acc ++ [row])
    | None => read_rows what c (S i) rest (acc ++ [row])
    end
  end.

(** ** The SQLite store (storage/sqlite.go, migrations/init.sql) *)

Module SQLite.

(** The database: both tables in rowid order, the AUTOINCREMENT counters,
    whether the connection enforces foreign keys, the clock read by
    [time.Now()], and two schedules of driver failures.  Every statement
    ([Exec], [Query], [QueryRow]) consumes the head of [faults], and
    [Some e] makes it fail with [e]; every result set that a [Query] opens
    consumes the head of [cursors], which says how reading its rows fails. *)
Record DB := mkDB {
  sounds : list Sound;
  sound_history : list SoundHistory;
  sounds_seq : Z;
  history_seq : Z;
  foreign_keys : bool;
  clock : Time.Time;
  faults : list (option error);
  cursors : list (option cursor_fault)
}.

Definition empty (fk : bool) (now : Time.Time) (fs : list (option error)) : DB :=
  mkDB [] [] 0 0 fk now fs [].

Definition set_clock (now : Time.Time) (db : DB) : DB :=
  mkDB (sounds db) (sound_history db) (sounds_seq db) (history_seq db)
       (foreign_keys db) now (faults db) (cursors db).

(** Start a statement: take the next scheduled failure, if any. *)
Definition begin_stmt (db : DB) : option error * DB :=
  match faults db with
  | [] => (None, db)
  | f :: fs =>
    (f, mkDB (sounds db) (sound_history db) (sounds_seq db) (history_seq db)
             (foreign_keys db) (clock db) fs (cursors db))
  end.

(** Open the result set of a [Query] that succeeded: take the next
    scheduled reading failure, if any. *)
Definition open_cursor (db : DB) : option cursor_fault * DB :=
  match cursors db with
  | [] => (None, db)
  | c :: cs =>
    (c, mkDB (sounds db) (sound_history db) (sounds_seq db) (history_seq db)
             (foreign_keys db) (clock db) (faults db) cs)
  end.

Definition with_sounds (db : DB) (rows : list Sound) (seq : Z) : DB :=
  mkDB rows (sound_history db) seq (history_seq db)
       (foreign_keys db) (clock db) (faults db) (cursors db).

Definition with_history (db : DB) (rows : list SoundHistory) (seq : Z) : DB :=
  mkDB (sounds db) rows (sounds_seq db) seq
       (foreign_keys db) (clock db) (faults db) (cursors db).

Definition url_taken (url : string) (db : DB) : bool :=
  existsb (fun r => String.eqb (URL r) url) (sounds db).

Definition id_exists (id : Z) (db : DB) : bool :=
  existsb (fun r => ID r =? id) (sounds db).

(** INSERT INTO sounds ...; the [url] column is UNIQUE. *)
Definition SaveSound (sound : Sound) (db : DB) : (Sound * option error) * DB :=
  let '(f, db) := begin_stmt db in
  match f with
  | Some e => ((sound, Some (wrap_error "failed to save sound" e)), db)
  | None =>
    if url_taken (URL sound) db then
      ((sound, Some (wrap_error "failed to save sound"
                                "UNIQUE constraint failed: sounds.url")), db)
    else
      let id := sounds_seq db + 1 in
      let row := set_ID sound id in
      ((row, None), with_sounds db (sounds db ++ [row]) id)
  end.

(** SELECT ... FROM sounds WHERE url = ? *)
Definition GetSoundByURL (url : string) (db : DB) : (option Sound * option error) * DB :=
  let '(f, db) := begin_stmt db in
  match f with
  | Some e => ((None, Some (wrap_error "failed to get sound" e)), db)
  | None => ((List.find (fun r => String.eqb (URL r) url) (sounds db), None), db)
  end.

(** SELECT ... WHERE category = ? ORDER BY updated_at DESC LIMIT ?, read
    row by row.  A failure of [rows.Next()] ends the loop and the rows read
    so far are returned with a nil error. *)
Definition GetSoundsByCategory (category : string) (limit : Z) (db : DB)
  : (list Sound * option error) * DB :=
  let '(f, db) := begin_stmt db in
  match f with
  | Some e => (([], Some (wrap_error "failed to get sounds by category" e)), db)
  | None =>
    let rows := List.filter (fun r => String.eqb (Category r) category) (sounds db) in
    let rows := order_by (fun a b => UpdatedAt b <? UpdatedAt a) rows in
    let '(c, db) := open_cursor db in
    (read_rows "failed to scan sound" c 0 (sql_limit limit rows) [], db)
  end.

Definition update_row (sound r : Sound) : Sound :=
  if ID r =? ID sound then
    mkSound (ID r) (Title sound) (Author sound) (URL r) (UsesCount sound)
            (Category sound) (CreatedAt r) (UpdatedAt sound)
  else r.

(** UPDATE sounds SET title, author, uses_count, category, updated_at WHERE id = ? *)
Definition UpdateSound (sound : Sound) (db : DB) : option error * DB :=
  let '(f, db) := begin_stmt db in
  match f with
  | Some e => (Some (wrap_error "failed to update sound" e), db)
  | None => (None, with_sounds db (map (update_row sound) (sounds db)) (sounds_seq db))
  end.

(** INSERT INTO sound_history (sound_id, uses_count, recorded_at) *)
Definition SaveSoundHistory (soundID usesCount : Z) (db : DB) : option error * DB :=
  let '(f, db) := begin_stmt db in
  match f with
  | Some e => (Some (wrap_error "failed to save sound history" e), db)
  | None =>
    if foreign_keys db && negb (id_exists soundID db) then
      (Some (wrap_error "failed to save sound history"
                        "FOREIGN KEY constraint failed"), db)
    else
      let id := history_seq db + 1 in
      let row := mkSoundHistory id soundID usesCount (clock db) in
      (None, with_history db (sound_history db ++ [row]) id)
  end.

(** [time.Now().Add(-time.Duration(hoursAgo) * time.Hour)]: the negation
    and the product are 64-bit and wrap. *)
Definition cutoffTime (now : Time.Time) (hoursAgo : Z) : Time.Time :=
  Time.Add now (Int64.mul (Int64.neg hoursAgo) Time.Hour).

(** The rows selected by
    WHERE sound_id = ? AND recorded_at >= ? ORDER BY recorded_at ASC *)
Definition history_since (soundID : Z) (cutoff : Time.Time)
           (rows : list SoundHistory) : list SoundHistory :=
  order_by (fun a b => RecordedAt a <? RecordedAt b)
    (List.filter (fun h => (SoundID h =? soundID) && (cutoff <=? RecordedAt h)) rows).

(** ... LIMIT 1, read with QueryRow: no row is [sql.ErrNoRows], which the
    method turns into [(nil, nil)]. *)
Definition GetSoundHistoryByTime (soundID hoursAgo : Z) (db : DB)
  : (option SoundHistory * option error) * DB :=
  let cutoff := cutoffTime (clock db) hoursAgo in
  let '(f, db) := begin_stmt db in
  match f with
  | Some e => ((None, Some (wrap_error "failed to get sound history" e)), db)
  | None =>
    ((hd_error (sql_limit 1 (history_since soundID cutoff (sound_history db))), None), db)
  end.

(** The loop of [GetAllSoundsWithHistory] over the sounds still to visit. *)
Fixpoint history_loop (hoursAgo : Z) (todo : list Sound)
         (historyMap : gmap Z (option SoundHistory)) (db : DB)
  : (gmap Z (option SoundHistory) * option error) * DB :=
  match todo with
  | [] => ((historyMap, None), db)
  | sound :: rest =>
    let '((history, err), db) := GetSoundHistoryByTime (ID sound) hoursAgo db in
    match err with
    | Some e => ((∅, Some e), db)
    | None =>
      let historyMap :=
        match history with
        | Some h => <[ID sound := Some h]> historyMap
        | None => historyMap
        end in
      history_loop hoursAgo rest historyMap db
    end
  end.

Definition GetAllSoundsWithHistory (category : string) (hoursAgo : Z) (db : DB)
  : (list Sound * gmap Z (option SoundHistory) * option error) * DB :=
  let '((sounds, err), db) := GetSoundsByCategory category 1000 db in
  match err with
  | Some e => (([], ∅, Some e), db)
  | None =>
    let '((historyMap, err), db) := history_loop hoursAgo sounds ∅ db in
    match err with
    | Some e => (([], ∅, Some e), db)
    | None => ((sounds, historyMap, None), db)
    end
  end.

#[global] Instance storage : Storage DB := {
  SaveSound := SQLite.SaveSound;
  GetSoundByURL := SQLite.GetSoundByURL;
  GetSoundsByCategory := SQLite.GetSoundsByCategory;
  UpdateSound := SQLite.UpdateSound;
  SaveSoundHistory := SQLite.SaveSoundHistory;
  GetSoundHistoryByTime := SQLite.GetSoundHistoryByTime;
  GetAllSoundsWithHistory := SQLite.GetAllSoundsWithHistory
}.

(** One observation reported at instant [now]: the clock shows [now] for
    the whole call. *)
Definition RecordObservation (now : Time.Time) (sound : Sound) (db : DB)
  : (Sound * outcome) * DB :=
  SaveSoundWithHistory now sound (set_clock now db).

(** A sequence of observations, as the collector's loop issues them; the
    outcomes are collected in call order. *)
Fixpoint RecordObservations (obs : list (Time.Time * Sound)) (db : DB)
  : list outcome * DB :=
  match obs with
  | [] => ([], db)
  | (now, sound) :: rest =>
    let '((_, o), db) := RecordObservation now sound db in
    let '(os, db) := RecordObservations rest db in
    (o :: os, db)
  end.
End SQLite.

(** ** Sorting slices

    [sort.Slice] is library code specified by its contract only: it permutes
    the slice, and the result is sorted when [less] is a strict weak
    ordering.  The detector is parameterised by any such sort. *)

Class SliceSorter := {
  sort_Slice : forall A : Type, (A -> A -> bool) -> list A -> list A
}.
Arguments sort_Slice {_} {A} less l.

(** The requirements Go places on [less], over the elements of [l]. *)
Definition strict_weak_on {A : Type} (less : A -> A -> bool) (l : list A) : Prop :=
  (forall a, In a l -> less a a = false) /\
  (forall a b c, In a l -> In b l -> In c l ->
     less a b = true -> less b c = true -> less a c = true) /\
  (forall a b c, In a l -> In b l -> In c l ->
     less a b = false -> less b c = false -> less a c = false).

Class SliceSorterLaws (S : SliceSorter) : Prop := {
  sort_Slice_perm : forall (A : Type) (less : A -> A -> bool) (l : list A),
    Permutation l (sort_Slice less l);
  sort_Slice_sorted : forall (A : Type) (less : A -> A -> bool) (l : list A),
    strict_weak_on less l ->
    Sorted (fun a b => less b a = false) (sort_Slice less l)
}.

(** A sorter that meets the contract, used to run the detector. *)
Definition insertion_sorter : SliceSorter :=
  {| sort_Slice := fun A less l => order_by less l |}.

(** ** The trend detector (detector/detector.go) *)

Record TrendCriteria := mkTrendCriteria {
  MinUsesCount : Z;
  MaxUsesCount : Z;
  MinGrowth : float64;
  LookbackHours : Z
}.

Definition DefaultCriteria : TrendCriteria :=
  mkTrendCriteria 500 30000 c150 24.

Definition calculateGrowth (oldCount newCount : Z) : float64 :=
  if oldCount =? 0 then zero
  else fmul (fdiv (of_int64 (Int64.sub newCount oldCount)) (of_int64 oldCount)) c100.

(** [calculateGrowth] with its division instrumented: [None] would signal a
    division by zero. *)
Definition calculateGrowth_checked (oldCount newCount : Z) : option float64 :=
  if oldCount =? 0 then Some zero
  else
    match fdiv_checked (of_int64 (Int64.sub newCount oldCount)) (of_int64 oldCount) with
    | Some q => Some (fmul q c100)
    | None => None
    end.

(** The growth formula as the specification writes it,
    [(current - old) / old * 100], evaluated in binary64. *)
Definition growth_formula (old current : Z) : float64 :=
  fmul (fdiv (of_int64 (current - old)) (of_int64 old)) c100.

(** One iteration of the detection loop: [Some t] appends [t], [None] is a
    [continue] that appends nothing. *)
Definition examine (criteria : TrendCriteria)
           (historyMap : gmap Z (option SoundHistory)) (sound : Sound)
  : option TrendingSound :=
  if (UsesCount sound <? MinUsesCount criteria)
     || (MaxUsesCount criteria <? UsesCount sound) then None
  else
    match historyMap !! ID sound with
    | Some (Some history) =>
      let oldCount := hist_UsesCount history in
      if oldCount =? 0 then
        if MinUsesCount criteria <=? UsesCount sound then
          Some (mkTrendingSound sound c999_9 0)
        else None
      else
        let growth := calculateGrowth oldCount (UsesCount sound) in
        if fge growth (MinGrowth criteria) then
          Some (mkTrendingSound sound growth oldCount)
        else None
    | _ => None
    end.

Fixpoint scan (criteria : TrendCriteria)
         (historyMap : gmap Z (option SoundHistory)) (sounds : list Sound)
         (trendingSounds : list TrendingSound) : list TrendingSound :=
  match sounds with
  | [] => trendingSounds
  | sound :: rest =>
    match examine criteria historyMap sound with
    | Some t => scan criteria historyMap rest (trendingSounds ++ [t])
    | None => scan criteria historyMap rest trendingSounds
    end
  end.

(** The comparison handed to [sort.Slice]. *)
Definition by_growth_desc (a b : TrendingSound) : bool :=
  fgt (GrowthPercent a) (GrowthPercent b).

(** [if limit > 0 && len(s) > limit { s = s[:limit] }] *)
Definition truncate {A : Type} (limit : Z) (l : list A) : list A :=
  if (0 <? limit) && (limit <? Z.of_nat (length l))
  then firstn (Z.to_nat limit) l else l.

Section Detector.
Context {St : Type} `{Storage St} {sorter : SliceSorter}.

(** Everything after the storage call. *)
Definition rank (limit : Z) (criteria : TrendCriteria)
           (sounds : list Sound) (historyMap : gmap Z (option SoundHistory))
  : list TrendingSound :=
  truncate limit (sort_Slice by_growth_desc (scan criteria historyMap sounds [])).

Definition DetectTrendingWithCriteria (category : string) (limit : Z)
           (criteria : TrendCriteria) (st : St)
  : (list TrendingSound * option error) * St :=
  let '((sounds, historyMap, err), st) :=
    GetAllSoundsWithHistory category (LookbackHours criteria) st in
  match err with
  | Some e => (([], Some (wrap_error "failed to get sounds with history" e)), st)
  | None => ((rank limit criteria sounds historyMap, None), st)
  end.

Definition DetectTrending (category : string) (limit : Z) (st : St)
  : (list TrendingSound * option error) * St :=
  DetectTrendingWithCriteria category limit DefaultCriteria st.
End Detector.

(** ** Trend analysis (detector/detector.go) *)

Record TrendAnalysis := mkTrendAnalysis {
  ta_Category : string;
  TrendingCount : Z;
  AverageGrowth : float64;
  TopSound : option TrendingSound;
  TrendingSounds : list TrendingSound
}.

(** The sum computed by the loop [totalGrowth += ts.GrowthPercent]. *)
Definition totalGrowth (trendingSounds : list TrendingSound) : float64 :=
  fold_left (fun total ts => fadd total (GrowthPercent ts)) trendingSounds zero.

Section AnalyzeTrends.
Context {St : Type} `{Storage St} {sorter : SliceSorter}.

Definition AnalyzeTrends (category : string) (st : St)
  : (option TrendAnalysis * option error) * St :=
  let '((trendingSounds, err), st) := DetectTrending category 10 st in
  match err with
  | Some e => ((None, Some e), st)
  | None =>
    let count := Z.of_nat (length trendingSounds) in
    let analysis :=
      if 0 <? count then
        mkTrendAnalysis category count
          (fdiv (totalGrowth trendingSounds) (of_int64 count))
          (hd_error trendingSounds) trendingSounds
      else mkTrendAnalysis category count zero None trendingSounds in
    ((Some analysis, None), st)
  end.
End AnalyzeTrends.

(** ** Niche selection (bot/handlers.go) *)

(** [contains]: linear search. *)
Fixpoint contains (slice : list string) (item : string) : bool :=
  match slice with
  | [] => false
  | s :: rest => if String.eqb s item then true else contains rest item
  end.

(** The loop of [toggleNiche] from index [i] on, [rest] being [niches[i:]]:
    at the first match return [append(niches[:i], niches[i+1:]...)], and
    after the loop [append(niches, niche)]. *)
Fixpoint toggleNiche_from (i : nat) (niches rest : list string) (niche : string)
  : list string :=
  match rest with
  | [] => niches ++ [niche]
  | n :: rest' =>
    if String.eqb n niche then firstn i niches ++ skipn (S i) niches
    else toggleNiche_from (S i) niches rest' niche
  end.

Definition toggleNiche (niches : list string) (niche : string) : list string :=
  toggleNiche_from 0 niches niches niche.

(** ** Users (storage/models.go, storage/sqlite.go, migrations/init.sql) *)

Record User := mkUser {
  user_ID : Z;
  TelegramID : Z;
  Niches : string;
  IsPremium : bool;
  user_CreatedAt : Time.Time
}.

Module SQLiteUsers.

(** The [users] table in rowid order, its AUTOINCREMENT counter, the clock
    and the two schedules of driver failures, as for the sounds. *)
Record DB := mkDB {
  users : list User;
  users_seq : Z;
  clock : Time.Time;
  faults : list (option error);
  cursors : list (option cursor_fault)
}.

Definition begin_stmt (db : DB) : option error * DB :=
  match faults db with
  | [] => (None, db)
  | f :: fs => (f, mkDB (users db) (users_seq db) (clock db) fs (cursors db))
  end.

Definition open_cursor (db : DB) : option cursor_fault * DB :=
  match cursors db with
  | [] => (None, db)
  | c :: cs => (c, mkDB (users db) (users_seq db) (clock db) (faults db) cs)
  end.

Definition with_users (db : DB) (rows : list User) (seq : Z) : DB :=
  mkDB rows seq (clock db) (faults db) (cursors db).

Definition telegram_id_taken (telegramID : Z) (db : DB) : bool :=
  existsb (fun u => TelegramID u =? telegramID) (users db).

(** INSERT INTO users (telegram_id, niches, is_premium, created_at)
    VALUES (?, '[]', 0, ?); [telegram_id] is UNIQUE. *)
Definition CreateUser (telegramID : Z) (db : DB) : option error * DB :=
  let '(f, db) := begin_stmt db in
  match f with
  | Some e => (Some (wrap_error "failed to create user" e), db)
  | None =>
    if telegram_id_taken telegramID db then
      (Some (wrap_error "failed to create user"
                        "UNIQUE constraint failed: users.telegram_id"), db)
    else
      let id := users_seq db + 1 in
      (None, with_users db (users db ++ [mkUser id telegramID "[]" false (clock db)]) id)
  end.

(** SELECT ... FROM users WHERE telegram_id = ? *)
Definition GetUser (telegramID : Z) (db : DB) : (option User * option error) * DB :=
  let '(f, db) := begin_stmt db in
  match f with
  | Some e => ((None, Some (wrap_error "failed to get user" e)), db)
  | None => ((List.find (fun u => TelegramID u =? telegramID) (users db), None), db)
  end.

Definition set_niches (telegramID : Z) (niches : string) (u : User) : User :=
  if TelegramID u =? telegramID
  then mkUser (user_ID u) (TelegramID u) niches (IsPremium u) (user_CreatedAt u)
  else u.

(** UPDATE users SET niches = ? WHERE telegram_id = ? *)
Definition UpdateUserNiches (telegramID : Z) (niches : string) (db : DB)
  : option error * DB :=
  let '(f, db) := begin_stmt db in
  match f with
  | Some e => (Some (wrap_error "failed to update user niches" e), db)
  | None => (None, with_users db (map (set_niches telegramID niches) (users db))
                              (users_seq db))
  end.

Definition set_premium (telegramID : Z) (isPremium : bool) (u : User) : User :=
  if TelegramID u =? telegramID
  then mkUser (user_ID u) (TelegramID u) (Niches u) isPremium (user_CreatedAt u)
  else u.

(** UPDATE users SET is_premium = ? WHERE telegram_id = ?; the driver's
    error is returned as it is. *)
Definition SetPremium (telegramID : Z) (isPremium : bool) (db : DB)
  : option error * DB :=
  let '(f, db) := begin_stmt db in
  match f with
  | Some e => (Some e, db)
  | None => (None, with_users db (map (set_premium telegramID isPremium) (users db))
                              (users_seq db))
  end.

(** SELECT ... FROM users ORDER BY created_at DESC, read row by row; as in
    [GetSoundsByCategory], [rows.Err()] is never read. *)
Definition GetAllUsers (db : DB) : (list User * option error) * DB :=
  let '(f, db) := begin_stmt db in
  match f with
  | Some e => (([], Some (wrap_error "failed to get all users" e)), db)
  | None =>
    let rows := order_by (fun a b => user_CreatedAt b <? user_CreatedAt a) (users db) in
    let '(c, db) := open_cursor db in
    (read_rows "failed to scan user" c 0 rows [], db)
  end.

(** Two COUNT queries; the first error aborts with zero counts. *)
Definition GetPremiumStats (db : DB) : (Z * Z * option error) * DB :=
  let '(f, db) := begin_stmt db in
  match f with
  | Some e => ((0, 0, Some e), db)
  | None =>
    let total := Z.of_nat (length (users db)) in
    let '(f, db) := begin_stmt db in
    match f with
    | Some e => ((0, 0, Some e), db)
    | None =>
      let premium := Z.of_nat (length (List.filter IsPremium (users db))) in
      ((total, premium, None), db)
    end
  end.

(** The UNIQUE constraint on [users.telegram_id]. *)
Definition telegram_id_unique (db : DB) : Prop := NoDup (map TelegramID (users db)).

(** The failures scheduled for the next statement and the next result set. *)
Definition next_fault (db : DB) : option error := fst (begin_stmt db).

Definition next_cursor (db : DB) : option cursor_fault := fst (open_cursor db).

End SQLiteUsers.

(** ** Vocabulary for the binary64 proofs *)

Definition Zrange (lo hi : Z) : list Z :=
  map (fun i => lo + Z.of_nat i) (seq 0 (Z.to_nat (hi - lo + 1))).

(** Every binary64 value [m * 2^(3-N)] whose product with 100 could round to a
    mantissa within one unit of that of 999.9, checked by evaluation. *)
Definition marker_clear_at (N : Z) : bool :=
  let lo := (8795213412905778 * 2 ^ N) / 7036874417766400 in
  let hi := (8795213412905780 * 2 ^ N) / 7036874417766400 in
  forallb (fun m => negb (feq (fmul (S754_finite false (Z.to_pos m) (3 - N)) c100) c999_9))
          (Zrange lo hi).

(** A key whose lexicographic order is the float order on non-NaN values. *)
Definition fkey (x : float64) : Z * Z * Z :=
  match x with
  | S754_zero _ => (0, 0, 0)
  | S754_infinity s => (if s then -2 else 2, 0, 0)
  | S754_nan => (0, 0, 0)
  | S754_finite s m e => if s then (-1, - e, Z.neg m) else (1, e, Z.pos m)
  end.

Definition key_lt (a b : Z * Z * Z) : Prop :=
  a.1.1 < b.1.1 \/
  (a.1.1 = b.1.1 /\ (a.1.2 < b.1.2 \/ (a.1.2 = b.1.2 /\ a.2 < b.2))).

(** ** Vocabulary for stating properties of the SQLite store *)

(** What the reading loop returns for a whole result set. *)
Definition rows_read {A : Type} (what : string) (c : option cursor_fault)
           (rows : list A) : list A * option error :=
  match c with
  | None => (rows, None)
  | Some (NextFails k) => (firstn k rows, None)
  | Some (ScanFails k e) =>
    if (k <? length rows)%nat then ([], Some (wrap_error what e)) else (rows, None)
  end.

Module SQLiteSpec.
Import SQLite.

(** A statement that is not scheduled to fail leaves the tables alone. *)
Definition next_fault (db : DB) : option error := fst (begin_stmt db).

Definition after_stmt (db : DB) : DB := snd (begin_stmt db).

(** None of the next [n] statements is scheduled to fail. *)
Definition next_pass (n : nat) (db : DB) : Prop :=
  Forall (fun f => f = None) (firstn n (faults db)).

(** The baseline of a sound: its earliest snapshot at or after the cutoff. *)
Definition baseline (hoursAgo soundID : Z) (db : DB) : option SoundHistory :=
  hd_error (history_since soundID (cutoffTime (clock db) hoursAgo) (sound_history db)).

(** The rows [GetSoundsByCategory category 1000] selects. *)
Definition category_rows (category : string) (db : DB) : list Sound :=
  sql_limit 1000
    (order_by (fun a b => UpdatedAt b <? UpdatedAt a)
       (List.filter (fun r => String.eqb (Category r) category) (sounds db))).

Definition with_faults (db : DB) (fs : list (option error)) : DB :=
  mkDB (sounds db) (sound_history db) (sounds_seq db) (history_seq db)
       (foreign_keys db) (clock db) fs (cursors db).

(** The reading failure scheduled for the next result set, and the state
    after a [Query] that succeeded and whose rows have been read. *)
Definition next_cursor (db : DB) : option cursor_fault := fst (open_cursor db).

Definition after_query (db : DB) : DB := snd (open_cursor (after_stmt db)).

Definition with_cursors (db : DB) (cs : list (option cursor_fault)) : DB :=
  mkDB (sounds db) (sound_history db) (sounds_seq db) (history_seq db)
       (foreign_keys db) (clock db) (faults db) cs.

(** Without failures the loop is a fold that records the baselines found. *)
Definition record_baseline (hoursAgo : Z) (db : DB)
           (m : gmap Z (option SoundHistory)) (s : Sound)
  : gmap Z (option SoundHistory) :=
  match baseline hoursAgo (ID s) db with
  | Some h => <[ID s := Some h]> m
  | None => m
  end.

(** The UNIQUE constraint on [sounds.url]. *)
Definition url_unique (db : DB) : Prop := NoDup (map URL (sounds db)).

Definition find_url (url : string) (db : DB) : option Sound :=
  List.find (fun r => String.eqb (URL r) url) (sounds db).

(** What one call leaves behind, whatever the driver does. *)
Record step_post (now : Time.Time) (sound : Sound) (db : SQLite.DB)
       (o : outcome) (db' : SQLite.DB) : Prop := {
  post_unique : url_unique db -> url_unique db';
  post_no_panic : o <> Panicked;
  post_success :
    o = Returned None ->
    exists item,
      find_url (URL sound) db' = Some item /\
      UsesCount item = UsesCount sound /\
      SQLite.sound_history db'
      = SQLite.sound_history db
        ++ [mkSoundHistory (SQLite.history_seq db + 1) (ID item) (UsesCount sound) now];
  post_failure : o <> Returned None -> SQLite.sound_history db' = SQLite.sound_history db;
  post_known_url :
    SQLite.url_taken (URL sound) db = true -> map URL (SQLite.sounds db') = map URL (SQLite.sounds db);
  post_new_url :
    SQLite.url_taken (URL sound) db = false ->
    map URL (SQLite.sounds db') = map URL (SQLite.sounds db) \/
    map URL (SQLite.sounds db') = map URL (SQLite.sounds db) ++ [URL sound];
  post_seq : o = Returned None -> SQLite.history_seq db' = SQLite.history_seq db + 1
}.

(** The observations whose call returned nil. *)
Fixpoint recorded (obs : list (Time.Time * Sound)) (os : list outcome)
  : list (Time.Time * Sound) :=
  match obs, os with
  | ob :: obs', Returned None :: os' => ob :: recorded obs' os'
  | _ :: obs', _ :: os' => recorded obs' os'
  | _, _ => []
  end.

(** Two states that hold the same rows and show the same time. *)
Definition same_tables (db db' : DB) : Prop :=
  sounds db' = sounds db /\ sound_history db' = sound_history db /\
  clock db' = clock db.

End SQLiteSpec.

(** ** A worked scenario

    Three sounds are observed at time 0, observed again ten hours later
    together with a fourth one, and the detector runs at hour eleven with
    the default 24-hour lookback. *)

Definition demo_sound (url : string) (uses : Z) : Sound :=
  mkSound 0 "T" "A" url uses "tech" 0 0.

Definition demo_observations : list (Time.Time * Sound) :=
  [ (0, demo_sound "u1" 1000);
    (1, demo_sound "u2" 0);
    (2, demo_sound "u3" 100);
    (10 * Time.Hour, demo_sound "u1" 2600);
    (10 * Time.Hour + 1, demo_sound "u2" 700);
    (10 * Time.Hour + 2, demo_sound "u3" 20000);
    (10 * Time.Hour + 3, demo_sound "u4" 5000) ].

Definition demo_db : SQLite.DB :=
  SQLite.set_clock (11 * Time.Hour)
    (snd (SQLite.RecordObservations demo_observations (SQLite.empty true 0 []))).

Definition demo_u1 : TrendingSound :=
  mkTrendingSound
    (mkSound 1 "T" "A" "u1" 2600 "tech" 0 (10 * Time.Hour))
    (S754_finite false 5629499534213120 (-45)) 1000.

Definition demo_u2 : Sound :=
  mkSound 2 "T" "A" "u2" 700 "tech" 1 (10 * Time.Hour + 1).

Definition demo_load :=
  GetAllSoundsWithHistory "tech" (LookbackHours DefaultCriteria) demo_db.

Definition demo_h1 : SoundHistory := mkSoundHistory 1 1 1000 0.
Definition demo_h2 : SoundHistory := mkSoundHistory 2 2 0 1.

Definition demo_r3 : TrendingSound :=
  mkTrendingSound
    (mkSound 3 "T" "A" "u3" 20000 "tech" 2 (10 * Time.Hour + 2))
    (S754_finite false 5470070348185600 (-38)) 100.

Definition demo_r2 : TrendingSound := mkTrendingSound demo_u2 c999_9 0.

Definition demo_detect (limit : Z) : list TrendingSound :=
  fst (fst (DetectTrendingWithCriteria (sorter := insertion_sorter)
              "tech" limit DefaultCriteria demo_db)).

Definition demo_failing_db : SQLite.DB := SQLite.empty true 0 [Some "io"%string].

(** A store in which the next statement fails and the one after runs. *)
Definition demo_flaky_db : SQLite.DB :=
  SQLiteSpec.with_faults demo_db [Some "io"%string; None].

(** The same store when reading the next result set fails at its second row. *)
Definition demo_short_db : SQLite.DB :=
  SQLiteSpec.with_cursors demo_db [Some (NextFails 1)].

Definition demo_users : SQLiteUsers.DB := SQLiteUsers.mkDB [] 0 5 [] [].

Definition demo_users_1 : SQLiteUsers.DB :=
  snd (SQLiteUsers.CreateUser 42 demo_users).

Definition demo_user : User := mkUser 1 42 "[]" false 5.

(* ================================================================== *)
(** * Part II: properties                                               *)
(* ================================================================== *)

(** ** Binary64 rounding *)

Lemma digits2_pos_bounds (p : positive) :
  2 ^ (Z.pos (digits2_pos p) - 1) <= Z.pos p < 2 ^ Z.pos (digits2_pos p).
Proof.
  induction p as [p IH | p IH |]; simpl digits2_pos.
  - rewrite Pos2Z.inj_succ, Z.pow_succ_r by lia.
    replace (Z.succ (Z.pos (digits2_pos p)) - 1) with (Z.succ (Z.pos (digits2_pos p) - 1)) by lia.
    rewrite Z.pow_succ_r by lia. lia.
  - rewrite Pos2Z.inj_succ, Z.pow_succ_r by lia.
    replace (Z.succ (Z.pos (digits2_pos p)) - 1) with (Z.succ (Z.pos (digits2_pos p) - 1)) by lia.
    rewrite Z.pow_succ_r by lia. lia.
  - simpl. lia.
Qed.

Lemma Zdigits2_upper (m : Z) : 0 <= m -> m < 2 ^ Zdigits2 m.
Proof.
  destruct m as [| p | p]; intros H; simpl; [lia | | lia].
  apply digits2_pos_bounds.
Qed.

Lemma shr_1_m (r : shr_record) :
  0 <= shr_m r -> shr_m (shr_1 r) = shr_m r / 2.
Proof.
  destruct r as [m rb sb]; simpl. intros H.
  destruct m as [| [p | p |] | p]; cbn [shr_m]; try lia; try reflexivity.
  - apply (Z.div_unique_pos (Z.pos p~1) 2 (Z.pos p) 1); lia.
  - apply (Z.div_unique_pos (Z.pos p~0) 2 (Z.pos p) 0); lia.
Qed.

Lemma iter_shr_1_m (p : positive) : forall r,
  0 <= shr_m r -> shr_m (SpecFloat.iter_pos shr_1 p r) = shr_m r / 2 ^ Z.pos p.
Proof.
  assert (Hpow : forall k, 0 < 2 ^ Z.pos k) by (intros; apply Z.pow_pos_nonneg; lia).
  assert (Hnn : forall m k, 0 <= m -> 0 <= m / 2 ^ Z.pos k).
  { intros m k Hm. apply Z.div_pos; [lia | apply Hpow]. }
  induction p as [p IH | p IH |]; intros r Hr; cbn [SpecFloat.iter_pos].
  - assert (H1 : 0 <= shr_m (shr_1 r)) by (rewrite shr_1_m by auto; apply Z.div_pos; lia).
    assert (H2 : 0 <= shr_m (SpecFloat.iter_pos shr_1 p (shr_1 r))) by (rewrite IH by auto; auto).
    rewrite IH, IH, shr_1_m by auto.
    pose proof (Hpow p).
    rewrite !Z.div_div by lia.
    f_equal. replace (Z.pos p~1) with (1 + Z.pos p + Z.pos p) by lia.
    rewrite !Z.pow_add_r by lia. lia.
  - assert (H2 : 0 <= shr_m (SpecFloat.iter_pos shr_1 p r)) by (rewrite IH by auto; auto).
    rewrite IH, IH by auto.
    pose proof (Hpow p).
    rewrite !Z.div_div by lia.
    f_equal. replace (Z.pos p~0) with (Z.pos p + Z.pos p) by lia.
    rewrite !Z.pow_add_r by lia. lia.
  - rewrite shr_1_m by auto. reflexivity.
Qed.

Lemma shr_record_of_loc_m m l : shr_m (shr_record_of_loc m l) = m.
Proof. destruct l as [| []]; reflexivity. Qed.

Lemma shr_spec m l e n : 0 <= m ->
  snd (shr (shr_record_of_loc m l) e n) = e + Z.max 0 n /\
  shr_m (fst (shr (shr_record_of_loc m l) e n)) = m / 2 ^ Z.max 0 n.
Proof.
  intros Hm. destruct n as [| p | p]; cbn [shr fst snd].
  - rewrite shr_record_of_loc_m, Z.div_1_r. split; [lia | reflexivity].
  - rewrite iter_shr_1_m by (rewrite shr_record_of_loc_m; exact Hm).
    rewrite shr_record_of_loc_m. replace (Z.max 0 (Z.pos p)) with (Z.pos p) by lia.
    split; reflexivity.
  - rewrite shr_record_of_loc_m. replace (Z.max 0 (Z.neg p)) with 0 by lia.
    rewrite Z.div_1_r. split; [lia | reflexivity].
Qed.

Lemma round_nearest_even_range m l :
  m <= round_nearest_even m l <= m + 1.
Proof.
  destruct l as [| []]; cbn [round_nearest_even]; try lia.
  destruct (Z.even m); lia.
Qed.

(** Anatomy of one rounding: two right shifts by [k1] and [k2] bits with a
    round-to-nearest-even increment in between. *)
Lemma binary_round_aux_finite_inv s mx ex lx s' m e :
  0 <= mx ->
  binary_round_aux prec emax s mx ex lx = S754_finite s' m e ->
  exists k1 k2 m2,
    k1 = Z.max 0 (fexp prec emax (Zdigits2 mx + ex) - ex) /\
    k2 = Z.max 0 (fexp prec emax (Zdigits2 m2 + (ex + k1)) - (ex + k1)) /\
    mx / 2 ^ k1 <= m2 <= mx / 2 ^ k1 + 1 /\
    Z.pos m = m2 / 2 ^ k2 /\
    e = ex + k1 + k2 /\ s' = s /\ e <= emax - prec.
Proof.
  intros Hmx. unfold binary_round_aux, shr_fexp.
  pose proof (shr_spec mx lx ex (fexp prec emax (Zdigits2 mx + ex) - ex) Hmx) as [He1 Hm1].
  destruct (shr (shr_record_of_loc mx lx) ex (fexp prec emax (Zdigits2 mx + ex) - ex))
    as [mrs1 e1]; cbn [fst snd] in He1, Hm1.
  set (m2 := round_nearest_even (shr_m mrs1) (loc_of_shr_record mrs1)).
  assert (Hm1nn : 0 <= shr_m mrs1).
  { rewrite Hm1. apply Z.div_pos; [lia | apply Z.pow_pos_nonneg; lia]. }
  pose proof (round_nearest_even_range (shr_m mrs1) (loc_of_shr_record mrs1)) as Hr.
  fold m2 in Hr.
  assert (Hm2 : 0 <= m2) by lia.
  pose proof (shr_spec m2 loc_Exact e1 (fexp prec emax (Zdigits2 m2 + e1) - e1) Hm2) as [He2 Hm3].
  destruct (shr (shr_record_of_loc m2 loc_Exact) e1 (fexp prec emax (Zdigits2 m2 + e1) - e1))
    as [mrs2 e2]; cbn [fst snd] in He2, Hm3.
  destruct (shr_m mrs2) as [| m3 | m3] eqn:E3; try discriminate.
  destruct (e2 <=? emax - prec) eqn:Ele; try discriminate.
  intros H; inversion H; subst s' m e; clear H.
  exists (Z.max 0 (fexp prec emax (Zdigits2 mx + ex) - ex)).
  exists (Z.max 0 (fexp prec emax (Zdigits2 m2 + e1) - e1)).
  exists m2. subst e1.
  apply Z.leb_le in Ele.
  repeat split; try lia; try (rewrite <- Hm1; lia).
Qed.

Lemma fexp_ge e : e - prec <= fexp prec emax e.
Proof. unfold fexp. lia. Qed.

(** A rounded mantissa fits in [prec] bits. *)
Lemma binary_round_aux_mantissa_bound s mx ex lx s' m e :
  0 <= mx ->
  binary_round_aux prec emax s mx ex lx = S754_finite s' m e ->
  Z.pos m < 2 ^ prec.
Proof.
  intros Hmx H.
  destruct (binary_round_aux_finite_inv _ _ _ _ _ _ _ Hmx H)
    as (k1 & k2 & m2 & Hk1 & Hk2 & Hm2 & Hm & He & _ & _).
  assert (H0 : 0 <= mx / 2 ^ k1) by (apply Z.div_pos; [lia | apply Z.pow_pos_nonneg; lia]).
  assert (Hm2nn : 0 <= m2) by lia.
  pose proof (Zdigits2_upper m2 Hm2nn) as Hup.
  pose proof (fexp_ge (Zdigits2 m2 + (ex + k1))) as Hfe.
  assert (Hd : 0 <= Zdigits2 m2) by (destruct m2; simpl; lia).
  rewrite Hm. apply Z.div_lt_upper_bound; [apply Z.pow_pos_nonneg; lia |].
  rewrite <- Z.pow_add_r by (unfold prec; lia).
  eapply Z.lt_le_trans; [exact Hup |].
  apply Z.pow_le_mono_r; lia.
Qed.

(** The exact value being rounded lies within one unit in the last place of
    the rounded result. *)
Lemma binary_round_aux_enclosure s mx ex lx s' m e :
  0 <= mx ->
  binary_round_aux prec emax s mx ex lx = S754_finite s' m e ->
  ex <= e /\ s' = s /\
  (Z.pos m - 1) * 2 ^ (e - ex) <= mx < (Z.pos m + 1) * 2 ^ (e - ex).
Proof.
  intros Hmx H.
  destruct (binary_round_aux_finite_inv _ _ _ _ _ _ _ Hmx H)
    as (k1 & k2 & m2 & Hk1 & Hk2 & Hm2 & Hm & He & Hs & _).
  assert (Hk1nn : 0 <= k1) by lia. assert (Hk2nn : 0 <= k2) by lia.
  clear Hk1 Hk2 H.
  replace (e - ex) with (k2 + k1) by lia.
  rewrite Z.pow_add_r by lia.
  assert (HA : 0 < 2 ^ k1) by (apply Z.pow_pos_nonneg; lia).
  assert (HB : 0 < 2 ^ k2) by (apply Z.pow_pos_nonneg; lia).
  set (A := 2 ^ k1) in *. set (B := 2 ^ k2) in *.
  pose proof (Z.div_mod mx A ltac:(lia)) as D1.
  pose proof (Z.mod_pos_bound mx A HA) as R1.
  pose proof (Z.div_mod m2 B ltac:(lia)) as D2.
  pose proof (Z.mod_pos_bound m2 B HB) as R2.
  rewrite <- Hm in D2.
  set (q1 := mx / A) in *. set (r1 := mx mod A) in *. set (r2 := m2 mod B) in *.
  split; [lia |]. split; [exact Hs |].
  split; nia.
Qed.

Lemma Zrange_In lo hi z : lo <= z <= hi -> In z (Zrange lo hi).
Proof.
  intros H. unfold Zrange. apply in_map_iff. exists (Z.to_nat (z - lo)).
  split; [lia |]. apply in_seq. lia.
Qed.

Lemma marker_clear_all : forallb marker_clear_at (Zrange 0 52) = true.
Proof. vm_compute. reflexivity. Qed.

Lemma fmul_100_ne_c999_9 s m e :
  Z.pos m < 2 ^ prec -> fmul (S754_finite s m e) c100 <> c999_9.
Proof.
  intros Hm H. pose proof H as H'.
  unfold fmul, c100, c999_9 in H. cbn [SFmul] in H.
  apply binary_round_aux_enclosure in H; [| lia].
  destruct H as (He & Hs & Hlo & Hhi).
  destruct s; [discriminate Hs |]. clear Hs.
  set (N := -43 - (e + -46)) in *.
  assert (HN : 0 <= N) by lia.
  rewrite Pos2Z.inj_mul in Hlo, Hhi.
  assert (Hpow : 0 < 2 ^ N) by (apply Z.pow_pos_nonneg; lia).
  assert (HN52 : N <= 52).
  { destruct (Z_le_gt_dec N 52) as [|Hgt]; [assumption | exfalso].
    assert (2 ^ 53 <= 2 ^ N) by (apply Z.pow_le_mono_r; lia).
    unfold prec in Hm.
    assert (8795213412905778 * 2 ^ 53 <= 8795213412905778 * 2 ^ N) by lia.
    assert (Z.pos m * 7036874417766400 < 2 ^ 53 * 7036874417766400) by lia.
    lia. }
  pose proof marker_clear_all as Hall.
  rewrite forallb_forall in Hall.
  specialize (Hall N (Zrange_In 0 52 N ltac:(lia))).
  unfold marker_clear_at in Hall. rewrite forallb_forall in Hall.
  specialize (Hall (Z.pos m)).
  replace (3 - N) with e in Hall by lia.
  cbn [Z.to_pos] in Hall. rewrite H' in Hall.
  assert (Hin : In (Z.pos m)
           (Zrange (8795213412905778 * 2 ^ N / 7036874417766400)
                   (8795213412905780 * 2 ^ N / 7036874417766400))).
  { apply Zrange_In. split.
    - apply Z.div_le_upper_bound; lia.
    - apply Z.div_le_lower_bound; lia. }
  specialize (Hall Hin). vm_compute in Hall. discriminate Hall.
Qed.


Lemma SFdiv_core_binary_nonneg m1 e1 m2 e2 :
  0 <= fst (fst (SFdiv_core_binary prec emax (Z.pos m1) e1 (Z.pos m2) e2)).
Proof.
  unfold SFdiv_core_binary.
  set (s := e1 - e2 - _).
  set (m' := match s with Z0 => Z.pos m1 | Z.pos _ => Z.shiftl (Z.pos m1) s | Z.neg _ => 0 end).
  assert (Hm' : 0 <= m').
  { subst m'. destruct s; try lia. apply Z.shiftl_nonneg. lia. }
  pose proof (Z_div_mod m' (Z.pos m2) ltac:(lia)) as Hdm.
  destruct (Z.div_eucl m' (Z.pos m2)) as [q r]. cbn [fst].
  destruct Hdm as [Heq Hr]. nia.
Qed.

Lemma fdiv_mantissa_bound x y s m e :
  fdiv x y = S754_finite s m e -> Z.pos m < 2 ^ prec.
Proof.
  unfold fdiv. destruct x as [sx | sx | | sx mx ex], y as [sy | sy | | sy my ey];
    cbn [SFdiv]; try (intros E; discriminate E).
  pose proof (SFdiv_core_binary_nonneg mx ex my ey) as Hq.
  destruct (SFdiv_core_binary prec emax (Z.pos mx) ex (Z.pos my) ey) as [[mz ez] lz].
  cbn [fst] in Hq. apply binary_round_aux_mantissa_bound. exact Hq.
Qed.

Lemma SFeqb_finite_inv x s m e :
  SFeqb x (S754_finite s m e) = true -> x = S754_finite s m e.
Proof.
  unfold SFeqb.
  destruct x as [sx | sx | | sx mx ex]; cbn [SFcompare].
  - destruct s; intros H; discriminate H.
  - destruct sx; intros H; discriminate H.
  - intros H; discriminate H.
  - destruct (Z.compare ex e) eqn:Ce;
      change (Pos.compare_cont Eq mx m) with (Pos.compare mx m);
      destruct (Pos.compare mx m) eqn:Cm;
      destruct sx, s; intros H; try discriminate H.
    all: apply Z.compare_eq in Ce; apply Pos.compare_eq in Cm; subst; reflexivity.
Qed.

Lemma feq_c999_9_inv x : feq x c999_9 = true -> x = c999_9.
Proof. apply SFeqb_finite_inv. Qed.

(** No binary64 quotient times 100 equals the marker 999.9. *)
Lemma growth_formula_ne_c999_9 x y :
  feq (fmul (fdiv x y) c100) c999_9 = false.
Proof.
  destruct (feq (fmul (fdiv x y) c100) c999_9) eqn:E; [exfalso | reflexivity].
  apply feq_c999_9_inv in E.
  destruct (fdiv x y) as [s | s | | s m e] eqn:D.
  - destruct s; discriminate E.
  - destruct s; discriminate E.
  - discriminate E.
  - apply fdiv_mantissa_bound in D.
    exact (fmul_100_ne_c999_9 s m e D E).
Qed.

(** Rounding a positive mantissa whose exponent is at least [emin] never
    underflows to zero. *)
Lemma shr_fexp_positive m e l :
  emin prec emax <= e ->
  0 < shr_m (fst (shr_fexp prec emax (Z.pos m) e l)) /\
  emin prec emax <= snd (shr_fexp prec emax (Z.pos m) e l).
Proof.
  intros He. unfold shr_fexp.
  destruct (shr_spec (Z.pos m) l e
              (fexp prec emax (Zdigits2 (Z.pos m) + e) - e) ltac:(lia)) as [Hs Hm].
  rewrite Hs, Hm. split; [| lia].
  cbn [Zdigits2]. pose proof (digits2_pos_bounds m) as [Hlo _].
  set (d := Z.pos (digits2_pos m)) in *.
  assert (Hd : 1 <= d) by (subst d; lia).
  unfold fexp, emin, prec, emax in *.
  destruct (Z_le_gt_dec (Z.max (d + e - 53) (3 - 1024 - 53) - e) 0) as [Hn | Hn].
  - replace (Z.max 0 _) with 0 by lia. rewrite Z.div_1_r. lia.
  - replace (Z.max 0 (Z.max (d + e - 53) (3 - 1024 - 53) - e)) with (d - 53) by lia.
    assert (H52 : 0 < 2 ^ 52) by (apply Z.pow_pos_nonneg; lia).
    apply Z.lt_le_trans with (2 ^ 52); [exact H52 |].
    apply Z.div_le_lower_bound; [apply Z.pow_pos_nonneg; lia |].
    rewrite <- Z.pow_add_r by lia.
    replace (d - 53 + 52) with (d - 1) by lia. exact Hlo.
Qed.

Lemma binary_round_aux_nonzero s m e l :
  emin prec emax <= e ->
  is_zero (binary_round_aux prec emax s (Z.pos m) e l) = false.
Proof.
  intros He. unfold binary_round_aux.
  destruct (shr_fexp_positive m e l He) as [H1 H1e].
  destruct (shr_fexp prec emax (Z.pos m) e l) as [mrs1 e1]. cbn [fst snd] in H1, H1e.
  pose proof (round_nearest_even_range (shr_m mrs1) (loc_of_shr_record mrs1)) as Hr.
  destruct (round_nearest_even (shr_m mrs1) (loc_of_shr_record mrs1)) as [| m2 | m2];
    try lia.
  destruct (shr_fexp_positive m2 e1 loc_Exact H1e) as [H2 _].
  destruct (shr_fexp prec emax (Z.pos m2) e1 loc_Exact) as [mrs2 e2]. cbn [fst] in H2.
  destruct (shr_m mrs2) as [| m3 | m3]; try lia.
  destruct (e2 <=? emax - prec); reflexivity.
Qed.

(** The conversion of a nonzero integer is a nonzero float. *)
Lemma of_int64_nonzero z : z <> 0 -> is_zero (of_int64 z) = false.
Proof.
  assert (Hround : forall s p, is_zero (binary_round prec emax s p 0) = false).
  { intros s p. unfold binary_round, shl_align.
    set (e' := fexp prec emax (Z.pos (digits2_pos p) + 0)).
    assert (He' : emin prec emax <= e') by (subst e'; unfold fexp; lia).
    assert (H0 : emin prec emax <= 0) by (unfold emin, prec, emax; lia).
    destruct (e' - 0) eqn:E; apply binary_round_aux_nonzero; lia. }
  intros Hz. unfold of_int64, binary_normalize.
  destruct z as [| p | p]; [congruence | apply Hround | apply Hround].
Qed.

(** ** The order on binary64 values *)

Lemma SFcompare_key x y :
  is_nan x = false -> is_nan y = false ->
  exists c, SFcompare x y = Some c /\
    match c with
    | Lt => key_lt (fkey x) (fkey y)
    | Gt => key_lt (fkey y) (fkey x)
    | Eq => fkey x = fkey y
    end.
Proof.
  intros Hx Hy.
  destruct x as [sx | sx | | sx mx ex]; try discriminate Hx;
  destruct y as [sy | sy | | sy my ey]; try discriminate Hy;
  cbn [SFcompare fkey].
  1-8: try destruct sx; try destruct sy; eexists; (split; [reflexivity |]);
       unfold key_lt; cbn; try reflexivity; lia.
  change (Pos.compare_cont Eq mx my) with (Pos.compare mx my).
  destruct sx, sy; eexists; (split; [reflexivity |]); unfold key_lt; cbn [fst snd].
  - destruct (Z.compare_spec ex ey) as [-> | He | He]; try lia.
    destruct (Pos.compare_spec mx my) as [-> | Hm | Hm]; cbn [CompOpp];
      [reflexivity | lia | lia].
  - lia.
  - lia.
  - destruct (Z.compare_spec ex ey) as [-> | He | He]; try lia.
    destruct (Pos.compare_spec mx my) as [-> | Hm | Hm]; [reflexivity | lia | lia].
Qed.

Lemma key_lt_irrefl a : ~ key_lt a a.
Proof. unfold key_lt. lia. Qed.

Lemma key_lt_trans a b c : key_lt a b -> key_lt b c -> key_lt a c.
Proof. unfold key_lt. lia. Qed.

Lemma key_lt_total a b : key_lt a b \/ a = b \/ key_lt b a.
Proof.
  destruct a as [[a1 a2] a3], b as [[b1 b2] b3]. unfold key_lt. cbn [fst snd].
  destruct (Z.lt_total a1 b1) as [| [-> |]]; try lia.
  destruct (Z.lt_total a2 b2) as [| [-> |]]; try lia.
  destruct (Z.lt_total a3 b3) as [| [-> |]]; try lia.
  right; left; reflexivity.
Qed.

Lemma fgt_key x y :
  is_nan x = false -> is_nan y = false ->
  (fgt x y = true <-> key_lt (fkey y) (fkey x)).
Proof.
  intros Hx Hy. destruct (SFcompare_key x y Hx Hy) as (c & Hc & Hk).
  unfold fgt. rewrite Hc. destruct c; split; intros H; try discriminate H; auto.
  - rewrite Hk in H. destruct (key_lt_irrefl _ H).
  - destruct (key_lt_irrefl _ (key_lt_trans _ _ _ H Hk)).
Qed.

Lemma fge_key x y :
  is_nan x = false -> is_nan y = false ->
  (fge x y = true <-> ~ key_lt (fkey x) (fkey y)).
Proof.
  intros Hx Hy. destruct (SFcompare_key x y Hx Hy) as (c & Hc & Hk).
  unfold fge. rewrite Hc. destruct c; split; intros H; try discriminate H;
    try reflexivity.
  - rewrite Hk. apply key_lt_irrefl.
  - destruct (H Hk).
  - intros H'. destruct (key_lt_irrefl _ (key_lt_trans _ _ _ H' Hk)).
Qed.

Lemma fge_not_nan x y : fge x y = true -> is_nan x = false /\ is_nan y = false.
Proof.
  unfold fge. destruct x as [| | |], y as [| | |]; cbn [SFcompare is_nan];
    intros H; try discriminate H; split; reflexivity.
Qed.

(** Go's [a >= b] is the negation of [b > a] away from NaN. *)
Lemma fge_iff_not_fgt x y :
  is_nan x = false -> is_nan y = false ->
  (fge x y = true <-> fgt y x = false).
Proof.
  intros Hx Hy. rewrite (fge_key x y Hx Hy).
  pose proof (fgt_key y x Hy Hx) as Hg.
  destruct (fgt y x); split; intros H; try discriminate; try reflexivity.
  - destruct H. apply Hg. reflexivity.
  - intros Hk. apply Hg in Hk. discriminate Hk.
Qed.

Lemma feq_refl x : is_nan x = false -> feq x x = true.
Proof.
  intros Hx. destruct (SFcompare_key x x Hx Hx) as (c & Hc & Hk).
  unfold feq, SFeqb. rewrite Hc.
  destruct c; [reflexivity | destruct (key_lt_irrefl _ Hk) ..].
Qed.

(** ** Insertion sort meets the sorting contract *)

Section OrderByFacts.
Context {A : Type} (lt : A -> A -> bool).

Lemma insert_sorted_perm x l : Permutation (x :: l) (insert_sorted lt x l).
Proof.
  induction l as [| y l IH]; cbn [insert_sorted]; [reflexivity |].
  destruct (lt y x); [| reflexivity].
  rewrite Permutation_swap. constructor. exact IH.
Qed.

Lemma order_by_perm l : Permutation l (order_by lt l).
Proof.
  induction l as [| x l IH]; cbn [order_by]; [reflexivity |].
  rewrite <- insert_sorted_perm. constructor. exact IH.
Qed.

Lemma order_by_In x l : In x (order_by lt l) <-> In x l.
Proof.
  split; apply Permutation_in; [symmetry |]; apply order_by_perm.
Qed.

Lemma order_by_length l : length (order_by lt l) = length l.
Proof. symmetry. apply Permutation_length, order_by_perm. Qed.

Let R := fun a b => lt b a = false.

Lemma insert_sorted_HdRel y x l :
  R y x -> HdRel R y l -> HdRel R y (insert_sorted lt x l).
Proof.
  intros Hyx Hl. destruct l as [| z l]; cbn [insert_sorted].
  - constructor. exact Hyx.
  - destruct (lt z x); constructor; [| exact Hyx].
    inversion Hl; assumption.
Qed.

Lemma insert_sorted_sorted x l :
  (forall y, In y l -> lt y x = true -> lt x y = false) ->
  Sorted R l -> Sorted R (insert_sorted lt x l).
Proof.
  intros Hasym Hs. induction Hs as [| y l Hs IH Hhd]; cbn [insert_sorted].
  - repeat constructor.
  - destruct (lt y x) eqn:E.
    + constructor.
      * apply IH. intros z Hz. apply Hasym. right. exact Hz.
      * apply insert_sorted_HdRel; [| exact Hhd].
        unfold R. apply Hasym; [left; reflexivity | exact E].
    + constructor; [constructor; assumption |].
      constructor. exact E.
Qed.

Lemma order_by_sorted l : strict_weak_on lt l -> Sorted R (order_by lt l).
Proof.
  intros (Hirr & Htr & _).
  assert (Hasym : forall a b, In a l -> In b l -> lt a b = true -> lt b a = false).
  { intros a b Ha Hb Hab. destruct (lt b a) eqn:E; [| reflexivity].
    rewrite <- (Hirr a Ha). symmetry. exact (Htr a b a Ha Hb Ha Hab E). }
  clear Hirr Htr.
  induction l as [| x l IH]; cbn [order_by]; [constructor |].
  apply insert_sorted_sorted.
  - intros y Hy. apply (proj1 (order_by_In y l)) in Hy.
    apply Hasym; [right; exact Hy | left; reflexivity].
  - apply IH. intros a b Ha Hb. apply Hasym; right; assumption.
Qed.
End OrderByFacts.

Lemma insertion_sorter_laws : SliceSorterLaws insertion_sorter.
Proof.
  split; intros A less l.
  - apply order_by_perm.
  - apply order_by_sorted.
Qed.

(** Adjacent elements of a sorted list are related. *)
Lemma Sorted_adjacent {A : Type} (R : A -> A -> Prop) (l : list A) :
  Sorted R l ->
  forall (i : nat) a b, l !! i = Some a -> l !! S i = Some b -> R a b.
Proof.
  induction 1 as [| x l Hs IH Hhd]; intros i a b Ha Hb; [discriminate Ha |].
  destruct i as [| i]; cbn in Ha, Hb.
  - injection Ha as ->. destruct l as [| y l]; [discriminate Hb |].
    cbn in Hb. injection Hb as ->. inversion Hhd; assumption.
  - exact (IH i a b Ha Hb).
Qed.

(** ** The detection loop *)

Lemma Int64_sub_exact a b :
  Int64.min_int <= a - b <= Int64.max_int -> Int64.sub a b = a - b.
Proof.
  unfold Int64.sub, Int64.wrap, Int64.min_int, Int64.max_int. intros H.
  rewrite Z.mod_small; lia.
Qed.

Lemma calculateGrowth_formula old cur :
  0 < old <= Int64.max_int -> 0 <= cur <= Int64.max_int ->
  calculateGrowth old cur = growth_formula old cur.
Proof.
  intros Ho Hc. unfold calculateGrowth, growth_formula.
  destruct (Z.eqb_spec old 0) as [-> | _]; [lia |].
  rewrite Int64_sub_exact; [reflexivity |].
  unfold Int64.min_int, Int64.max_int in *. lia.
Qed.

Lemma scan_omap criteria historyMap sounds acc :
  scan criteria historyMap sounds acc
  = acc ++ omap (examine criteria historyMap) sounds.
Proof.
  revert acc. induction sounds as [| s rest IH]; intros acc; cbn [scan omap list_omap].
  - rewrite app_nil_r. reflexivity.
  - destruct (examine criteria historyMap s) as [t |]; rewrite IH.
    + rewrite <- app_assoc. reflexivity.
    + reflexivity.
Qed.

Lemma In_scan criteria historyMap sounds t :
  In t (scan criteria historyMap sounds []) <->
  exists s, In s sounds /\ examine criteria historyMap s = Some t.
Proof.
  rewrite scan_omap, app_nil_l, <- list_elem_of_In, list_elem_of_omap.
  split; intros (s & Hs & He); exists s; split; auto; apply list_elem_of_In; exact Hs.
Qed.

(** What an accepted entry records, by cases on the baseline. *)
Lemma examine_Some criteria historyMap s t :
  examine criteria historyMap s = Some t ->
  ts_Sound t = s /\
  MinUsesCount criteria <= UsesCount s <= MaxUsesCount criteria /\
  exists history,
    historyMap !! ID s = Some (Some history) /\
    ((hist_UsesCount history = 0 /\ GrowthPercent t = c999_9 /\ OldUsesCount t = 0) \/
     (hist_UsesCount history <> 0 /\
      GrowthPercent t = calculateGrowth (hist_UsesCount history) (UsesCount s) /\
      OldUsesCount t = hist_UsesCount history /\
      fge (GrowthPercent t) (MinGrowth criteria) = true)).
Proof.
  unfold examine.
  destruct (Z.ltb_spec (UsesCount s) (MinUsesCount criteria)) as [| Hmin];
    [intros E; discriminate E |].
  destruct (Z.ltb_spec (MaxUsesCount criteria) (UsesCount s)) as [| Hmax];
    [intros E; discriminate E |].
  cbn [orb].
  destruct (historyMap !! ID s) as [[history |] |]; try (intros E; discriminate E).
  destruct (Z.eqb_spec (hist_UsesCount history) 0) as [H0 | H0].
  - destruct (MinUsesCount criteria <=? UsesCount s); intros E; [| discriminate E].
    injection E as <-. cbn. split; [reflexivity |]. split; [lia |].
    exists history. split; [reflexivity |]. left. auto.
  - destruct (fge _ _) eqn:G; intros E; [| discriminate E].
    injection E as <-. cbn [ts_Sound GrowthPercent OldUsesCount].
    split; [reflexivity |]. split; [lia |].
    exists history. split; [reflexivity |]. right. auto.
Qed.

Lemma c999_9_not_nan : is_nan c999_9 = false.
Proof. reflexivity. Qed.

Lemma examine_not_nan criteria historyMap s t :
  examine criteria historyMap s = Some t -> is_nan (GrowthPercent t) = false.
Proof.
  intros E. apply examine_Some in E.
  destruct E as (_ & _ & h & _ & [(_ & -> & _) | (_ & _ & _ & G)]).
  - reflexivity.
  - apply fge_not_nan in G. tauto.
Qed.

(** On entries whose growth is a number, [by_growth_desc] is the strict
    weak ordering [sort.Slice] expects. *)
Lemma by_growth_desc_strict_weak l :
  (forall t, In t l -> is_nan (GrowthPercent t) = false) ->
  strict_weak_on by_growth_desc l.
Proof.
  intros Hn. unfold by_growth_desc. repeat split.
  - intros a Ha. destruct (fgt _ _) eqn:E; [| reflexivity].
    apply fgt_key in E; auto. destruct (key_lt_irrefl _ E).
  - intros a b c Ha Hb Hc Hab Hbc.
    apply fgt_key in Hab, Hbc; auto. apply fgt_key; auto.
    exact (key_lt_trans _ _ _ Hbc Hab).
  - intros a b c Ha Hb Hc Hab Hbc.
    destruct (fgt (GrowthPercent a) (GrowthPercent c)) eqn:E; [| reflexivity].
    apply fgt_key in E; auto.
    destruct (key_lt_total (fkey (GrowthPercent b)) (fkey (GrowthPercent a)))
      as [H1 | [H1 | H1]].
    + apply fgt_key in H1; auto. congruence.
    + rewrite <- H1 in E. apply fgt_key in E; auto. congruence.
    + pose proof (key_lt_trans _ _ _ E H1) as H2.
      apply fgt_key in H2; auto. congruence.
Qed.

Lemma truncate_In {A : Type} limit (l : list A) x : In x (truncate limit l) -> In x l.
Proof.
  unfold truncate. destruct (_ && _); [| auto].
  rewrite <- !list_elem_of_In. intros Hx.
  apply elem_of_take in Hx. destruct Hx as (i & Hi & _).
  eapply list_elem_of_lookup_2. exact Hi.
Qed.

Lemma truncate_lookup {A : Type} limit (l : list A) (i : nat) x :
  truncate limit l !! i = Some x -> l !! i = Some x.
Proof.
  unfold truncate. destruct (_ && _); [| auto].
  intros H. apply lookup_take_Some in H. tauto.
Qed.

Lemma truncate_length {A : Type} limit (l : list A) :
  0 < limit -> Z.of_nat (length (truncate limit l)) <= limit.
Proof.
  intros Hl. unfold truncate.
  destruct (Z.ltb_spec 0 limit); [| lia]. cbn [andb].
  destruct (Z.ltb_spec limit (Z.of_nat (length l))); [| lia].
  rewrite length_take. lia.
Qed.

Lemma truncate_all {A : Type} limit (l : list A) :
  limit <= 0 \/ Z.of_nat (length l) <= limit -> truncate limit l = l.
Proof.
  intros H. unfold truncate.
  destruct (Z.ltb_spec 0 limit); [| reflexivity]. cbn [andb].
  destruct (Z.ltb_spec limit (Z.of_nat (length l))); [lia | reflexivity].
Qed.

Section DetectorFacts.
Context {St : Type} `{Storage St} {sorter : SliceSorter}
        {sorter_laws : SliceSorterLaws sorter}.

Lemma In_rank limit criteria sounds historyMap t :
  In t (rank limit criteria sounds historyMap) ->
  exists s, In s sounds /\ examine criteria historyMap s = Some t.
Proof.
  unfold rank. intros Ht. apply truncate_In in Ht.
  apply (Permutation_in _ (Permutation_sym (sort_Slice_perm _ _ _))) in Ht.
  apply In_scan. exact Ht.
Qed.

Lemma rank_untruncated limit criteria sounds historyMap :
  limit <= 0 \/ Z.of_nat (length (scan criteria historyMap sounds [])) <= limit ->
  Permutation (scan criteria historyMap sounds [])
              (rank limit criteria sounds historyMap).
Proof.
  intros Hl. unfold rank. rewrite truncate_all.
  - apply sort_Slice_perm.
  - rewrite <- (Permutation_length (sort_Slice_perm _ by_growth_desc _)). exact Hl.
Qed.

Lemma rank_sorted limit criteria sounds historyMap (i : nat) a b :
  rank limit criteria sounds historyMap !! i = Some a ->
  rank limit criteria sounds historyMap !! S i = Some b ->
  fge (GrowthPercent a) (GrowthPercent b) = true.
Proof.
  unfold rank. intros Ha Hb.
  apply truncate_lookup in Ha, Hb.
  set (acc := scan criteria historyMap sounds []) in *.
  assert (Hnan : forall t, In t acc -> is_nan (GrowthPercent t) = false).
  { intros t Ht. apply In_scan in Ht. destruct Ht as (s & _ & E).
    exact (examine_not_nan _ _ _ _ E). }
  pose proof (sort_Slice_sorted _ by_growth_desc acc
                (by_growth_desc_strict_weak acc Hnan)) as Hs.
  pose proof (Sorted_adjacent _ _ Hs i a b Ha Hb) as Hab. cbn in Hab.
  assert (Hin : forall t j, sort_Slice by_growth_desc acc !! j = Some t -> In t acc).
  { intros t j Hj.
    apply (Permutation_in _ (Permutation_sym (sort_Slice_perm _ by_growth_desc acc))).
    apply list_elem_of_In. eapply list_elem_of_lookup_2. exact Hj. }
  apply fge_iff_not_fgt; eauto.
Qed.

Lemma DetectTrendingWithCriteria_ok category limit criteria st sounds historyMap st' :
  GetAllSoundsWithHistory category (LookbackHours criteria) st
    = ((sounds, historyMap, None), st') ->
  DetectTrendingWithCriteria category limit criteria st
    = ((rank limit criteria sounds historyMap, None), st').
Proof. unfold DetectTrendingWithCriteria. intros ->. reflexivity. Qed.

Lemma DetectTrendingWithCriteria_cases category limit criteria st :
  (exists sounds historyMap st',
      GetAllSoundsWithHistory category (LookbackHours criteria) st
        = ((sounds, historyMap, None), st') /\
      DetectTrendingWithCriteria category limit criteria st
        = ((rank limit criteria sounds historyMap, None), st')) \/
  (exists e st',
      DetectTrendingWithCriteria category limit criteria st = (([], Some e), st')).
Proof.
  unfold DetectTrendingWithCriteria.
  destruct (GetAllSoundsWithHistory category (LookbackHours criteria) st)
    as [[[sounds historyMap] [e |]] st'].
  - right. eauto.
  - left. eauto 6.
Qed.
End DetectorFacts.

(** ** Reading a result set *)

Lemma read_rows_from {A : Type} what c (pending : list A) :
  forall i acc,
    read_rows what c i pending acc
    = match c with
      | None => (acc ++ pending, None)
      | Some (NextFails k) =>
        if (k <? i)%nat then (acc ++ pending, None)
        else (acc ++ firstn (k - i) pending, None)
      | Some (ScanFails k e) =>
        if (i <=? k)%nat && (k - i <? length pending)%nat
        then ([], Some (wrap_error what e))
        else (acc ++ pending, None)
      end.
Proof.
  induction pending as [| row rest IH]; intros i acc; cbn [read_rows length].
  - rewrite app_nil_r. destruct c as [[k | k e] |]; [| | reflexivity].
    + rewrite firstn_nil, app_nil_r. destruct (k <? i)%nat; reflexivity.
    + replace (k - i <? 0)%nat with false by (symmetry; apply Nat.ltb_ge; lia).
      rewrite andb_false_r. reflexivity.
  - destruct c as [[k | k e] |].
    + destruct (Nat.eqb_spec i k) as [-> | NE].
      * replace (k <? k)%nat with false by (symmetry; apply Nat.ltb_ge; lia).
        rewrite Nat.sub_diag. cbn [firstn]. rewrite app_nil_r. reflexivity.
      * rewrite IH.
        destruct (Nat.ltb_spec k i), (Nat.ltb_spec k (S i)); try lia.
        -- rewrite <- app_assoc. reflexivity.
        -- replace (k - i)%nat with (S (k - S i)) by lia.
           cbn [firstn]. rewrite <- app_assoc. reflexivity.
    + destruct (Nat.eqb_spec i k) as [-> | NE].
      * rewrite Nat.leb_refl, Nat.sub_diag. reflexivity.
      * rewrite IH.
        destruct (Nat.leb_spec i k), (Nat.leb_spec (S i) k); try lia; cbn [andb].
        -- destruct (Nat.ltb_spec (k - S i) (length rest)),
                    (Nat.ltb_spec (k - i) (S (length rest))); try lia;
             [reflexivity | rewrite <- app_assoc; reflexivity].
        -- rewrite <- app_assoc. reflexivity.
    + rewrite IH, <- app_assoc. reflexivity.
Qed.

Lemma read_rows_spec {A : Type} what c (rows : list A) :
  read_rows what c 0 rows [] = rows_read what c rows.
Proof.
  rewrite read_rows_from. unfold rows_read. destruct c as [[k | k e] |]; cbn [app].
  - rewrite Nat.sub_0_r. reflexivity.
  - rewrite Nat.sub_0_r. reflexivity.
  - reflexivity.
Qed.

(** A nil error comes with a prefix of the result set, an error with a
    nil list. *)
Lemma rows_read_cases {A : Type} what c (rows : list A) :
  (exists n : nat, rows_read what c rows = (firstn n rows, None)) \/
  (exists e, rows_read what c rows = ([], Some (wrap_error what e))).
Proof.
  unfold rows_read. destruct c as [[k | k e] |].
  - left. eauto.
  - destruct (k <? length rows)%nat; [right; eauto |].
    left. exists (length rows). rewrite firstn_all. reflexivity.
  - left. exists (length rows). rewrite firstn_all. reflexivity.
Qed.

(** ** The SQLite store: queries *)

Module SQLiteFacts.
Import SQLite SQLiteSpec.

Lemma begin_stmt_eq db : begin_stmt db = (next_fault db, after_stmt db).
Proof. unfold next_fault, after_stmt. destruct (begin_stmt db); reflexivity. Qed.

Lemma open_cursor_eq db : open_cursor db = (next_cursor db, snd (open_cursor db)).
Proof. unfold next_cursor. destruct (open_cursor db); reflexivity. Qed.

Lemma open_cursor_tables db :
  sounds (snd (open_cursor db)) = sounds db /\
  sound_history (snd (open_cursor db)) = sound_history db /\
  clock (snd (open_cursor db)) = clock db /\
  faults (snd (open_cursor db)) = faults db.
Proof. unfold open_cursor. destruct (cursors db); cbn; repeat split. Qed.

Lemma after_stmt_cursors db : cursors (after_stmt db) = cursors db.
Proof. unfold after_stmt, begin_stmt. destruct (faults db); reflexivity. Qed.

Lemma after_query_tables db :
  sounds (after_query db) = sounds db /\
  sound_history (after_query db) = sound_history db /\
  clock (after_query db) = clock db /\
  faults (after_query db) = faults (after_stmt db).
Proof.
  unfold after_query.
  destruct (open_cursor_tables (after_stmt db)) as (-> & -> & -> & ->).
  unfold after_stmt, begin_stmt. destruct (faults db); cbn; repeat split.
Qed.

(** The category query, statement by statement. *)
Lemma GetSoundsByCategory_eq category limit db :
  GetSoundsByCategory category limit db
  = match next_fault db with
    | Some e =>
      (([], Some (wrap_error "failed to get sounds by category" e)), after_stmt db)
    | None =>
      (rows_read "failed to scan sound" (next_cursor (after_stmt db))
         (sql_limit limit
            (order_by (fun a b => UpdatedAt b <? UpdatedAt a)
               (List.filter (fun r => String.eqb (Category r) category) (sounds db)))),
       after_query db)
    end.
Proof.
  unfold GetSoundsByCategory, after_query. rewrite begin_stmt_eq.
  destruct (next_fault db); [reflexivity |].
  rewrite open_cursor_eq, read_rows_spec.
  unfold after_stmt, begin_stmt. destruct (faults db); reflexivity.
Qed.

Lemma after_stmt_tables db :
  sounds (after_stmt db) = sounds db /\
  sound_history (after_stmt db) = sound_history db /\
  sounds_seq (after_stmt db) = sounds_seq db /\
  history_seq (after_stmt db) = history_seq db /\
  foreign_keys (after_stmt db) = foreign_keys db /\
  clock (after_stmt db) = clock db.
Proof.
  unfold after_stmt, begin_stmt. destruct (faults db); cbn; repeat split.
Qed.

Lemma no_faults_stmt db :
  faults db = [] -> next_fault db = None /\ after_stmt db = db.
Proof.
  unfold next_fault, after_stmt, begin_stmt. intros ->. split; reflexivity.
Qed.

Lemma cutoffTime_exact now hoursAgo :
  -2562047 <= hoursAgo <= 2562047 ->
  cutoffTime now hoursAgo = now - hoursAgo * Time.Hour.
Proof.
  intros Hh. unfold cutoffTime, Time.Add, Int64.mul, Int64.neg, Int64.wrap, Time.Hour.
  rewrite (Z.mod_small (- hoursAgo + 2 ^ 63)) by lia.
  replace (- hoursAgo + 2 ^ 63 - 2 ^ 63) with (- hoursAgo) by lia.
  rewrite Z.mod_small by lia. lia.
Qed.

Lemma sql_limit_1_hd {A : Type} (l : list A) :
  hd_error (sql_limit 1 l) = hd_error l.
Proof. destruct l; reflexivity. Qed.

Lemma recorded_lt_strict_weak (l : list SoundHistory) :
  strict_weak_on (fun a b => RecordedAt a <? RecordedAt b) l.
Proof.
  repeat split; intros.
  - apply Z.ltb_irrefl.
  - rewrite Z.ltb_lt in *. lia.
  - rewrite Z.ltb_ge in *. lia.
Qed.

(** The first row of an ascending [ORDER BY recorded_at] is a row of the
    input with the least timestamp. *)
Lemma hd_order_by_recorded (l : list SoundHistory) :
  match hd_error (order_by (fun a b => RecordedAt a <? RecordedAt b) l) with
  | Some h => In h l /\ forall h', In h' l -> RecordedAt h <= RecordedAt h'
  | None => l = []
  end.
Proof.
  pose proof (order_by_sorted _ l (recorded_lt_strict_weak l)) as Hs.
  pose proof (order_by_In (fun a b => RecordedAt a <? RecordedAt b)) as Hin.
  pose proof (order_by_length (fun a b => RecordedAt a <? RecordedAt b) l) as Hlen.
  destruct (order_by _ l) as [| h rest] eqn:E; cbn [hd_error].
  - destruct l; [reflexivity | discriminate Hlen].
  - split; [apply Hin; rewrite E; left; reflexivity |].
    apply Sorted_StronglySorted in Hs.
    + inversion Hs as [| ? ? _ Hall]; subst.
      intros h' Hh'. apply Hin in Hh'. rewrite E in Hh'.
      destruct Hh' as [<- | Hh']; [lia |].
      rewrite List.Forall_forall in Hall. apply Hall in Hh'.
      apply Z.ltb_ge in Hh'. exact Hh'.
    + intros a b c Hab Hbc. rewrite Z.ltb_ge in *. lia.
Qed.

Lemma history_since_hd soundID cutoff rows :
  match hd_error (history_since soundID cutoff rows) with
  | Some h =>
    In h rows /\ SoundID h = soundID /\ cutoff <= RecordedAt h /\
    forall h', In h' rows -> SoundID h' = soundID -> cutoff <= RecordedAt h' ->
               RecordedAt h <= RecordedAt h'
  | None =>
    forall h', In h' rows -> SoundID h' = soundID -> RecordedAt h' < cutoff
  end.
Proof.
  unfold history_since.
  set (keep := fun h => (SoundID h =? soundID) && (cutoff <=? RecordedAt h)).
  pose proof (hd_order_by_recorded (List.filter keep rows)) as Hhd.
  assert (Hkeep : forall h, In h (List.filter keep rows) <->
            In h rows /\ SoundID h = soundID /\ cutoff <= RecordedAt h).
  { intros h. rewrite filter_In. subst keep. cbn.
    rewrite andb_true_iff, Z.eqb_eq, Z.leb_le. tauto. }
  destruct (hd_error _) as [h |].
  - destruct Hhd as [Hin Hmin]. apply Hkeep in Hin.
    destruct Hin as (Hin & Hid & Hcut). repeat split; auto.
    intros h' Hh' Hid' Hcut'. apply Hmin. apply Hkeep. auto.
  - intros h' Hh' Hid'.
    destruct (Z_lt_le_dec (RecordedAt h') cutoff) as [| Hge]; [assumption |].
    assert (Hf : In h' (List.filter keep rows)) by (apply Hkeep; auto).
    rewrite Hhd in Hf. destruct Hf.
Qed.

Lemma GetSoundHistoryByTime_ok soundID hoursAgo db :
  next_fault db = None ->
  GetSoundHistoryByTime soundID hoursAgo db
  = ((hd_error (history_since soundID (cutoffTime (clock db) hoursAgo)
                              (sound_history db)), None),
     after_stmt db).
Proof.
  intros Hf. unfold GetSoundHistoryByTime.
  rewrite begin_stmt_eq, Hf, sql_limit_1_hd.
  destruct (after_stmt_tables db) as (_ & -> & _). reflexivity.
Qed.

Lemma GetSoundHistoryByTime_fault soundID hoursAgo db e :
  next_fault db = Some e ->
  GetSoundHistoryByTime soundID hoursAgo db
  = ((None, Some (wrap_error "failed to get sound history" e)), after_stmt db).
Proof.
  intros Hf. unfold GetSoundHistoryByTime. rewrite begin_stmt_eq, Hf. reflexivity.
Qed.
End SQLiteFacts.

(** ** The SQLite store: loading baselines in bulk *)

Module SQLiteBulk.
Import SQLite SQLiteSpec SQLiteFacts.

Lemma stmt_passes db fs :
  faults db = None :: fs ->
  next_fault db = None /\ after_stmt db = with_faults db fs.
Proof.
  unfold next_fault, after_stmt, begin_stmt, with_faults. intros ->. split; reflexivity.
Qed.

Lemma stmt_fails db e fs :
  faults db = Some e :: fs ->
  next_fault db = Some e /\ after_stmt db = with_faults db fs.
Proof.
  unfold next_fault, after_stmt, begin_stmt, with_faults. intros ->. split; reflexivity.
Qed.

Lemma GetSoundsByCategory_ok category limit db :
  next_fault db = None -> cursors db = [] ->
  GetSoundsByCategory category limit db
  = ((sql_limit limit
        (order_by (fun a b => UpdatedAt b <? UpdatedAt a)
           (List.filter (fun r => String.eqb (Category r) category) (sounds db))),
      None), after_stmt db).
Proof.
  intros Hf Hc. rewrite GetSoundsByCategory_eq, Hf.
  unfold next_cursor, after_query, open_cursor. rewrite after_stmt_cursors, Hc.
  reflexivity.
Qed.

Lemma history_loop_error hoursAgo todo :
  forall historyMap db m e db',
    history_loop hoursAgo todo historyMap db = ((m, Some e), db') -> m = ∅.
Proof.
  induction todo as [| s rest IH]; intros historyMap db m e db'; cbn [history_loop].
  - intros E; discriminate E.
  - destruct (GetSoundHistoryByTime (ID s) hoursAgo db) as [[history [e1 |]] db1].
    + intros E; injection E as <- _ _. reflexivity.
    + apply IH.
Qed.

Lemma history_loop_no_faults hoursAgo todo :
  forall historyMap db,
    faults db = [] ->
    history_loop hoursAgo todo historyMap db
    = ((fold_left (record_baseline hoursAgo db) todo historyMap, None), db).
Proof.
  induction todo as [| s rest IH]; intros historyMap db Hf; cbn [history_loop fold_left].
  - reflexivity.
  - destruct (no_faults_stmt db Hf) as [Hn Ha].
    rewrite (GetSoundHistoryByTime_ok _ _ _ Hn), Ha.
    rewrite IH by exact Hf. reflexivity.
Qed.

Lemma record_baseline_lookup hoursAgo db todo :
  forall m id,
    fold_left (record_baseline hoursAgo db) todo m !! id
    = if decide (id ∈ map ID todo)
      then match baseline hoursAgo id db with
           | Some h => Some (Some h)
           | None => m !! id
           end
      else m !! id.
Proof.
  induction todo as [| s rest IH]; intros m id; cbn [fold_left map].
  - destruct (decide (id ∈ [])) as [Hin | _]; [| reflexivity].
    apply elem_of_nil in Hin. destruct Hin.
  - rewrite IH. unfold record_baseline.
    destruct (decide (id ∈ map ID rest)) as [Hin | Hnin].
    + destruct (decide (id ∈ ID s :: map ID rest)) as [_ | Hn];
        [| destruct Hn; apply elem_of_cons; right; exact Hin].
      destruct (baseline hoursAgo id db) as [h |] eqn:B; [reflexivity |].
      destruct (baseline hoursAgo (ID s) db) as [h' |] eqn:B'; [| reflexivity].
      destruct (decide (ID s = id)) as [E | NE].
      * rewrite E in B'. congruence.
      * apply lookup_insert_ne. exact NE.
    + destruct (decide (id ∈ ID s :: map ID rest)) as [Hc | Hn].
      * apply elem_of_cons in Hc. destruct Hc as [E | Hin]; [| contradiction].
        subst id. destruct (baseline hoursAgo (ID s) db) as [h |];
          [apply lookup_insert_eq | reflexivity].
      * destruct (baseline hoursAgo (ID s) db) as [h |]; [| reflexivity].
        apply lookup_insert_ne. intros E. apply Hn. apply elem_of_cons. left. auto.
Qed.

Lemma GetAllSoundsWithHistory_no_faults category hoursAgo db :
  faults db = [] -> cursors db = [] ->
  GetAllSoundsWithHistory category hoursAgo db
  = ((category_rows category db,
      fold_left (record_baseline hoursAgo db) (category_rows category db) ∅,
      None), db).
Proof.
  intros Hf Hc. unfold GetAllSoundsWithHistory.
  destruct (no_faults_stmt db Hf) as [Hn Ha].
  rewrite (GetSoundsByCategory_ok _ _ _ Hn Hc), Ha.
  fold (category_rows category db).
  rewrite (history_loop_no_faults _ _ _ _ Hf). reflexivity.
Qed.

Lemma GetAllSoundsWithHistory_error category hoursAgo db sounds m e db' :
  GetAllSoundsWithHistory category hoursAgo db = ((sounds, m, Some e), db') ->
  sounds = [] /\ m = ∅.
Proof.
  unfold GetAllSoundsWithHistory.
  destruct (GetSoundsByCategory category 1000 db) as [[rows [e1 |]] db1].
  - intros E; injection E as <- <- _ _. split; reflexivity.
  - destruct (history_loop hoursAgo rows ∅ db1) as [[m1 [e2 |]] db2].
    + intros E; injection E as <- <- _ _. split; reflexivity.
    + intros E; discriminate E.
Qed.

(** A failure of the fetch for the [k]-th sound still to visit stops the loop. *)
Lemma history_loop_fault hoursAgo e rest_faults :
  forall todo (k : nat) historyMap db,
    faults db = replicate k None ++ Some e :: rest_faults ->
    (k < length todo)%nat ->
    exists db',
      history_loop hoursAgo todo historyMap db
      = ((∅, Some (wrap_error "failed to get sound history" e)), db').
Proof.
  induction todo as [| s rest IH]; intros k historyMap db Hf Hk; cbn [length] in Hk;
    [lia |].
  cbn [history_loop]. destruct k as [| k]; cbn [replicate app] in Hf.
  - destruct (stmt_fails db e rest_faults Hf) as [Hn Ha].
    rewrite (GetSoundHistoryByTime_fault _ _ _ _ Hn). eauto.
  - destruct (stmt_passes db _ Hf) as [Hn Ha].
    rewrite (GetSoundHistoryByTime_ok _ _ _ Hn), Ha.
    apply IH with (k := k); [reflexivity | lia].
Qed.

Lemma category_rows_with_faults category db fs :
  category_rows category (with_faults db fs) = category_rows category db.
Proof. reflexivity. Qed.

(** A failure while fetching the baseline of one of the sounds that the
    category query returned aborts the whole call. *)
Lemma GetAllSoundsWithHistory_fault category hoursAgo db sounds db1 (j : nat) e rest_faults :
  GetSoundsByCategory category 1000 db = ((sounds, None), db1) ->
  faults db1 = replicate j None ++ Some e :: rest_faults ->
  (j < length sounds)%nat ->
  exists db',
    GetAllSoundsWithHistory category hoursAgo db
    = (([], ∅, Some (wrap_error "failed to get sound history" e)), db').
Proof.
  intros Hq Hf Hj. unfold GetAllSoundsWithHistory. rewrite Hq.
  destruct (history_loop_fault hoursAgo e rest_faults sounds j ∅ db1 Hf Hj) as [db' ->].
  eauto.
Qed.
End SQLiteBulk.

(** ** The SQLite store: what a successful read returns *)

Module SQLiteReads.
Import SQLite SQLiteSpec SQLiteFacts SQLiteBulk.

Lemma cutoffTime_wrapped now hoursAgo :
  2562048 <= hoursAgo <= 5124095 ->
  cutoffTime now hoursAgo = now + (2 ^ 64 - hoursAgo * Time.Hour).
Proof.
  intros Hh. unfold cutoffTime, Time.Add, Int64.mul, Int64.neg, Int64.wrap, Time.Hour.
  rewrite (Z.mod_small (- hoursAgo + 2 ^ 63)) by lia.
  replace (- hoursAgo + 2 ^ 63 - 2 ^ 63) with (- hoursAgo) by lia.
  replace (- hoursAgo * 3600000000000 + 2 ^ 63)
    with ((- hoursAgo * 3600000000000 + 2 ^ 63 + 2 ^ 64) + (-1) * 2 ^ 64) by lia.
  rewrite Z_mod_plus_full, Z.mod_small by lia. lia.
Qed.

Lemma baseline_after_stmt hoursAgo id db :
  baseline hoursAgo id (after_stmt db) = baseline hoursAgo id db.
Proof.
  unfold baseline. destruct (after_stmt_tables db) as (_ & -> & _ & _ & _ & ->).
  reflexivity.
Qed.

Lemma fold_record_baseline_after_stmt hoursAgo db todo :
  forall m,
    fold_left (record_baseline hoursAgo (after_stmt db)) todo m
    = fold_left (record_baseline hoursAgo db) todo m.
Proof.
  induction todo as [| s rest IH]; intros m; cbn [fold_left]; [reflexivity |].
  rewrite IH. unfold record_baseline. rewrite baseline_after_stmt. reflexivity.
Qed.

Lemma baseline_after_query hoursAgo id db :
  baseline hoursAgo id (after_query db) = baseline hoursAgo id db.
Proof.
  unfold baseline. destruct (after_query_tables db) as (_ & -> & -> & _).
  reflexivity.
Qed.

Lemma fold_record_baseline_after_query hoursAgo db todo :
  forall m,
    fold_left (record_baseline hoursAgo (after_query db)) todo m
    = fold_left (record_baseline hoursAgo db) todo m.
Proof.
  induction todo as [| s rest IH]; intros m; cbn [fold_left]; [reflexivity |].
  rewrite IH. unfold record_baseline. rewrite baseline_after_query. reflexivity.
Qed.

Lemma GetSoundHistoryByTime_cases soundID hoursAgo db :
  GetSoundHistoryByTime soundID hoursAgo db
  = ((baseline hoursAgo soundID db, None), after_stmt db) \/
  exists e, GetSoundHistoryByTime soundID hoursAgo db = ((None, Some e), after_stmt db).
Proof.
  destruct (next_fault db) as [e |] eqn:F.
  - right. rewrite (GetSoundHistoryByTime_fault _ _ _ _ F). eauto.
  - left. apply GetSoundHistoryByTime_ok. exact F.
Qed.

(** A loop that ends without error has recorded every baseline found. *)
Lemma history_loop_success hoursAgo todo :
  forall historyMap db m db',
    history_loop hoursAgo todo historyMap db = ((m, None), db') ->
    m = fold_left (record_baseline hoursAgo db) todo historyMap.
Proof.
  induction todo as [| s rest IH]; intros historyMap db m db'; cbn [history_loop fold_left].
  - intros E; injection E as <- _. reflexivity.
  - destruct (GetSoundHistoryByTime_cases (ID s) hoursAgo db) as [-> | [e ->]].
    + intros E. apply IH in E. rewrite fold_record_baseline_after_stmt in E. exact E.
    + intros E; discriminate E.
Qed.

(** A category query that returns a nil error returns a prefix of the
    selected rows: all of them unless [rows.Next()] failed on the way. *)
Lemma GetSoundsByCategory_success category limit db rows db' :
  GetSoundsByCategory category limit db = ((rows, None), db') ->
  db' = after_query db /\
  exists n : nat,
    rows = firstn n
             (sql_limit limit
                (order_by (fun a b => UpdatedAt b <? UpdatedAt a)
                   (List.filter (fun r => String.eqb (Category r) category) (sounds db)))).
Proof.
  rewrite GetSoundsByCategory_eq.
  destruct (next_fault db); intros E; [discriminate E |].
  destruct (rows_read_cases "failed to scan sound" (next_cursor (after_stmt db))
              (sql_limit limit
                 (order_by (fun a b => UpdatedAt b <? UpdatedAt a)
                    (List.filter (fun r => String.eqb (Category r) category) (sounds db)))))
    as [[n Hn] | [e He]].
  - rewrite Hn in E. injection E as <- <-. eauto.
  - rewrite He in E. discriminate E.
Qed.

Lemma GetAllSoundsWithHistory_success category hoursAgo db sounds m db' :
  GetAllSoundsWithHistory category hoursAgo db = ((sounds, m, None), db') ->
  (exists n : nat, sounds = firstn n (category_rows category db)) /\
  m = fold_left (record_baseline hoursAgo db) sounds ∅.
Proof.
  unfold GetAllSoundsWithHistory.
  destruct (GetSoundsByCategory category 1000 db) as [[rows [e1 |]] db1] eqn:E1;
    [intros E; discriminate E |].
  apply GetSoundsByCategory_success in E1. destruct E1 as [-> Hrows].
  destruct (history_loop hoursAgo rows ∅ (after_query db))
    as [[m1 [e2 |]] db2] eqn:E2; intros E; [discriminate E |].
  injection E as <- <- _.
  apply history_loop_success in E2. rewrite fold_record_baseline_after_query in E2.
  split; [exact Hrows | exact E2].
Qed.

Lemma firstn_lookup {A : Type} (n : nat) (l : list A) (i : nat) x :
  firstn n l !! i = Some x -> l !! i = Some x.
Proof. intros E. apply lookup_take_Some in E. tauto. Qed.

Lemma firstn_In {A : Type} (n : nat) (l : list A) x :
  In x (firstn n l) -> In x l.
Proof.
  rewrite <- !list_elem_of_In. intros Hx.
  apply list_elem_of_lookup in Hx. destruct Hx as [i Hi].
  apply firstn_lookup in Hi. eapply list_elem_of_lookup_2. exact Hi.
Qed.

Lemma sql_limit_lookup {A : Type} limit (l : list A) (i : nat) x :
  sql_limit limit l !! i = Some x -> l !! i = Some x.
Proof.
  unfold sql_limit. destruct (limit <? 0); [auto |].
  intros E. apply lookup_take_Some in E. tauto.
Qed.

Lemma sql_limit_In {A : Type} limit (l : list A) x :
  In x (sql_limit limit l) -> In x l.
Proof.
  rewrite <- !list_elem_of_In. intros Hx.
  apply list_elem_of_lookup in Hx. destruct Hx as [i Hi].
  apply sql_limit_lookup in Hi. eapply list_elem_of_lookup_2. exact Hi.
Qed.

Lemma category_rows_In category db s :
  In s (category_rows category db) -> In s (sounds db) /\ Category s = category.
Proof.
  unfold category_rows. intros Hs. apply sql_limit_In in Hs.
  apply (proj1 (order_by_In _ _ _)) in Hs. apply filter_In in Hs.
  destruct Hs as [Hin Hc]. apply String.eqb_eq in Hc. auto.
Qed.

Lemma updated_desc_strict_weak (l : list Sound) :
  strict_weak_on (fun a b => UpdatedAt b <? UpdatedAt a) l.
Proof.
  repeat split; intros.
  - apply Z.ltb_irrefl.
  - rewrite Z.ltb_lt in *. lia.
  - rewrite Z.ltb_ge in *. lia.
Qed.
End SQLiteReads.

(** ** The SQLite store: writes *)

Module SQLiteWrites.
Import SQLite SQLiteSpec SQLiteFacts.

Lemma GetSoundByURL_spec url db r err db1 :
  GetSoundByURL url db = ((r, err), db1) ->
  db1 = after_stmt db /\
  ((err = None /\ next_fault db = None /\ r = find_url url db) \/
   (exists e, err = Some (wrap_error "failed to get sound" e) /\
              next_fault db = Some e /\ r = None)).
Proof.
  unfold GetSoundByURL. rewrite begin_stmt_eq.
  destruct (after_stmt_tables db) as (Hs & _).
  destruct (next_fault db) as [e |]; intros E; injection E as <- <- <-.
  - split; [reflexivity |]. right. eauto.
  - split; [reflexivity |]. left. unfold find_url. rewrite Hs. auto.
Qed.

Lemma SaveSound_spec s db s' err db1 :
  SaveSound s db = ((s', err), db1) ->
  (exists e, err = Some e /\ db1 = after_stmt db /\ s' = s /\
             (next_fault db = None -> url_taken (URL s) db = true)) \/
  (err = None /\ next_fault db = None /\ url_taken (URL s) db = false /\
   s' = set_ID s (sounds_seq db + 1) /\
   db1 = with_sounds (after_stmt db) (sounds db ++ [s']) (sounds_seq db + 1)).
Proof.
  unfold SaveSound. rewrite begin_stmt_eq.
  destruct (after_stmt_tables db) as (Hs & _ & Hq & _).
  destruct (next_fault db) as [e |].
  - intros E; injection E as <- <- <-. left. exists (wrap_error "failed to save sound" e).
    repeat split. intros X; discriminate X.
  - unfold url_taken at 1. rewrite Hs. fold (url_taken (URL s) db).
    destruct (url_taken (URL s) db) eqn:T; intros E; injection E as <- <- <-.
    + left. eexists. repeat split.
    + right. rewrite ?Hs, ?Hq. repeat split.
Qed.

Lemma UpdateSound_spec s db err db1 :
  UpdateSound s db = (err, db1) ->
  (exists e, err = Some (wrap_error "failed to update sound" e) /\
             next_fault db = Some e /\ db1 = after_stmt db) \/
  (err = None /\ next_fault db = None /\
   db1 = with_sounds (after_stmt db) (map (update_row s) (sounds db)) (sounds_seq db)).
Proof.
  unfold UpdateSound. rewrite begin_stmt_eq.
  destruct (after_stmt_tables db) as (Hs & _ & Hq & _).
  destruct (next_fault db) as [e |]; intros E; injection E as <- <-.
  - left. eauto.
  - right. rewrite ?Hs, ?Hq. auto.
Qed.

Lemma SaveSoundHistory_spec soundID usesCount db err db1 :
  SaveSoundHistory soundID usesCount db = (err, db1) ->
  (exists e, err = Some e /\ db1 = after_stmt db /\
             (next_fault db = None ->
              foreign_keys db = true /\ id_exists soundID db = false)) \/
  (err = None /\ next_fault db = None /\
   db1 = with_history (after_stmt db)
           (sound_history db ++
              [mkSoundHistory (history_seq db + 1) soundID usesCount (clock db)])
           (history_seq db + 1)).
Proof.
  unfold SaveSoundHistory. rewrite begin_stmt_eq.
  destruct (after_stmt_tables db) as (Hs & Hh & _ & Hq & Hfk & Hc).
  destruct (next_fault db) as [e |].
  - intros E; injection E as <- <-. left.
    exists (wrap_error "failed to save sound history" e).
    split; [reflexivity |]. split; [reflexivity |]. intros X; discriminate X.
  - unfold id_exists at 1. rewrite Hs, Hfk. fold (id_exists soundID db).
    destruct (foreign_keys db); cbn [andb];
      [destruct (id_exists soundID db) eqn:X; cbn [negb] |];
      intros E; injection E as <- <-.
    + right. rewrite ?Hh, ?Hq, ?Hc. auto.
    + left. eexists. split; [reflexivity |]. split; [reflexivity |]. auto.
    + right. rewrite ?Hh, ?Hq, ?Hc. auto.
Qed.

Lemma url_taken_find url db :
  url_taken url db = false <-> find_url url db = None.
Proof.
  unfold url_taken, find_url. induction (sounds db) as [| r l IH]; cbn.
  - tauto.
  - destruct (String.eqb (URL r) url); cbn; [split; intros E; discriminate E | exact IH].
Qed.

Lemma url_taken_In url db :
  url_taken url db = false -> ~ In url (map URL (sounds db)).
Proof.
  unfold url_taken. intros Hn Hin. apply in_map_iff in Hin.
  destruct Hin as (r & Hr & Hin).
  assert (existsb (fun r => String.eqb (URL r) url) (sounds db) = true).
  { apply existsb_exists. exists r. split; [exact Hin |]. apply String.eqb_eq. exact Hr. }
  congruence.
Qed.

Lemma update_row_URL s r : URL (update_row s r) = URL r.
Proof. unfold update_row. destruct (ID r =? ID s); reflexivity. Qed.

Lemma update_row_ID s r : ID (update_row s r) = ID r.
Proof. unfold update_row. destruct (ID r =? ID s); reflexivity. Qed.

Lemma map_update_row_URL s l : map URL (map (update_row s) l) = map URL l.
Proof.
  rewrite map_map. apply map_ext. intros r. apply update_row_URL.
Qed.

Lemma find_map_update_row s url l :
  List.find (fun r => String.eqb (URL r) url) (map (update_row s) l)
  = option_map (update_row s) (List.find (fun r => String.eqb (URL r) url) l).
Proof.
  induction l as [| r l IH]; cbn; [reflexivity |].
  rewrite update_row_URL. destruct (String.eqb (URL r) url); [reflexivity | exact IH].
Qed.

Lemma existsb_ID_map_update_row s id l :
  existsb (fun r => ID r =? id) (map (update_row s) l)
  = existsb (fun r => ID r =? id) l.
Proof.
  induction l as [| r l IH]; cbn; [reflexivity |].
  rewrite update_row_ID, IH. reflexivity.
Qed.

Lemma find_app_fresh url l r :
  List.find (fun r => String.eqb (URL r) url) l = None ->
  URL r = url ->
  List.find (fun r => String.eqb (URL r) url) (l ++ [r]) = Some r.
Proof.
  intros Hn Hr. induction l as [| x l IH]; cbn in *.
  - rewrite Hr, String.eqb_refl. reflexivity.
  - destruct (String.eqb (URL x) url); [discriminate Hn | auto].
Qed.
End SQLiteWrites.

(** ** The SQLite store: recording observations *)

Module SQLiteObservation.
Import SQLiteSpec SQLiteFacts SQLiteWrites.

Lemma set_clock_tables now db :
  SQLite.sounds (SQLite.set_clock now db) = SQLite.sounds db /\
  SQLite.sound_history (SQLite.set_clock now db) = SQLite.sound_history db /\
  SQLite.sounds_seq (SQLite.set_clock now db) = SQLite.sounds_seq db /\
  SQLite.history_seq (SQLite.set_clock now db) = SQLite.history_seq db /\
  SQLite.foreign_keys (SQLite.set_clock now db) = SQLite.foreign_keys db /\
  SQLite.clock (SQLite.set_clock now db) = now /\
  SQLite.faults (SQLite.set_clock now db) = SQLite.faults db.
Proof. repeat split. Qed.

Lemma update_path_post now existing sound db0 db s' o db' :
  SQLite.sounds db = SQLite.sounds db0 -> SQLite.sound_history db = SQLite.sound_history db0 ->
  SQLite.history_seq db = SQLite.history_seq db0 -> SQLite.clock db = now ->
  find_url (URL sound) db = Some existing ->
  update_path now existing sound db = ((s', o), db') ->
  step_post now sound db0 o db'.
Proof.
  intros Hs Hh Hq Hc Hfind. unfold update_path.
  set (sound1 := set_UpdatedAt _ now).
  change (@UpdateSound SQLite.DB SQLite.storage) with SQLite.UpdateSound.
  change (@SaveSoundHistory SQLite.DB SQLite.storage) with SQLite.SaveSoundHistory.
  assert (Htaken : SQLite.url_taken (URL sound) db0 = true).
  { destruct (SQLite.url_taken (URL sound) db0) eqn:T; [reflexivity |].
    assert (T' : SQLite.url_taken (URL sound) db = false)
      by (unfold SQLite.url_taken in *; rewrite Hs; exact T).
    apply url_taken_find in T'. congruence. }
  destruct (SQLite.UpdateSound sound1 db) as [err1 db1] eqn:E1.
  apply UpdateSound_spec in E1.
  destruct (after_stmt_tables db) as (As & Ah & _ & Aq & _ & Ac).
  destruct E1 as [(e & -> & _ & ->) | (-> & _ & ->)].
  - intros E; injection E as <- <- <-.
    split; try congruence.
    unfold url_unique. rewrite As, Hs. auto.
  - set (db2 := SQLite.with_sounds (after_stmt db) _ _).
    destruct (SQLite.SaveSoundHistory (ID sound1) (UsesCount sound1) db2)
      as [err2 db3] eqn:E2.
    apply SaveSoundHistory_spec in E2.
    destruct (after_stmt_tables db2) as (Bs & Bh & _ & Bq & _ & Bc).
    assert (Hurls : map URL (SQLite.sounds db2) = map URL (SQLite.sounds db0)).
    { subst db2. cbn [SQLite.sounds SQLite.with_sounds].
      rewrite map_update_row_URL, Hs. reflexivity. }
    assert (Hh2 : SQLite.sound_history db2 = SQLite.sound_history db0).
    { subst db2. cbn. rewrite Ah. exact Hh. }
    assert (Hq2 : SQLite.history_seq db2 = SQLite.history_seq db0).
    { subst db2. cbn. rewrite Aq. exact Hq. }
    assert (Hc2 : SQLite.clock db2 = now).
    { subst db2. cbn. rewrite Ac. exact Hc. }
    intros E; injection E as <- <- <-.
    destruct E2 as [(e & -> & -> & _) | (-> & _ & ->)].
    + split; try congruence.
      unfold url_unique. rewrite Bs, Hurls. auto.
    + split; try congruence.
      * unfold url_unique. cbn [SQLite.sounds SQLite.with_history].
        rewrite Bs, Hurls. auto.
      * intros _. exists (SQLite.update_row sound1 existing).
        split; [| split].
        -- unfold find_url. cbn [SQLite.sounds SQLite.with_history]. rewrite Bs.
           subst db2. cbn [SQLite.sounds SQLite.with_sounds].
           rewrite find_map_update_row.
           fold (find_url (URL sound) db). rewrite Hfind. reflexivity.
        -- unfold SQLite.update_row. subst sound1. cbn.
           rewrite Z.eqb_refl. reflexivity.
        -- cbn [SQLite.sound_history SQLite.with_history].
           rewrite Hh2, Hq2, Hc2, update_row_ID. reflexivity.
      * intros _. cbn [SQLite.sounds SQLite.with_history]. rewrite Bs. exact Hurls.
      * intros _. cbn [SQLite.history_seq SQLite.with_history]. rewrite Hq2. reflexivity.
Qed.

Lemma NoDup_snoc {A : Type} (l : list A) (x : A) :
  NoDup l -> ~ In x l -> NoDup (l ++ [x]).
Proof.
  intros Hl Hx. apply NoDup_app. split; [exact Hl |]. split.
  - intros y Hy Hy'. apply list_elem_of_singleton in Hy'. subst y.
    apply Hx. apply list_elem_of_In. exact Hy.
  - apply NoDup_singleton.
Qed.

Lemma create_path_post now sound db0 db s' o db' :
  SQLite.sounds db = SQLite.sounds db0 ->
  SQLite.sound_history db = SQLite.sound_history db0 ->
  SQLite.history_seq db = SQLite.history_seq db0 -> SQLite.clock db = now ->
  create_path now sound db = ((s', o), db') ->
  step_post now sound db0 o db'.
Proof.
  intros Hs Hh Hq Hc. unfold create_path.
  set (sound1 := set_UpdatedAt _ now).
  change (@SaveSound SQLite.DB SQLite.storage) with SQLite.SaveSound.
  change (@GetSoundByURL SQLite.DB SQLite.storage) with SQLite.GetSoundByURL.
  change (@SaveSoundHistory SQLite.DB SQLite.storage) with SQLite.SaveSoundHistory.
  assert (Hurl1 : URL sound1 = URL sound) by reflexivity.
  assert (Huses1 : UsesCount sound1 = UsesCount sound) by reflexivity.
  assert (Htk : SQLite.url_taken (URL sound) db = SQLite.url_taken (URL sound) db0)
    by (unfold SQLite.url_taken; rewrite Hs; reflexivity).
  destruct (after_stmt_tables db) as (As & Ah & _ & Aq & _ & Ac).
  destruct (SQLite.SaveSound sound1 db) as [[s2 err1] db1] eqn:E1.
  apply SaveSound_spec in E1.
  destruct E1 as [(e & -> & -> & -> & _) | (-> & _ & Hfresh & Hs2 & ->)].
  - intros E; injection E as <- <- <-.
    split; try congruence.
    + unfold url_unique. rewrite As, Hs. auto.
    + intros _. left. congruence.
  - rewrite Hurl1 in Hfresh.
    set (db1 := SQLite.with_sounds (after_stmt db) _ _).
    assert (Hs1 : SQLite.sounds db1 = SQLite.sounds db0 ++ [s2])
      by (subst db1; cbn; rewrite Hs; reflexivity).
    assert (Hh1 : SQLite.sound_history db1 = SQLite.sound_history db0)
      by (subst db1; cbn; congruence).
    assert (Hq1 : SQLite.history_seq db1 = SQLite.history_seq db0)
      by (subst db1; cbn; congruence).
    assert (Hc1 : SQLite.clock db1 = now) by (subst db1; cbn; congruence).
    assert (Hurl2 : URL s2 = URL sound) by (rewrite Hs2; reflexivity).
    assert (Huses2 : UsesCount s2 = UsesCount sound) by (rewrite Hs2; reflexivity).
    clearbody db1.
    assert (Hnew : map URL (SQLite.sounds db0 ++ [s2])
                   = map URL (SQLite.sounds db0) ++ [URL sound])
      by (rewrite map_app, <- Hurl2; reflexivity).
    assert (Huniq : url_unique db0 -> NoDup (map URL (SQLite.sounds db0 ++ [s2]))).
    { intros Hu. rewrite Hnew. apply NoDup_snoc; [exact Hu |].
      rewrite Htk in Hfresh. apply url_taken_In. exact Hfresh. }
    assert (Hfind1 : find_url (URL sound) db1 = Some s2).
    { unfold find_url. rewrite Hs1. apply find_app_fresh; [| exact Hurl2].
      rewrite <- Hs. apply url_taken_find. exact Hfresh. }
    destruct (after_stmt_tables db1) as (Bs & Bh & _ & Bq & _ & Bc).
    destruct (SQLite.GetSoundByURL (URL s2) db1) as [[created err2] db2] eqn:E2.
    apply GetSoundByURL_spec in E2. rewrite Hurl2 in E2.
    destruct E2 as [-> [(-> & _ & ->) | (e & -> & _ & ->)]].
    + rewrite Hfind1.
      set (db2 := after_stmt db1) in *.
      destruct (after_stmt_tables db2) as (Cs & Ch & _ & Cq & _ & Cc).
      destruct (SQLite.SaveSoundHistory (ID (set_ID s2 (ID s2)))
                  (UsesCount (set_ID s2 (ID s2))) db2) as [err3 db3] eqn:E3.
      apply SaveSoundHistory_spec in E3.
      intros E; injection E as <- <- <-.
      destruct E3 as [(e & -> & -> & _) | (-> & _ & ->)].
      * split; try congruence.
        -- intros Hu. unfold url_unique. rewrite Cs, Bs, Hs1. auto.
        -- intros _. right. rewrite Cs, Bs, Hs1. exact Hnew.
      * split; try congruence.
        -- intros Hu. unfold url_unique. cbn [SQLite.sounds SQLite.with_history].
           rewrite Cs, Bs, Hs1. auto.
        -- intros _. exists s2. split; [| split].
           ++ unfold find_url. cbn [SQLite.sounds SQLite.with_history].
              rewrite Cs, Bs. exact Hfind1.
           ++ exact Huses2.
           ++ cbn [SQLite.sound_history SQLite.with_history].
              rewrite Bh, Bq, Bc, Hh1, Hq1, Hc1.
              cbn [set_ID ID UsesCount]. rewrite Huses2. reflexivity.
        -- intros _. right. cbn [SQLite.sounds SQLite.with_history].
           rewrite Cs, Bs, Hs1. exact Hnew.
        -- intros _. cbn [SQLite.history_seq SQLite.with_history].
           rewrite Bq, Hq1. reflexivity.
    + intros E; injection E as <- <- <-.
      split; try congruence.
      * intros Hu. unfold url_unique. rewrite Bs, Hs1. auto.
      * intros _. right. rewrite Bs, Hs1. exact Hnew.
Qed.

(** Every call, successful or not, ends in a state described by
    [step_post]. *)
Lemma RecordObservation_step now sound db s' o db' :
  SQLite.RecordObservation now sound db = ((s', o), db') ->
  step_post now sound db o db'.
Proof.
  unfold SQLite.RecordObservation, SaveSoundWithHistory.
  change (@GetSoundByURL SQLite.DB SQLite.storage) with SQLite.GetSoundByURL.
  set (db0 := SQLite.set_clock now db).
  destruct (set_clock_tables now db) as (Ks & Kh & _ & Kq & _ & Kc & _).
  fold db0 in Ks, Kh, Kq, Kc.
  destruct (after_stmt_tables db0) as (As & Ah & _ & Aq & _ & Ac).
  destruct (SQLite.GetSoundByURL (URL sound) db0) as [[existing err] db1] eqn:E0.
  apply GetSoundByURL_spec in E0.
  destruct E0 as [-> [(-> & _ & ->) | (e & -> & _ & ->)]].
  - destruct (find_url (URL sound) db0) as [ex |] eqn:F.
    + apply update_path_post; try congruence.
      unfold find_url in *. rewrite As. exact F.
    + apply create_path_post; congruence.
  - apply create_path_post; congruence.
Qed.

(** *** Runs without driver failures *)

Lemma begin_stmt_no_faults db :
  SQLite.faults db = [] -> SQLite.begin_stmt db = (None, db).
Proof. unfold SQLite.begin_stmt. intros ->. reflexivity. Qed.

Lemma id_exists_In r db :
  In r (SQLite.sounds db) -> SQLite.id_exists (ID r) db = true.
Proof.
  intros Hin. unfold SQLite.id_exists. apply existsb_exists.
  exists r. split; [exact Hin | apply Z.eqb_refl].
Qed.

Lemma RecordObservation_no_faults now sound db :
  SQLite.faults db = [] ->
  exists s' db',
    SQLite.RecordObservation now sound db = ((s', Returned None), db') /\
    SQLite.faults db' = [].
Proof.
  intros Hf. unfold SQLite.RecordObservation, SaveSoundWithHistory.
  change (@GetSoundByURL SQLite.DB SQLite.storage) with SQLite.GetSoundByURL.
  set (db0 := SQLite.set_clock now db).
  assert (Hf0 : SQLite.faults db0 = []) by exact Hf.
  unfold SQLite.GetSoundByURL at 1. rewrite (begin_stmt_no_faults db0 Hf0).
  fold (find_url (URL sound) db0).
  destruct (find_url (URL sound) db0) as [ex |] eqn:F.
  - unfold update_path.
    change (@UpdateSound SQLite.DB SQLite.storage) with SQLite.UpdateSound.
    change (@SaveSoundHistory SQLite.DB SQLite.storage) with SQLite.SaveSoundHistory.
    unfold SQLite.UpdateSound. rewrite (begin_stmt_no_faults db0 Hf0).
    set (sound1 := set_UpdatedAt _ now).
    set (db2 := SQLite.with_sounds db0 _ _).
    assert (Hf2 : SQLite.faults db2 = []) by exact Hf.
    unfold SQLite.SaveSoundHistory. rewrite (begin_stmt_no_faults db2 Hf2).
    assert (Hex : SQLite.id_exists (ID sound1) db2 = true).
    { unfold SQLite.id_exists. subst db2. cbn [SQLite.sounds SQLite.with_sounds].
      rewrite existsb_ID_map_update_row.
      apply (id_exists_In ex db0). unfold find_url in F.
      apply find_some in F. tauto. }
    rewrite Hex, andb_false_r. eexists _, _. split; [reflexivity | exact Hf].
  - unfold create_path.
    change (@SaveSound SQLite.DB SQLite.storage) with SQLite.SaveSound.
    change (@GetSoundByURL SQLite.DB SQLite.storage) with SQLite.GetSoundByURL.
    change (@SaveSoundHistory SQLite.DB SQLite.storage) with SQLite.SaveSoundHistory.
    set (sound1 := set_UpdatedAt _ now).
    unfold SQLite.SaveSound. rewrite (begin_stmt_no_faults db0 Hf0).
    assert (Hfresh : SQLite.url_taken (URL sound1) db0 = false)
      by (apply url_taken_find; exact F).
    rewrite Hfresh.
    set (s2 := set_ID sound1 _). set (db1 := SQLite.with_sounds db0 _ _).
    assert (Hf1 : SQLite.faults db1 = []) by exact Hf.
    unfold SQLite.GetSoundByURL. rewrite (begin_stmt_no_faults db1 Hf1).
    assert (Hfind : List.find (fun r => String.eqb (URL r) (URL s2)) (SQLite.sounds db1)
                    = Some s2).
    { subst db1. cbn [SQLite.sounds SQLite.with_sounds].
      apply find_app_fresh; [exact F | reflexivity]. }
    rewrite Hfind.
    unfold SQLite.SaveSoundHistory. rewrite (begin_stmt_no_faults db1 Hf1).
    assert (Hex : SQLite.id_exists (ID (set_ID s2 (ID s2))) db1 = true).
    { apply (id_exists_In s2 db1). subst db1. cbn [SQLite.sounds SQLite.with_sounds].
      apply in_or_app. right. left. reflexivity. }
    rewrite Hex, andb_false_r. eexists _, _. split; [reflexivity | exact Hf].
Qed.

(** *** Sequences of observations *)

Lemma RecordObservations_post obs :
  forall db os db',
    url_unique db ->
    SQLite.RecordObservations obs db = (os, db') ->
    url_unique db' /\
    length os = length obs /\
    ~ In Panicked os /\
    exists new,
      SQLite.sound_history db' = SQLite.sound_history db ++ new /\
      map hist_UsesCount new = map (fun ob => UsesCount (snd ob)) (recorded obs os) /\
      map RecordedAt new = map fst (recorded obs os).
Proof.
  induction obs as [| [now sound] rest IH]; intros db os db' Hu;
    cbn [SQLite.RecordObservations].
  - intros E; injection E as <- <-. repeat split; auto.
    exists []. rewrite app_nil_r. auto.
  - destruct (SQLite.RecordObservation now sound db) as [[s1 o] db1] eqn:E1.
    destruct (SQLite.RecordObservations rest db1) as [os1 db2] eqn:E2.
    intros E; injection E as <- <-.
    pose proof (RecordObservation_step _ _ _ _ _ _ E1) as P.
    destruct (IH _ _ _ (post_unique _ _ _ _ _ P Hu) E2)
      as (Hu2 & Hlen & Hnp & new & Hnew & Huses & Htimes).
    split; [exact Hu2 |]. split; [cbn; congruence |].
    split; [intros [Hp | Hp]; [exact (post_no_panic _ _ _ _ _ P Hp) | exact (Hnp Hp)] |].
    destruct o as [[e |] |].
    + exists new. cbn [recorded].
      rewrite Hnew, (post_failure _ _ _ _ _ P) by congruence. auto.
    + destruct (post_success _ _ _ _ _ P eq_refl) as (item & _ & _ & Hh).
      eexists (_ :: new). cbn [recorded map fst snd].
      rewrite Hnew, Hh, <- app_assoc. cbn [app].
      split; [reflexivity |]. cbn [map hist_UsesCount RecordedAt].
      rewrite Huses, Htimes. auto.
    + destruct (post_no_panic _ _ _ _ _ P eq_refl).
Qed.

Lemma RecordObservations_no_faults obs :
  forall db,
    SQLite.faults db = [] ->
    exists db',
      SQLite.RecordObservations obs db = (map (fun _ => Returned None) obs, db') /\
      SQLite.faults db' = [].
Proof.
  induction obs as [| [now sound] rest IH]; intros db Hf; cbn [SQLite.RecordObservations map].
  - eauto.
  - destruct (RecordObservation_no_faults now sound db Hf) as (s' & db1 & -> & Hf1).
    destruct (IH db1 Hf1) as (db2 & -> & Hf2). eauto.
Qed.

Lemma recorded_all obs :
  recorded obs (map (fun _ => Returned None) obs) = obs.
Proof. induction obs as [| ob rest IH]; cbn; congruence. Qed.

Lemma url_unique_count db url :
  url_unique db ->
  (length (List.filter (fun r => String.eqb (URL r) url) (SQLite.sounds db)) <= 1)%nat.
Proof.
  unfold url_unique. induction (SQLite.sounds db) as [| r l IH]; cbn [map List.filter length].
  - lia.
  - intros Hnd. apply NoDup_cons in Hnd. destruct Hnd as [Hr Hl].
    destruct (String.eqb_spec (URL r) url) as [E | NE]; [| auto].
    assert (Hnone : List.filter (fun r0 => String.eqb (URL r0) url) l = []).
    { destruct (List.filter _ l) as [| x t] eqn:F; [reflexivity | exfalso].
      assert (Hx : In x (List.filter (fun r0 => String.eqb (URL r0) url) l))
        by (rewrite F; left; reflexivity).
      apply filter_In in Hx. destruct Hx as [Hx Hux]. apply String.eqb_eq in Hux.
      apply Hr. rewrite E, <- Hux. apply list_elem_of_In, in_map. exact Hx. }
    rewrite Hnone. cbn. lia.
Qed.
End SQLiteObservation.

(** ** The SQLite store: creating a sound after a failed lookup *)

Module SQLiteCreate.
Import SQLiteSpec SQLiteFacts SQLiteWrites.

Lemma next_pass_S n db :
  next_pass (S n) db -> next_fault db = None /\ next_pass n (after_stmt db).
Proof.
  unfold next_pass, next_fault, after_stmt, SQLite.begin_stmt.
  destruct (SQLite.faults db) as [| f fs] eqn:Hfs; cbn [firstn fst snd SQLite.faults].
  - intros _. split; [reflexivity |]. rewrite Hfs, firstn_nil. constructor.
  - intros Hall. apply Forall_cons in Hall. destruct Hall as [-> Hall]. auto.
Qed.

Lemma next_fault_set_clock now db :
  next_fault (SQLite.set_clock now db) = next_fault db /\
  after_stmt (SQLite.set_clock now db) = SQLite.set_clock now (after_stmt db).
Proof.
  unfold next_fault, after_stmt, SQLite.begin_stmt, SQLite.set_clock.
  cbn [SQLite.faults]. destruct (SQLite.faults db) eqn:E; split; cbn; rewrite ?E; reflexivity.
Qed.

Lemma next_fault_with_sounds db rows seq :
  next_fault (SQLite.with_sounds db rows seq) = next_fault db /\
  after_stmt (SQLite.with_sounds db rows seq) = SQLite.with_sounds (after_stmt db) rows seq.
Proof.
  unfold next_fault, after_stmt, SQLite.begin_stmt, SQLite.with_sounds.
  cbn [SQLite.faults]. destruct (SQLite.faults db) eqn:E; split; cbn; rewrite ?E; reflexivity.
Qed.

Lemma RecordObservation_after_failed_lookup now sound db e :
  next_fault db = Some e ->
  next_pass 3 (after_stmt db) ->
  SQLite.url_taken (URL sound) db = false ->
  exists db',
    SQLite.RecordObservation now sound db
    = ((mkSound (SQLite.sounds_seq db + 1) (Title sound) (Author sound) (URL sound)
                (UsesCount sound) (Category sound) now now, Returned None), db') /\
    SQLite.sounds db'
    = SQLite.sounds db ++
      [mkSound (SQLite.sounds_seq db + 1) (Title sound) (Author sound) (URL sound)
               (UsesCount sound) (Category sound) now now] /\
    SQLite.sound_history db'
    = SQLite.sound_history db
      ++ [mkSoundHistory (SQLite.history_seq db + 1) (SQLite.sounds_seq db + 1)
                         (UsesCount sound) now].
Proof.
  intros Hf Hp Ht.
  destruct (next_pass_S _ _ Hp) as [H1 Hp1].
  destruct (next_pass_S _ _ Hp1) as [H2 Hp2].
  destruct (next_pass_S _ _ Hp2) as [H3 _].
  assert (Hfind : List.find (fun r => String.eqb (URL r) (URL sound)) (SQLite.sounds db)
                  = None) by (apply url_taken_find; exact Ht).
  destruct (after_stmt_tables db) as (As & Ah & Aq & Ahq & Afk & Ac).
  set (d1 := after_stmt db) in *.
  destruct (after_stmt_tables d1) as (Bs & Bh & Bq & Bhq & Bfk & Bc).
  set (d2 := after_stmt d1) in *.
  destruct (after_stmt_tables d2) as (Cs & Ch & Cq & Chq & Cfk & Cc).
  set (d3 := after_stmt d2) in *.
  destruct (after_stmt_tables d3) as (Ds & Dh & Dq & Dhq & Dfk & Dc).
  set (d4 := after_stmt d3) in *.
  unfold SQLite.RecordObservation, SaveSoundWithHistory.
  change (@GetSoundByURL SQLite.DB SQLite.storage) with SQLite.GetSoundByURL.
  unfold SQLite.GetSoundByURL at 1. rewrite begin_stmt_eq.
  destruct (next_fault_set_clock now db) as [-> ->]. rewrite Hf. fold d1.
  unfold create_path.
  change (@SaveSound SQLite.DB SQLite.storage) with SQLite.SaveSound.
  change (@GetSoundByURL SQLite.DB SQLite.storage) with SQLite.GetSoundByURL.
  change (@SaveSoundHistory SQLite.DB SQLite.storage) with SQLite.SaveSoundHistory.
  unfold SQLite.SaveSound. rewrite begin_stmt_eq.
  destruct (next_fault_set_clock now d1) as [-> ->]. rewrite H1. fold d2.
  unfold SQLite.url_taken in *.
  cbn [SQLite.sounds SQLite.set_clock SQLite.sounds_seq URL set_UpdatedAt set_CreatedAt].
  rewrite Bs, As, Ht, Bq, Aq.
  set (item := mkSound (SQLite.sounds_seq db + 1) (Title sound) (Author sound)
                       (URL sound) (UsesCount sound) (Category sound) now now).
  change (set_ID (set_UpdatedAt (set_CreatedAt sound now) now)
                 (SQLite.sounds_seq db + 1)) with item.
  unfold SQLite.GetSoundByURL. rewrite begin_stmt_eq.
  destruct (next_fault_with_sounds (SQLite.set_clock now d2)
              (SQLite.sounds db ++ [item]) (SQLite.sounds_seq db + 1)) as [-> ->].
  destruct (next_fault_set_clock now d2) as [-> ->]. rewrite H2. fold d3.
  cbn [SQLite.sounds SQLite.with_sounds].
  rewrite (find_app_fresh (URL item) (SQLite.sounds db) item Hfind eq_refl).
  change (set_ID item (ID item)) with item.
  unfold SQLite.SaveSoundHistory. rewrite begin_stmt_eq.
  destruct (next_fault_with_sounds (SQLite.set_clock now d3)
              (SQLite.sounds db ++ [item]) (SQLite.sounds_seq db + 1)) as [-> ->].
  destruct (next_fault_set_clock now d3) as [-> ->]. rewrite H3. fold d4.
  assert (Hex : SQLite.id_exists (ID item)
                  (SQLite.with_sounds (SQLite.set_clock now d4)
                     (SQLite.sounds db ++ [item]) (SQLite.sounds_seq db + 1)) = true).
  { unfold SQLite.id_exists. cbn [SQLite.sounds SQLite.with_sounds].
    rewrite existsb_app. cbn [existsb]. rewrite Z.eqb_refl, orb_true_r. reflexivity. }
  rewrite Hex, andb_false_r.
  eexists. split; [reflexivity |].
  cbn [SQLite.sounds SQLite.sound_history SQLite.with_history SQLite.with_sounds
       SQLite.set_clock SQLite.history_seq SQLite.clock ID UsesCount item].
  rewrite Dh, Ch, Bh, Ah, Dhq, Chq, Bhq, Ahq. split; reflexivity.
Qed.
End SQLiteCreate.

(* ================================================================== *)
(** * Part III: the specification's claims                              *)
(* ================================================================== *)

Section Claims.
Context {St : Type} `{Storage St} {sorter : SliceSorter}
        {sorter_laws : SliceSorterLaws sorter}.

(** C1. For an item whose baseline snapshot has a strictly positive
    usesCount [old], the growthPercent carried by its DetectTrending
    result equals [(current - old) / old * 100] evaluated in binary64,
    where [current] is the item's usesCount; the result also records
    [old] as its oldUsesCount.  Counts are non-negative 64-bit values. *)
Theorem C1_growth_percent_formula
        category limit criteria st sounds historyMap st' r history :
  GetAllSoundsWithHistory category (LookbackHours criteria) st
    = ((sounds, historyMap, None), st') ->
  In r (fst (fst (DetectTrendingWithCriteria category limit criteria st))) ->
  historyMap !! ID (ts_Sound r) = Some (Some history) ->
  0 < hist_UsesCount history <= Int64.max_int ->
  0 <= UsesCount (ts_Sound r) <= Int64.max_int ->
  GrowthPercent r
    = growth_formula (hist_UsesCount history) (UsesCount (ts_Sound r)) /\
  feq (GrowthPercent r)
      (growth_formula (hist_UsesCount history) (UsesCount (ts_Sound r))) = true /\
  OldUsesCount r = hist_UsesCount history.
Proof.
  intros Hload Hin Hbase Hold Hcur.
  rewrite (DetectTrendingWithCriteria_ok _ _ _ _ _ _ _ Hload) in Hin. cbn [fst] in Hin.
  apply In_rank in Hin. destruct Hin as (s & _ & E).
  apply examine_Some in E.
  destruct E as (Hs & _ & h & Hh & Hcase). rewrite <- Hs in Hh.
  rewrite Hbase in Hh. injection Hh as <-.
  destruct Hcase as [(H0 & _) | (_ & Hg & Ho & Hge)]; [lia |].
  rewrite <- Hs in Hg. rewrite calculateGrowth_formula in Hg by assumption.
  split; [exact Hg |]. split; [| exact Ho].
  rewrite <- Hg. apply feq_refl. apply fge_not_nan in Hge. tauto.
Qed.

(** C2. An item inside the usesCount band whose baseline snapshot has
    usesCount 0 is accepted with growthPercent 999.9 and oldUsesCount 0;
    it is in the result whenever truncation does not cut it; every result
    for such an item carries these two values; and 999.9 differs from
    every value the growth formula produces for a nonzero baseline. *)
Theorem C2_zero_baseline_sentinel
        category limit criteria st sounds historyMap st' s history :
  GetAllSoundsWithHistory category (LookbackHours criteria) st
    = ((sounds, historyMap, None), st') ->
  In s sounds ->
  historyMap !! ID s = Some (Some history) ->
  hist_UsesCount history = 0 ->
  MinUsesCount criteria <= UsesCount s <= MaxUsesCount criteria ->
  let accepted := scan criteria historyMap sounds [] in
  let results := fst (fst (DetectTrendingWithCriteria category limit criteria st)) in
  In (mkTrendingSound s c999_9 0) accepted /\
  (limit <= 0 \/ Z.of_nat (length accepted) <= limit ->
   In (mkTrendingSound s c999_9 0) results) /\
  (forall r, In r results -> ts_Sound r = s ->
             GrowthPercent r = c999_9 /\ OldUsesCount r = 0) /\
  (forall old current,
      feq (calculateGrowth old current) c999_9 = false /\
      feq (growth_formula old current) c999_9 = false).
Proof.
  intros Hload Hin Hbase H0 Hband accepted results.
  assert (Hex : examine criteria historyMap s = Some (mkTrendingSound s c999_9 0)).
  { unfold examine. rewrite Hbase, H0.
    destruct (Z.ltb_spec (UsesCount s) (MinUsesCount criteria)); [lia |].
    destruct (Z.ltb_spec (MaxUsesCount criteria) (UsesCount s)); [lia |].
    destruct (Z.leb_spec (MinUsesCount criteria) (UsesCount s)); [| lia].
    reflexivity. }
  assert (Hacc : In (mkTrendingSound s c999_9 0) accepted).
  { apply In_scan. exists s. auto. }
  subst results.
  rewrite (DetectTrendingWithCriteria_ok _ _ _ _ _ _ _ Hload). cbn [fst].
  split; [exact Hacc |]. split; [| split].
  - intros Hl. apply (Permutation_in _ (rank_untruncated _ _ _ _ Hl)). exact Hacc.
  - intros r Hr Hs. apply In_rank in Hr. destruct Hr as (s1 & _ & E).
    apply examine_Some in E. destruct E as (Hs1 & _ & h & Hh & Hcase).
    rewrite <- Hs1, Hs, Hbase in Hh. injection Hh as <-.
    destruct Hcase as [(_ & Hg & Ho) | (Hn & _)]; [auto | contradiction].
  - intros old current. split.
    + unfold calculateGrowth. destruct (old =? 0); [reflexivity |].
      apply growth_formula_ne_c999_9.
    + apply growth_formula_ne_c999_9.
Qed.

(** C6. No item returned by DetectTrending has a usesCount below
    minUsesCount or above maxUsesCount, and an item outside the band is
    rejected whatever its history is. *)
Theorem C6_uses_count_band category limit criteria st :
  (forall r,
      In r (fst (fst (DetectTrendingWithCriteria category limit criteria st))) ->
      MinUsesCount criteria <= UsesCount (ts_Sound r) <= MaxUsesCount criteria) /\
  (forall historyMap s,
      UsesCount s < MinUsesCount criteria \/ MaxUsesCount criteria < UsesCount s ->
      examine criteria historyMap s = None).
Proof.
  split.
  - intros r Hr.
    destruct (DetectTrendingWithCriteria_cases category limit criteria st)
      as [(sounds & hm & st' & _ & E) | (e & st' & E)]; rewrite E in Hr; cbn [fst] in Hr.
    + apply In_rank in Hr. destruct Hr as (s & _ & Ex).
      apply examine_Some in Ex. destruct Ex as (<- & Hband & _). exact Hband.
    + destruct Hr.
  - intros hm s Hout. unfold examine.
    destruct (Z.ltb_spec (UsesCount s) (MinUsesCount criteria)); [reflexivity |].
    destruct (Z.ltb_spec (MaxUsesCount criteria) (UsesCount s)); [reflexivity | lia].
Qed.

(** C7. The sequence returned by DetectTrending is sorted by
    growthPercent in descending order: for adjacent results [i] and
    [i+1], growth[i] >= growth[i+1]. *)
Theorem C7_sorted_descending category limit criteria st (i : nat) a b :
  fst (fst (DetectTrendingWithCriteria category limit criteria st)) !! i = Some a ->
  fst (fst (DetectTrendingWithCriteria category limit criteria st)) !! S i = Some b ->
  fge (GrowthPercent a) (GrowthPercent b) = true.
Proof.
  destruct (DetectTrendingWithCriteria_cases category limit criteria st)
    as [(sounds & hm & st' & _ & E) | (e & st' & E)]; rewrite E; cbn [fst].
  - apply rank_sorted.
  - intros Ha; discriminate Ha.
Qed.

(** C8. The result has at most [limit] entries when [limit > 0]; when
    [limit <= 0] nothing is cut: the result is a rearrangement of all the
    accepted items. *)
Theorem C8_limit category limit criteria st :
  (0 < limit ->
   Z.of_nat (length (fst (fst (DetectTrendingWithCriteria category limit criteria st))))
   <= limit) /\
  (limit <= 0 ->
   forall sounds historyMap st',
     GetAllSoundsWithHistory category (LookbackHours criteria) st
       = ((sounds, historyMap, None), st') ->
     Permutation (scan criteria historyMap sounds [])
                 (fst (fst (DetectTrendingWithCriteria category limit criteria st)))).
Proof.
  split.
  - intros Hl.
    destruct (DetectTrendingWithCriteria_cases category limit criteria st)
      as [(sounds & hm & st' & _ & E) | (e & st' & E)]; rewrite E; cbn [fst length].
    + apply truncate_length. exact Hl.
    + lia.
  - intros Hl sounds hm st' Hload.
    rewrite (DetectTrendingWithCriteria_ok _ _ _ _ _ _ _ Hload). cbn [fst].
    apply rank_untruncated. left. exact Hl.
Qed.

End Claims.

(** C10. [calculateGrowth] returns 0 without dividing when oldCount is 0;
    otherwise its divisor [float64(oldCount)] is not zero, so the
    instrumented run never reports a division by zero and agrees with the
    function on every input. *)
Theorem C10_calculateGrowth_division_guarded oldCount newCount :
  (oldCount = 0 -> calculateGrowth oldCount newCount = zero) /\
  (oldCount <> 0 -> is_zero (of_int64 oldCount) = false) /\
  calculateGrowth_checked oldCount newCount
  = Some (calculateGrowth oldCount newCount).
Proof.
  split; [intros ->; reflexivity |]. split; [apply of_int64_nonzero |].
  unfold calculateGrowth_checked, calculateGrowth, fdiv_checked.
  destruct (Z.eqb_spec oldCount 0) as [| Hne]; [reflexivity |].
  rewrite (of_int64_nonzero oldCount Hne). reflexivity.
Qed.

(** C3. After any sequence of [SaveSoundWithHistory] calls on a store that
    satisfies the UNIQUE constraint, at most one item exists per url; the
    history grows by exactly one snapshot per call that returned nil, each
    carrying the observed usesCount and the instant of the call; and when
    the driver never fails, every call returns nil, so every observation
    has its snapshot. *)
Theorem C3_one_item_per_url_one_snapshot_per_call obs db os db' :
  SQLiteSpec.url_unique db ->
  SQLite.RecordObservations obs db = (os, db') ->
  (forall url,
      (length (List.filter (fun r => String.eqb (URL r) url) (SQLite.sounds db')) <= 1)%nat) /\
  (exists new,
      SQLite.sound_history db' = SQLite.sound_history db ++ new /\
      map hist_UsesCount new
      = map (fun ob => UsesCount (snd ob)) (SQLiteSpec.recorded obs os) /\
      map RecordedAt new = map fst (SQLiteSpec.recorded obs os)) /\
  (SQLite.faults db = [] ->
   os = map (fun _ => Returned None) obs /\
   SQLiteSpec.recorded obs os = obs).
Proof.
  intros Hu Hrun.
  destruct (SQLiteObservation.RecordObservations_post obs db os db' Hu Hrun)
    as (Hu' & _ & _ & Hnew).
  split; [intros url; apply SQLiteObservation.url_unique_count; exact Hu' |].
  split; [exact Hnew |].
  intros Hf.
  destruct (SQLiteObservation.RecordObservations_no_faults obs db Hf) as (db2 & E & _).
  rewrite E in Hrun. injection Hrun as <- _.
  split; [reflexivity | apply SQLiteObservation.recorded_all].
Qed.

(** C4. When its query does not fail, [GetSoundHistoryByTime] returns no
    error and, for a lookback of at most 2562047 hours either way, the
    snapshot of the sound with the smallest recordedAt among those recorded
    at or after now minus hoursAgo hours; when there is no such snapshot it
    returns nil with a nil error. *)
Theorem C4_earliest_snapshot_since soundID hoursAgo db :
  SQLiteSpec.next_fault db = None ->
  -2562047 <= hoursAgo <= 2562047 ->
  let cutoff := SQLite.clock db - hoursAgo * Time.Hour in
  exists result,
    fst (SQLite.GetSoundHistoryByTime soundID hoursAgo db) = (result, None) /\
    match result with
    | Some h =>
      In h (SQLite.sound_history db) /\ SoundID h = soundID /\
      cutoff <= RecordedAt h /\
      forall h', In h' (SQLite.sound_history db) -> SoundID h' = soundID ->
                 cutoff <= RecordedAt h' -> RecordedAt h <= RecordedAt h'
    | None =>
      forall h', In h' (SQLite.sound_history db) -> SoundID h' = soundID ->
                 RecordedAt h' < cutoff
    end.
Proof.
  intros Hf Hh cutoff.
  rewrite (SQLiteFacts.GetSoundHistoryByTime_ok _ _ _ Hf). cbn [fst].
  rewrite (SQLiteFacts.cutoffTime_exact _ _ Hh). fold cutoff.
  eexists. split; [reflexivity |].
  apply SQLiteFacts.history_since_hd.
Qed.

(** C5. [GetAllSoundsWithHistory] tells absence from failure.  Whenever it
    returns a nil error, its map holds the baseline of each returned sound
    that has one and no entry for a returned sound that has none; and
    without driver failures it does return a nil error, with all the
    sounds of the category.  Whenever it returns an error, the sound list
    and the map are nil.  And when the fetch of the baseline of any one of
    the sounds that the category query returned fails, the call returns
    that error. *)
Theorem C5_bulk_load_absence_vs_failure category hoursAgo db :
  (forall sounds historyMap db',
     SQLite.GetAllSoundsWithHistory category hoursAgo db
     = ((sounds, historyMap, None), db') ->
     forall s, In s sounds ->
       historyMap !! ID s = Some <$> SQLiteSpec.baseline hoursAgo (ID s) db) /\
  (SQLite.faults db = [] -> SQLite.cursors db = [] ->
   exists historyMap,
     SQLite.GetAllSoundsWithHistory category hoursAgo db
     = ((SQLiteSpec.category_rows category db, historyMap, None), db)) /\
  (forall sounds historyMap e db',
     SQLite.GetAllSoundsWithHistory category hoursAgo db
     = ((sounds, historyMap, Some e), db') ->
     sounds = [] /\ historyMap = ∅) /\
  (forall sounds db1 (j : nat) e rest,
     SQLite.GetSoundsByCategory category 1000 db = ((sounds, None), db1) ->
     SQLite.faults db1 = replicate j None ++ Some e :: rest ->
     (j < length sounds)%nat ->
     exists db',
       SQLite.GetAllSoundsWithHistory category hoursAgo db
       = (([], ∅, Some (wrap_error "failed to get sound history" e)), db')).
Proof.
  split; [| split; [| split]].
  - intros sounds hm db' Hload s Hs.
    apply SQLiteReads.GetAllSoundsWithHistory_success in Hload.
    destruct Hload as [_ ->]. rewrite SQLiteBulk.record_baseline_lookup.
    destruct (decide (ID s ∈ map ID sounds)) as [_ | Hn].
    + destruct (SQLiteSpec.baseline hoursAgo (ID s) db); reflexivity.
    + destruct Hn. apply list_elem_of_In, in_map. exact Hs.
  - intros Hf Hc. eexists.
    apply SQLiteBulk.GetAllSoundsWithHistory_no_faults; assumption.
  - intros sounds hm e db'. apply SQLiteBulk.GetAllSoundsWithHistory_error.
  - intros sounds db1 j e rest. apply SQLiteBulk.GetAllSoundsWithHistory_fault.
Qed.

(** C9. When the initial lookup of [SaveSoundWithHistory] returns an error,
    that error is dropped and the sound is created as if its url were
    unknown.  For every store: [SaveSound] is called on the observed sound,
    stamped with the time of the call, in the state the lookup left; if it
    fails the caller gets its error; otherwise the sound is read back, and
    the caller gets the error of that read or else the result of
    [SaveSoundHistory].  On the SQLite store, when the lookup fails, the
    three statements after it do not, and the url is not stored yet, the
    call returns nil and has inserted a new item with the observed data
    and one snapshot of it. *)
Theorem C9_lookup_error_takes_create_path :
  (forall (St : Type) (HS : Storage St) now sound st existing e st1,
     GetSoundByURL (URL sound) st = ((existing, Some e), st1) ->
     let '((saved, err), st2) :=
       SaveSound (set_UpdatedAt (set_CreatedAt sound now) now) st1 in
     match err with
     | Some e1 =>
       SaveSoundWithHistory now sound st = ((saved, Returned (Some e1)), st2)
     | None =>
       let '((created, err), st3) := GetSoundByURL (URL saved) st2 in
       match err, created with
       | Some e2, _ =>
         SaveSoundWithHistory now sound st = ((saved, Returned (Some e2)), st3)
       | None, None =>
         SaveSoundWithHistory now sound st = ((saved, Panicked), st3)
       | None, Some c =>
         let '(err, st4) := SaveSoundHistory (ID c) (UsesCount saved) st3 in
         SaveSoundWithHistory now sound st
         = ((set_ID saved (ID c), Returned err), st4)
       end
     end) /\
  (forall now sound db e,
     SQLiteSpec.next_fault db = Some e ->
     SQLiteSpec.next_pass 3 (SQLiteSpec.after_stmt db) ->
     SQLite.url_taken (URL sound) db = false ->
     let item :=
       mkSound (SQLite.sounds_seq db + 1) (Title sound) (Author sound) (URL sound)
               (UsesCount sound) (Category sound) now now in
     exists db',
       SQLite.RecordObservation now sound db = ((item, Returned None), db') /\
       SQLite.sounds db' = SQLite.sounds db ++ [item] /\
       SQLite.sound_history db'
       = SQLite.sound_history db
         ++ [mkSoundHistory (SQLite.history_seq db + 1) (SQLite.sounds_seq db + 1)
                            (UsesCount sound) now]).
Proof.
  split.
  - intros St HS now sound st existing e st1 Hget.
    assert (Hrun : SaveSoundWithHistory now sound st = create_path now sound st1)
      by (unfold SaveSoundWithHistory; rewrite Hget; destruct existing; reflexivity).
    rewrite Hrun. unfold create_path.
    destruct (SaveSound _ st1) as [[saved [e1 |]] st2]; [reflexivity |].
    destruct (GetSoundByURL (URL saved) st2) as [[[c |] [e2 |]] st3];
      try reflexivity.
    cbn [ID UsesCount set_ID].
    destruct (SaveSoundHistory (ID c) (UsesCount saved) st3) as [err st4].
    reflexivity.
  - intros now sound db e Hf Hp Ht item.
    exact (SQLiteCreate.RecordObservation_after_failed_lookup now sound db e Hf Hp Ht).
Qed.

(** ** The claims at concrete inputs *)

Lemma demo_load_ok :
  GetAllSoundsWithHistory "tech" (LookbackHours DefaultCriteria) demo_db
  = ((fst (fst (fst demo_load)), snd (fst (fst demo_load)), None), snd demo_load).
Proof. vm_compute. reflexivity. Defined.

Lemma C1_witness :
  GrowthPercent demo_u1
    = growth_formula (hist_UsesCount demo_h1) (UsesCount (ts_Sound demo_u1)) /\
  feq (GrowthPercent demo_u1)
      (growth_formula (hist_UsesCount demo_h1) (UsesCount (ts_Sound demo_u1))) = true /\
  OldUsesCount demo_u1 = hist_UsesCount demo_h1.
Proof.
  apply (C1_growth_percent_formula
           (sorter := insertion_sorter) (sorter_laws := insertion_sorter_laws)
           "tech" 10 DefaultCriteria demo_db
           (fst (fst (fst demo_load))) (snd (fst (fst demo_load))) (snd demo_load)
           demo_u1 demo_h1).
  - exact demo_load_ok.
  - vm_compute. right. right. left. reflexivity.
  - vm_compute. reflexivity.
  - vm_compute. split; [reflexivity | discriminate].
  - vm_compute. split; discriminate.
Defined.

Lemma C2_witness : In demo_r2 (demo_detect 10).
Proof.
  assert (Hin : In demo_u2 (fst (fst (fst demo_load))))
    by (vm_compute; right; right; left; reflexivity).
  assert (Hbase : snd (fst (fst demo_load)) !! ID demo_u2 = Some (Some demo_h2))
    by (vm_compute; reflexivity).
  assert (Hband : MinUsesCount DefaultCriteria <= UsesCount demo_u2
                  <= MaxUsesCount DefaultCriteria)
    by (vm_compute; split; discriminate).
  destruct (C2_zero_baseline_sentinel
              (sorter := insertion_sorter) (sorter_laws := insertion_sorter_laws)
              "tech" 10 DefaultCriteria demo_db
              (fst (fst (fst demo_load))) (snd (fst (fst demo_load))) (snd demo_load)
              demo_u2 demo_h2 demo_load_ok Hin Hbase eq_refl Hband)
    as (_ & Hres & _).
  apply Hres. right. vm_compute. discriminate.
Defined.

Lemma C6_witness :
  MinUsesCount DefaultCriteria <= UsesCount (ts_Sound demo_u1)
  <= MaxUsesCount DefaultCriteria.
Proof.
  apply (proj1 (C6_uses_count_band
                  (sorter := insertion_sorter) (sorter_laws := insertion_sorter_laws)
                  "tech" 10 DefaultCriteria demo_db)).
  vm_compute. right. right. left. reflexivity.
Defined.

Lemma C7_witness : fge (GrowthPercent demo_r3) (GrowthPercent demo_r2) = true.
Proof.
  apply (C7_sorted_descending
           (sorter := insertion_sorter) (sorter_laws := insertion_sorter_laws)
           "tech" 10 DefaultCriteria demo_db 0%nat demo_r3 demo_r2).
  - vm_compute. reflexivity.
  - vm_compute. reflexivity.
Defined.

Lemma C8_witness : Z.of_nat (length (demo_detect 2)) <= 2.
Proof.
  apply (proj1 (C8_limit
                  (sorter := insertion_sorter) (sorter_laws := insertion_sorter_laws)
                  "tech" 2 DefaultCriteria demo_db)).
  lia.
Defined.

Lemma C9_witness :
  exists db',
    SQLite.RecordObservation 5 (demo_sound "u1" 1000) demo_failing_db
    = ((mkSound 1 "T" "A" "u1" 1000 "tech" 5 5, Returned None), db').
Proof.
  destruct (proj2 C9_lookup_error_takes_create_path
              5 (demo_sound "u1" 1000) demo_failing_db "io"%string)
    as (db' & E & _).
  - reflexivity.
  - apply Forall_nil_2.
  - reflexivity.
  - exists db'. exact E.
Defined.

Lemma C10_witness :
  calculateGrowth_checked 1000 2600 = Some (calculateGrowth 1000 2600).
Proof.
  exact (proj2 (proj2 (C10_calculateGrowth_division_guarded 1000 2600))).
Defined.

Lemma C3_witness :
  (length (List.filter (fun r => String.eqb (URL r) "u1")
             (SQLite.sounds
                (snd (SQLite.RecordObservations demo_observations
                        (SQLite.empty true 0%Z []))))) <= 1)%nat.
Proof.
  assert (Hu : SQLiteSpec.url_unique (SQLite.empty true 0 [])) by apply NoDup_nil_2.
  exact (proj1 (C3_one_item_per_url_one_snapshot_per_call
                  demo_observations (SQLite.empty true 0 []) _ _ Hu
                  (surjective_pairing
                     (SQLite.RecordObservations demo_observations
                        (SQLite.empty true 0 [])))) "u1"%string).
Defined.

Lemma C4_witness :
  exists result, fst (SQLite.GetSoundHistoryByTime 1 24 demo_db) = (result, None).
Proof.
  assert (Hf : SQLiteSpec.next_fault demo_db = None) by (vm_compute; reflexivity).
  assert (Hh : -2562047 <= 24 <= 2562047) by lia.
  destruct (C4_earliest_snapshot_since 1 24 demo_db Hf Hh) as (result & E & _).
  exists result. exact E.
Defined.

Lemma C5_witness :
  exists historyMap,
    SQLite.GetAllSoundsWithHistory "tech" 24 demo_db
    = ((SQLiteSpec.category_rows "tech" demo_db, historyMap, None), demo_db).
Proof.
  assert (Hf : SQLite.faults demo_db = []) by (vm_compute; reflexivity).
  assert (Hc : SQLite.cursors demo_db = []) by (vm_compute; reflexivity).
  destruct (proj1 (proj2 (C5_bulk_load_absence_vs_failure "tech" 24 demo_db)) Hf Hc)
    as (historyMap & E).
  exists historyMap. exact E.
Defined.


(* ================================================================== *)
(** * Part IV: further properties of the code                           *)
(* ================================================================== *)

(** ** The detector *)

(** The loop body accepts a sound exactly when it is inside the band, has a
    non-nil baseline, and either the baseline count is zero or the growth
    reaches the threshold. *)
Lemma examine_accepts criteria historyMap s :
  is_Some (examine criteria historyMap s) <->
  MinUsesCount criteria <= UsesCount s <= MaxUsesCount criteria /\
  exists history,
    historyMap !! ID s = Some (Some history) /\
    (hist_UsesCount history = 0 \/
     fge (calculateGrowth (hist_UsesCount history) (UsesCount s))
         (MinGrowth criteria) = true).
Proof.
  split.
  - intros [t E]. apply examine_Some in E.
    destruct E as (_ & Hband & h & Hh & Hcase). split; [exact Hband |].
    exists h. split; [exact Hh |].
    destruct Hcase as [(H0 & _) | (_ & Hg & _ & Hge)]; [left; exact H0 |].
    right. rewrite <- Hg. exact Hge.
  - intros (Hband & h & Hh & Hcase). unfold examine. rewrite Hh.
    destruct (Z.ltb_spec (UsesCount s) (MinUsesCount criteria)); [lia |].
    destruct (Z.ltb_spec (MaxUsesCount criteria) (UsesCount s)); [lia |].
    cbn [orb].
    destruct (Z.eqb_spec (hist_UsesCount h) 0) as [Hz0 | Hz0].
    + destruct (Z.leb_spec (MinUsesCount criteria) (UsesCount s)); [eauto | lia].
    + destruct Hcase as [Hz | Hge]; [contradiction |]. rewrite Hge. eauto.
Qed.

Lemma omap_length_le {A B : Type} (f : A -> option B) (l : list A) :
  (length (omap f l) <= length l)%nat.
Proof.
  induction l as [| x l IH]; cbn; [lia |].
  destruct (f x); cbn; lia.
Qed.

Section DetectorExtras.
Context {St : Type} `{Storage St} {sorter : SliceSorter}
        {sorter_laws : SliceSorterLaws sorter}.

Lemma rank_entry limit criteria sounds historyMap r :
  In r (rank limit criteria sounds historyMap) ->
  In (ts_Sound r) sounds /\
  MinUsesCount criteria <= UsesCount (ts_Sound r) <= MaxUsesCount criteria /\
  exists history,
    historyMap !! ID (ts_Sound r) = Some (Some history) /\
    (hist_UsesCount history <> 0 ->
     OldUsesCount r = hist_UsesCount history /\
     GrowthPercent r = calculateGrowth (hist_UsesCount history) (UsesCount (ts_Sound r)) /\
     fge (GrowthPercent r) (MinGrowth criteria) = true).
Proof.
  intros Hin. apply In_rank in Hin. destruct Hin as (s & Hs & E).
  apply examine_Some in E. destruct E as (<- & Hband & h & Hh & Hcase).
  split; [exact Hs |]. split; [exact Hband |]. exists h. split; [exact Hh |].
  intros Hne. destruct Hcase as [(Hz & _) | (_ & Hg & Ho & Hge)]; [contradiction | auto].
Qed.

(** X1. Every sound DetectTrendingWithCriteria returns is one of the loaded
    sounds and has a non-nil baseline in the history map; when that
    baseline count is not zero, the result records it as oldUsesCount and
    its growthPercent reaches minGrowth. *)
Theorem X1_results_have_baseline_and_growth
        category limit criteria st sounds historyMap st' r :
  GetAllSoundsWithHistory category (LookbackHours criteria) st
    = ((sounds, historyMap, None), st') ->
  In r (fst (fst (DetectTrendingWithCriteria category limit criteria st))) ->
  In (ts_Sound r) sounds /\
  exists history,
    historyMap !! ID (ts_Sound r) = Some (Some history) /\
    (hist_UsesCount history <> 0 ->
     OldUsesCount r = hist_UsesCount history /\
     fge (GrowthPercent r) (MinGrowth criteria) = true).
Proof.
  intros Hload Hin.
  rewrite (DetectTrendingWithCriteria_ok _ _ _ _ _ _ _ Hload) in Hin. cbn [fst] in Hin.
  destruct (rank_entry _ _ _ _ _ Hin) as (Hs & _ & h & Hh & Hcase).
  split; [exact Hs |]. exists h. split; [exact Hh |].
  intros Hne. destruct (Hcase Hne) as (Ho & _ & Hge). auto.
Qed.

(** X2. Completeness when nothing is cut: a loaded sound inside the band
    whose baseline count is nonzero and whose growth reaches minGrowth is
    returned, with that growth and baseline. *)
Theorem X2_qualifying_sound_is_returned
        category limit criteria st sounds historyMap st' s history :
  GetAllSoundsWithHistory category (LookbackHours criteria) st
    = ((sounds, historyMap, None), st') ->
  In s sounds ->
  MinUsesCount criteria <= UsesCount s <= MaxUsesCount criteria ->
  historyMap !! ID s = Some (Some history) ->
  hist_UsesCount history <> 0 ->
  fge (calculateGrowth (hist_UsesCount history) (UsesCount s)) (MinGrowth criteria) = true ->
  limit <= 0 \/ Z.of_nat (length sounds) <= limit ->
  In (mkTrendingSound s (calculateGrowth (hist_UsesCount history) (UsesCount s))
                      (hist_UsesCount history))
     (fst (fst (DetectTrendingWithCriteria category limit criteria st))).
Proof.
  intros Hload Hs Hband Hh Hne Hge Hl.
  rewrite (DetectTrendingWithCriteria_ok _ _ _ _ _ _ _ Hload). cbn [fst].
  assert (Hlen : (length (scan criteria historyMap sounds []) <= length sounds)%nat).
  { rewrite scan_omap, app_nil_l. apply omap_length_le. }
  apply (Permutation_in _ (rank_untruncated limit criteria sounds historyMap
                             ltac:(destruct Hl; [left; assumption | right; lia]))).
  apply In_scan. exists s. split; [exact Hs |].
  unfold examine. rewrite Hh.
  destruct (Z.ltb_spec (UsesCount s) (MinUsesCount criteria)); [lia |].
  destruct (Z.ltb_spec (MaxUsesCount criteria) (UsesCount s)); [lia |].
  cbn [orb]. destruct (Z.eqb_spec (hist_UsesCount history) 0); [contradiction |].
  rewrite Hge. reflexivity.
Qed.

(** X3. Under the default criteria every returned sound, whatever its
    baseline, has between 500 and 30000 uses; and when its baseline is a
    positive 64-bit count, its growthPercent is the binary64 value of
    (current - old) / old * 100 and is at least 150: within the band the
    subtraction cannot wrap. *)
Theorem X3_default_criteria category limit st r :
  In r (fst (fst (DetectTrending category limit st))) ->
  500 <= UsesCount (ts_Sound r) <= 30000 /\
  (forall sounds historyMap st' history,
      GetAllSoundsWithHistory category 24 st = ((sounds, historyMap, None), st') ->
      historyMap !! ID (ts_Sound r) = Some (Some history) ->
      0 < hist_UsesCount history <= Int64.max_int ->
      GrowthPercent r
      = growth_formula (hist_UsesCount history) (UsesCount (ts_Sound r)) /\
      fge (GrowthPercent r) c150 = true).
Proof.
  intros Hin. unfold DetectTrending in Hin.
  assert (Hband : 500 <= UsesCount (ts_Sound r) <= 30000).
  { destruct (DetectTrendingWithCriteria_cases category limit DefaultCriteria st)
      as [(sounds & hm & st' & _ & E) | (e & st' & E)]; rewrite E in Hin;
      cbn [fst] in Hin; [| destruct Hin].
    destruct (rank_entry _ _ _ _ _ Hin) as (_ & Hband & _). exact Hband. }
  split; [exact Hband |].
  intros sounds historyMap st' history Hload Hbase Hold.
  change 24 with (LookbackHours DefaultCriteria) in Hload.
  rewrite (DetectTrendingWithCriteria_ok _ _ _ _ _ _ _ Hload) in Hin. cbn [fst] in Hin.
  destruct (rank_entry _ _ _ _ _ Hin) as (_ & _ & h & Hh & Hcase).
  rewrite Hbase in Hh. injection Hh as <-.
  destruct (Hcase ltac:(lia)) as (_ & Hg & Hge).
  split; [| exact Hge].
  rewrite Hg. apply calculateGrowth_formula; [exact Hold |].
  unfold Int64.max_int. lia.
Qed.
End DetectorExtras.

(** ** Recording observations in the SQLite store *)

(** X4. Round trip: after a call of SaveSoundWithHistory that returned nil,
    a lookup by the same url finds an item with that url and the observed
    usesCount, and the last history record belongs to that item and holds
    the observed usesCount and the instant of the call. *)
Theorem X4_recorded_sound_is_found now sound db s' db' :
  SQLite.RecordObservation now sound db = ((s', Returned None), db') ->
  SQLiteSpec.next_fault db' = None ->
  exists item,
    fst (SQLite.GetSoundByURL (URL sound) db') = (Some item, None) /\
    URL item = URL sound /\
    UsesCount item = UsesCount sound /\
    last (SQLite.sound_history db')
    = Some (mkSoundHistory (SQLite.history_seq db + 1) (ID item) (UsesCount sound) now).
Proof.
  intros Hrun Hf.
  pose proof (SQLiteObservation.RecordObservation_step _ _ _ _ _ _ Hrun) as P.
  destruct (SQLiteSpec.post_success _ _ _ _ _ P eq_refl) as (item & Hfind & Huses & Hh).
  exists item. split; [| split; [| split]].
  - unfold SQLite.GetSoundByURL. rewrite SQLiteFacts.begin_stmt_eq, Hf. cbn [fst].
    destruct (SQLiteFacts.after_stmt_tables db') as (-> & _).
    unfold SQLiteSpec.find_url in Hfind. rewrite Hfind. reflexivity.
  - unfold SQLiteSpec.find_url in Hfind. apply find_some in Hfind.
    apply String.eqb_eq. tauto.
  - exact Huses.
  - rewrite Hh. apply last_snoc.
Qed.

(** X5. Whatever the driver does, a call of SaveSoundWithHistory on the
    SQLite store never panics, appends no history record when it returns
    an error, and never removes or renames an item: the urls stored
    afterwards are the urls stored before, followed by at most the
    observed url. *)
Theorem X5_failed_call_is_harmless now sound db :
  let o := snd (fst (SQLite.RecordObservation now sound db)) in
  let db' := snd (SQLite.RecordObservation now sound db) in
  o <> Panicked /\
  (o <> Returned None -> SQLite.sound_history db' = SQLite.sound_history db) /\
  (map URL (SQLite.sounds db') = map URL (SQLite.sounds db) \/
   map URL (SQLite.sounds db') = map URL (SQLite.sounds db) ++ [URL sound]).
Proof.
  destruct (SQLite.RecordObservation now sound db) as [[s' o] db'] eqn:Hrun.
  cbn [fst snd].
  pose proof (SQLiteObservation.RecordObservation_step _ _ _ _ _ _ Hrun) as P.
  split; [exact (SQLiteSpec.post_no_panic _ _ _ _ _ P) |].
  split; [exact (SQLiteSpec.post_failure _ _ _ _ _ P) |].
  destruct (SQLite.url_taken (URL sound) db) eqn:T.
  - left. exact (SQLiteSpec.post_known_url _ _ _ _ _ P T).
  - exact (SQLiteSpec.post_new_url _ _ _ _ _ P T).
Qed.

(** X6. When the first lookup fails for a url that is already stored, the
    create path runs into the UNIQUE constraint: the call returns the
    insert's error, not the lookup's, and both tables are unchanged. *)
Theorem X6_failed_lookup_on_known_url now sound db e fs :
  SQLite.url_taken (URL sound) db = true ->
  SQLite.faults db = Some e :: None :: fs ->
  snd (fst (SQLite.RecordObservation now sound db))
  = Returned (Some (wrap_error "failed to save sound"
                               "UNIQUE constraint failed: sounds.url")) /\
  SQLite.sounds (snd (SQLite.RecordObservation now sound db)) = SQLite.sounds db /\
  SQLite.sound_history (snd (SQLite.RecordObservation now sound db))
  = SQLite.sound_history db.
Proof.
  intros Ht Hf.
  unfold SQLite.RecordObservation, SaveSoundWithHistory.
  change (@GetSoundByURL SQLite.DB SQLite.storage) with SQLite.GetSoundByURL.
  unfold SQLite.GetSoundByURL, SQLite.begin_stmt, SQLite.set_clock.
  cbn [SQLite.faults]. rewrite Hf.
  unfold create_path.
  change (@SaveSound SQLite.DB SQLite.storage) with SQLite.SaveSound.
  unfold SQLite.SaveSound, SQLite.begin_stmt. cbn [SQLite.faults].
  unfold SQLite.url_taken in *. cbn [SQLite.sounds URL set_UpdatedAt set_CreatedAt].
  rewrite Ht. cbn. auto.
Qed.

(** ** Reading the SQLite store *)

(** X7. A lookback between 2562048 and 5124095 hours overflows the 64-bit
    duration: the cutoff lands after the current instant, so in a store
    whose snapshots are not from the future the baseline lookup finds
    nothing, and says so without an error. *)
Theorem X7_lookback_overflow soundID hoursAgo db :
  2562048 <= hoursAgo <= 5124095 ->
  SQLiteSpec.next_fault db = None ->
  (forall h, In h (SQLite.sound_history db) -> RecordedAt h <= SQLite.clock db) ->
  SQLite.clock db < SQLite.cutoffTime (SQLite.clock db) hoursAgo /\
  fst (SQLite.GetSoundHistoryByTime soundID hoursAgo db) = (None, None).
Proof.
  intros Hh Hf Hpast.
  assert (Hcut : SQLite.clock db < SQLite.cutoffTime (SQLite.clock db) hoursAgo).
  { rewrite (SQLiteReads.cutoffTime_wrapped _ _ Hh). unfold Time.Hour. lia. }
  split; [exact Hcut |].
  rewrite (SQLiteFacts.GetSoundHistoryByTime_ok _ _ _ Hf). cbn [fst].
  pose proof (SQLiteFacts.history_since_hd soundID
                (SQLite.cutoffTime (SQLite.clock db) hoursAgo)
                (SQLite.sound_history db)) as Hhd.
  destruct (hd_error _) as [h |]; [exfalso | reflexivity].
  destruct Hhd as (Hin & _ & Hge & _). apply Hpast in Hin. lia.
Qed.

(** X8. Whenever GetAllSoundsWithHistory returns a nil error, every entry
    of its map is filed under the id of a returned sound and holds a
    non-nil snapshot of that sound, taken at or after the cutoff: the
    sound's baseline. *)
Theorem X8_history_map_entries category hoursAgo db sounds historyMap db' id v :
  SQLite.GetAllSoundsWithHistory category hoursAgo db
    = ((sounds, historyMap, None), db') ->
  historyMap !! id = Some v ->
  exists s h,
    v = Some h /\ In s sounds /\ ID s = id /\
    SQLiteSpec.baseline hoursAgo id db = Some h /\
    In h (SQLite.sound_history db) /\ SoundID h = id /\
    SQLite.cutoffTime (SQLite.clock db) hoursAgo <= RecordedAt h.
Proof.
  intros Hload Hv.
  apply SQLiteReads.GetAllSoundsWithHistory_success in Hload. destruct Hload as [_ ->].
  rewrite SQLiteBulk.record_baseline_lookup in Hv.
  destruct (decide (id ∈ map ID sounds)) as [Hin | _];
    [| rewrite lookup_empty in Hv; discriminate Hv].
  destruct (SQLiteSpec.baseline hoursAgo id db) as [h |] eqn:B;
    [| rewrite lookup_empty in Hv; discriminate Hv].
  injection Hv as <-.
  apply list_elem_of_In, in_map_iff in Hin. destruct Hin as (s & Hid & Hs).
  exists s, h. repeat split; auto.
  all: pose proof (SQLiteFacts.history_since_hd id
                     (SQLite.cutoffTime (SQLite.clock db) hoursAgo)
                     (SQLite.sound_history db)) as Hhd;
       unfold SQLiteSpec.baseline in B; rewrite B in Hhd; tauto.
Qed.

(** X9. A successful GetSoundsByCategory returns only stored sounds of the
    requested category, most recently updated first, and at most [limit]
    of them when [limit] is not negative. *)
Theorem X9_sounds_by_category category limit db rows db' :
  SQLite.GetSoundsByCategory category limit db = ((rows, None), db') ->
  (forall r, In r rows -> In r (SQLite.sounds db) /\ Category r = category) /\
  (forall (i : nat) a b, rows !! i = Some a -> rows !! S i = Some b ->
                         UpdatedAt b <= UpdatedAt a) /\
  (0 <= limit -> Z.of_nat (length rows) <= limit).
Proof.
  intros E. apply SQLiteReads.GetSoundsByCategory_success in E.
  destruct E as [_ [n ->]].
  split; [| split].
  - intros r Hr. apply SQLiteReads.firstn_In, SQLiteReads.sql_limit_In in Hr.
    apply (proj1 (order_by_In _ _ _)) in Hr. apply filter_In in Hr.
    destruct Hr as [Hin Hc]. apply String.eqb_eq in Hc. auto.
  - intros i a b Ha Hb.
    apply SQLiteReads.firstn_lookup, SQLiteReads.sql_limit_lookup in Ha, Hb.
    pose proof (order_by_sorted _ _
                  (SQLiteReads.updated_desc_strict_weak
                     (List.filter (fun r => String.eqb (Category r) category)
                                  (SQLite.sounds db)))) as Hs.
    pose proof (Sorted_adjacent _ _ Hs i a b Ha Hb) as Hab. cbn in Hab.
    apply Z.ltb_ge in Hab. exact Hab.
  - intros Hl. rewrite length_take. unfold sql_limit.
    destruct (Z.ltb_spec limit 0); [lia |].
    rewrite length_take. lia.
Qed.

(** X10. On the SQLite store, every sound DetectTrendingWithCriteria
    returns is a stored sound of the requested category. *)
Theorem X10_results_are_in_category (sorter : SliceSorter)
        (sorter_laws : SliceSorterLaws sorter) category limit criteria db r :
  In r (fst (fst (DetectTrendingWithCriteria category limit criteria db))) ->
  In (ts_Sound r) (SQLite.sounds db) /\ Category (ts_Sound r) = category.
Proof.
  intros Hin.
  destruct (DetectTrendingWithCriteria_cases category limit criteria db)
    as [(sounds & hm & db' & Hload & E) | (e & db' & E)]; rewrite E in Hin;
    cbn [fst] in Hin; [| destruct Hin].
  apply rank_entry in Hin. destruct Hin as (Hs & _).
  change (@GetAllSoundsWithHistory SQLite.DB SQLite.storage)
    with SQLite.GetAllSoundsWithHistory in Hload.
  apply SQLiteReads.GetAllSoundsWithHistory_success in Hload.
  destruct Hload as [[n ->] _].
  apply SQLiteReads.category_rows_In. apply SQLiteReads.firstn_In in Hs. exact Hs.
Qed.

(** ** Trend analysis *)

Lemma fge_refl x : is_nan x = false -> fge x x = true.
Proof. intros Hx. apply fge_key; auto. apply key_lt_irrefl. Qed.

Lemma fge_trans x y z :
  fge x y = true -> fge y z = true -> fge x z = true.
Proof.
  intros Hxy Hyz.
  destruct (fge_not_nan _ _ Hxy) as [Hx Hy]. destruct (fge_not_nan _ _ Hyz) as [_ Hz].
  apply fge_key in Hxy, Hyz; auto. apply fge_key; auto.
  intros Hxz.
  destruct (key_lt_total (fkey x) (fkey y)) as [H1 | [H1 | H1]].
  - exact (Hxy H1).
  - rewrite H1 in Hxz. exact (Hyz Hxz).
  - exact (Hyz (key_lt_trans _ _ _ H1 Hxz)).
Qed.

(** In a list sorted by descending growth the head is a maximum. *)
Lemma descending_head_max (l : list TrendingSound) top :
  (forall t, In t l -> is_nan (GrowthPercent t) = false) ->
  (forall (i : nat) a b, l !! i = Some a -> l !! S i = Some b ->
                         fge (GrowthPercent a) (GrowthPercent b) = true) ->
  hd_error l = Some top ->
  forall r, In r l -> fge (GrowthPercent top) (GrowthPercent r) = true.
Proof.
  intros Hnan Hadj Htop.
  assert (Hidx : forall (j : nat) r, l !! j = Some r ->
                   fge (GrowthPercent top) (GrowthPercent r) = true).
  { induction j as [| j IH]; intros r Hr.
    - destruct l as [| x l']; [discriminate Htop |]. cbn in Htop, Hr.
      injection Htop as <-. injection Hr as <-.
      apply fge_refl. apply Hnan. left. reflexivity.
    - destruct (l !! j) as [r' |] eqn:Hj.
      + apply fge_trans with (GrowthPercent r'); [apply IH; reflexivity |].
        exact (Hadj j r' r Hj Hr).
      + apply lookup_ge_None in Hj. apply lookup_lt_Some in Hr. lia. }
  intros r Hr. apply list_elem_of_In, list_elem_of_lookup in Hr.
  destruct Hr as [j Hj]. exact (Hidx j r Hj).
Qed.

Section AnalyzeTrendsFacts.
Context {St : Type} `{Storage St} {sorter : SliceSorter}
        {sorter_laws : SliceSorterLaws sorter}.

Lemma rank_not_nan limit criteria sounds historyMap t :
  In t (rank limit criteria sounds historyMap) -> is_nan (GrowthPercent t) = false.
Proof.
  intros Ht. apply In_rank in Ht. destruct Ht as (s & _ & E).
  exact (examine_not_nan _ _ _ _ E).
Qed.

(** X11. A successful AnalyzeTrends reports the DetectTrending result for
    limit 10: the count is the number of sounds and at most 10; TopSound is
    the first of them (nil when there is none), and no returned sound has
    a greater growthPercent than TopSound. *)
Theorem X11_analysis_top_sound category st analysis st' :
  AnalyzeTrends category st = ((Some analysis, None), st') ->
  TrendingSounds analysis = fst (fst (DetectTrending category 10 st)) /\
  TrendingCount analysis = Z.of_nat (length (TrendingSounds analysis)) /\
  TrendingCount analysis <= 10 /\
  TopSound analysis = hd_error (TrendingSounds analysis) /\
  (forall top r,
      TopSound analysis = Some top -> In r (TrendingSounds analysis) ->
      fge (GrowthPercent top) (GrowthPercent r) = true).
Proof.
  unfold AnalyzeTrends, DetectTrending.
  destruct (DetectTrendingWithCriteria_cases category 10 DefaultCriteria st)
    as [(sounds & hm & st1 & _ & E) | (e & st1 & E)]; rewrite E; cbn [fst];
    [| intros X; discriminate X].
  set (l := rank 10 DefaultCriteria sounds hm).
  assert (Hlen : Z.of_nat (length l) <= 10)
    by (apply truncate_length; lia).
  assert (Hmax : forall top r, hd_error l = Some top -> In r l ->
                   fge (GrowthPercent top) (GrowthPercent r) = true).
  { intros top r Htop Hr.
    apply (descending_head_max l top); auto.
    - intros t. apply rank_not_nan.
    - intros i a b. apply rank_sorted. }
  destruct (Z.ltb_spec 0 (Z.of_nat (length l))) as [Hpos | Hzero];
    intros X; injection X as <- _; cbn.
  - repeat split; auto.
  - assert (Hnil : l = []) by (destruct l; [reflexivity | cbn in Hzero; lia]).
    repeat split; auto.
    + rewrite Hnil. reflexivity.
    + intros top r Htop. discriminate Htop.
Qed.
End AnalyzeTrendsFacts.

(** ** Niche selection *)

Lemma contains_In slice item : contains slice item = true <-> In item slice.
Proof.
  induction slice as [| s rest IH]; cbn [contains In].
  - split; [intros E; discriminate E | tauto].
  - destruct (String.eqb_spec s item) as [-> | NE].
    + split; auto.
    + rewrite IH. split; [auto | intros [E | Hin]; [contradiction | exact Hin]].
Qed.

Lemma contains_split slice item :
  contains slice item = true ->
  exists l1 l2, slice = l1 ++ item :: l2 /\ contains l1 item = false.
Proof.
  induction slice as [| s rest IH]; cbn [contains]; [intros E; discriminate E |].
  destruct (String.eqb_spec s item) as [-> | NE].
  - intros _. exists [], rest. split; reflexivity.
  - intros Hc. destruct (IH Hc) as (l1 & l2 & -> & Hl1).
    exists (s :: l1), l2. split; [reflexivity |].
    cbn [contains]. destruct (String.eqb_spec s item); [contradiction | exact Hl1].
Qed.

Lemma toggleNiche_from_absent rest :
  forall i niches niche,
    contains rest niche = false ->
    toggleNiche_from i niches rest niche = niches ++ [niche].
Proof.
  induction rest as [| n rest IH]; intros i niches niche; cbn [contains toggleNiche_from].
  - reflexivity.
  - destruct (String.eqb n niche); [intros E; discriminate E | apply IH].
Qed.

Lemma skipn_past_middle {A : Type} (pre : list A) x l2 :
  skipn (S (length pre)) (pre ++ x :: l2) = l2.
Proof. induction pre as [| y pre IH]; [reflexivity | exact IH]. Qed.

Lemma toggleNiche_from_present l1 :
  forall pre l2 niche,
    contains l1 niche = false ->
    toggleNiche_from (length pre) (pre ++ l1 ++ niche :: l2) (l1 ++ niche :: l2) niche
    = pre ++ l1 ++ l2.
Proof.
  induction l1 as [| x l1 IH]; intros pre l2 niche; cbn [contains app toggleNiche_from].
  - intros _. rewrite String.eqb_refl.
    rewrite take_app_length, skipn_past_middle. reflexivity.
  - destruct (String.eqb x niche) eqn:E; [intros X; discriminate X |].
    intros Hl1.
    specialize (IH (pre ++ [x]) l2 niche Hl1).
    rewrite length_app in IH. cbn [length] in IH.
    replace (length pre + 1)%nat with (S (length pre)) in IH by lia.
    rewrite <- !app_assoc in IH. cbn [app] in IH. exact IH.
Qed.

Lemma toggleNiche_cases niches niche :
  (contains niches niche = false -> toggleNiche niches niche = niches ++ [niche]) /\
  (contains niches niche = true ->
   exists l1 l2,
     niches = l1 ++ niche :: l2 /\ contains l1 niche = false /\
     toggleNiche niches niche = l1 ++ l2).
Proof.
  split.
  - apply toggleNiche_from_absent.
  - intros Hc. destruct (contains_split _ _ Hc) as (l1 & l2 & -> & Hl1).
    exists l1, l2. split; [reflexivity |]. split; [exact Hl1 |].
    exact (toggleNiche_from_present l1 [] l2 niche Hl1).
Qed.

(** X12. toggleNiche appends a niche that is not selected; otherwise it
    removes the first occurrence of the niche and nothing else, so the
    list gets one entry shorter and later duplicates stay. *)
Theorem X12_toggleNiche_adds_or_removes niches niche :
  (contains niches niche = false ->
   toggleNiche niches niche = niches ++ [niche]) /\
  (contains niches niche = true ->
   S (length (toggleNiche niches niche)) = length niches /\
   exists l1 l2,
     niches = l1 ++ niche :: l2 /\ contains l1 niche = false /\
     toggleNiche niches niche = l1 ++ l2).
Proof.
  destruct (toggleNiche_cases niches niche) as [Habs Hpres].
  split; [exact Habs |].
  intros Hc. destruct (Hpres Hc) as (l1 & l2 & E & Hl1 & Ht).
  split; [| eauto].
  rewrite Ht, E, !length_app. cbn [length]. lia.
Qed.

Lemma contains_app l1 l2 item :
  contains (l1 ++ l2) item = contains l1 item || contains l2 item.
Proof.
  induction l1 as [| x l1 IH]; cbn [app contains orb]; [reflexivity |].
  destruct (String.eqb x item); [reflexivity | exact IH].
Qed.

(** X13. Toggling a niche leaves the selection of every other niche as it
    was, and in a list without duplicates it flips the selection of the
    toggled niche. *)
Theorem X13_toggleNiche_membership niches niche :
  (forall other, other <> niche ->
     contains (toggleNiche niches niche) other = contains niches other) /\
  (NoDup niches ->
   contains (toggleNiche niches niche) niche = negb (contains niches niche)).
Proof.
  destruct (toggleNiche_cases niches niche) as [Habs Hpres].
  destruct (contains niches niche) eqn:Hc.
  - destruct (Hpres eq_refl) as (l1 & l2 & -> & Hl1 & ->). split.
    + intros other Hne. rewrite !contains_app. cbn [contains].
      destruct (String.eqb_spec niche other); [congruence | reflexivity].
    + intros Hnd. apply NoDup_app in Hnd. destruct Hnd as (_ & _ & Hnd).
      apply NoDup_cons in Hnd. destruct Hnd as [Hnotin _].
      rewrite contains_app, Hl1. cbn [orb negb].
      destruct (contains l2 niche) eqn:C2; [| reflexivity].
      apply contains_In, list_elem_of_In in C2. contradiction.
  - rewrite (Habs eq_refl). split.
    + intros other Hne. rewrite contains_app. cbn [contains].
      destruct (String.eqb_spec niche other); [congruence |].
      rewrite orb_false_r. reflexivity.
    + intros _. rewrite contains_app, Hc. cbn [contains orb negb].
      rewrite String.eqb_refl. reflexivity.
Qed.

(** X14. Toggling twice a niche that was not selected gives back the
    original list. *)
Theorem X14_toggleNiche_twice niches niche :
  contains niches niche = false ->
  toggleNiche (toggleNiche niches niche) niche = niches.
Proof.
  intros Hc. unfold toggleNiche at 2.
  rewrite (toggleNiche_from_absent niches 0%nat niches niche Hc).
  pose proof (toggleNiche_from_present niches [] [] niche Hc) as E.
  cbn [app length] in E. rewrite app_nil_r in E. exact E.
Qed.

(** ** Users *)

Module SQLiteUsersFacts.
Import SQLiteUsers.

Lemma begin_stmt_users db :
  users (snd (begin_stmt db)) = users db /\
  users_seq (snd (begin_stmt db)) = users_seq db /\
  clock (snd (begin_stmt db)) = clock db.
Proof. unfold begin_stmt. destruct (faults db); repeat split. Qed.

Lemma GetAllUsers_eq db :
  fst (GetAllUsers db)
  = match next_fault db with
    | Some e => ([], Some (wrap_error "failed to get all users" e))
    | None =>
      rows_read "failed to scan user" (next_cursor db)
        (order_by (fun a b => user_CreatedAt b <? user_CreatedAt a) (users db))
    end.
Proof.
  unfold GetAllUsers, next_fault, next_cursor, begin_stmt, open_cursor.
  destruct (faults db) as [| [e |] fs]; cbn [fst snd users cursors];
    [| reflexivity |];
    destruct (cursors db); cbn [fst]; apply read_rows_spec.
Qed.

Lemma created_desc_adjacent (l : list User) (i : nat) a b :
  order_by (fun a b => user_CreatedAt b <? user_CreatedAt a) l !! i = Some a ->
  order_by (fun a b => user_CreatedAt b <? user_CreatedAt a) l !! S i = Some b ->
  user_CreatedAt b <= user_CreatedAt a.
Proof.
  intros Ha Hb.
  assert (Hsw : strict_weak_on (fun a b : User => user_CreatedAt b <? user_CreatedAt a) l).
  { repeat split; intros.
    - apply Z.ltb_irrefl.
    - rewrite Z.ltb_lt in *. lia.
    - rewrite Z.ltb_ge in *. lia. }
  pose proof (Sorted_adjacent _ _ (order_by_sorted _ _ Hsw) i a b Ha Hb) as Hab.
  cbn in Hab. apply Z.ltb_ge in Hab. exact Hab.
Qed.

Lemma find_user_fresh telegramID l u :
  existsb (fun u => TelegramID u =? telegramID) l = false ->
  TelegramID u = telegramID ->
  List.find (fun u => TelegramID u =? telegramID) (l ++ [u]) = Some u.
Proof.
  intros Hn Hu. induction l as [| x l IH]; cbn in *.
  - rewrite Hu, Z.eqb_refl. reflexivity.
  - destruct (TelegramID x =? telegramID); [discriminate Hn | auto].
Qed.

Lemma taken_In telegramID db :
  telegram_id_taken telegramID db = false ->
  ~ In telegramID (map TelegramID (users db)).
Proof.
  unfold telegram_id_taken. intros Hn Hin. apply in_map_iff in Hin.
  destruct Hin as (u & Hu & Hin).
  assert (existsb (fun u => TelegramID u =? telegramID) (users db) = true).
  { apply existsb_exists. exists u. split; [exact Hin | apply Z.eqb_eq; exact Hu]. }
  congruence.
Qed.

Lemma CreateUser_cases telegramID db err db' :
  CreateUser telegramID db = (err, db') ->
  (err <> None /\ users db' = users db) \/
  (err = None /\ telegram_id_taken telegramID db = false /\
   users db'
   = users db ++ [mkUser (users_seq db + 1) telegramID "[]" false (clock db)]).
Proof.
  unfold CreateUser.
  destruct (begin_stmt_users db) as (Hu & Hq & Hc).
  destruct (begin_stmt db) as [[e |] db1]; cbn [snd] in Hu, Hq, Hc.
  - intros E; injection E as <- <-. left. split; [discriminate | exact Hu].
  - unfold telegram_id_taken. rewrite Hu.
    destruct (existsb _ (users db)) eqn:T; intros E; injection E as <- <-.
    + left. split; [discriminate | exact Hu].
    + right. cbn. rewrite Hq, Hc. auto.
Qed.

Lemma set_premium_TelegramID t b u : TelegramID (set_premium t b u) = TelegramID u.
Proof. unfold set_premium. destruct (TelegramID u =? t); reflexivity. Qed.

Lemma set_niches_TelegramID t n u : TelegramID (set_niches t n u) = TelegramID u.
Proof. unfold set_niches. destruct (TelegramID u =? t); reflexivity. Qed.

Lemma find_map_keeping_id (f : User -> User) telegramID l :
  (forall u, TelegramID (f u) = TelegramID u) ->
  List.find (fun u => TelegramID u =? telegramID) (map f l)
  = option_map f (List.find (fun u => TelegramID u =? telegramID) l).
Proof.
  intros Hf. induction l as [| u l IH]; cbn; [reflexivity |].
  rewrite Hf. destruct (TelegramID u =? telegramID); [reflexivity | exact IH].
Qed.

Lemma map_unmatched (f : User -> User) telegramID l :
  (forall u, TelegramID u <> telegramID -> f u = u) ->
  existsb (fun u => TelegramID u =? telegramID) l = false ->
  map f l = l.
Proof.
  intros Hf. induction l as [| u l IH]; cbn; [reflexivity |].
  destruct (Z.eqb_spec (TelegramID u) telegramID) as [| NE]; cbn;
    [intros E; discriminate E |].
  intros Hn. rewrite (Hf u NE), (IH Hn). reflexivity.
Qed.
End SQLiteUsersFacts.

(** X15. After a CreateUser that returned nil, GetUser finds the user with
    that telegram id, no niches ("[]") and no premium; CreateUser succeeds
    only for an id that was not stored, so it never breaks the uniqueness
    of telegram ids, and when it returns an error the table is unchanged. *)
Theorem X15_create_then_get_user telegramID db err db' :
  SQLiteUsers.CreateUser telegramID db = (err, db') ->
  (err = None ->
   fst (SQLiteUsers.begin_stmt db') = None ->
   exists u,
     fst (SQLiteUsers.GetUser telegramID db') = (Some u, None) /\
     TelegramID u = telegramID /\ Niches u = "[]"%string /\ IsPremium u = false) /\
  (err <> None -> SQLiteUsers.users db' = SQLiteUsers.users db) /\
  (SQLiteUsers.telegram_id_unique db -> SQLiteUsers.telegram_id_unique db').
Proof.
  intros E. apply SQLiteUsersFacts.CreateUser_cases in E.
  destruct E as [(Herr & Hu) | (-> & Hfresh & Hu)].
  - split; [intros X; contradiction |]. split; [auto |].
    unfold SQLiteUsers.telegram_id_unique. rewrite Hu. auto.
  - split; [| split; [intros X; contradiction |]].
    + intros _ Hf. unfold SQLiteUsers.GetUser.
      destruct (SQLiteUsersFacts.begin_stmt_users db') as (Hu' & _).
      destruct (SQLiteUsers.begin_stmt db') as [f db1]. cbn [fst snd] in Hf, Hu'.
      subst f. rewrite Hu', Hu.
      rewrite SQLiteUsersFacts.find_user_fresh; [| exact Hfresh | reflexivity].
      eexists. cbn. repeat split.
    + unfold SQLiteUsers.telegram_id_unique. rewrite Hu, map_app. cbn [map TelegramID].
      intros Hnd. apply SQLiteObservation.NoDup_snoc; [exact Hnd |].
      apply SQLiteUsersFacts.taken_In. exact Hfresh.
Qed.

(** X16. SetPremium returns exactly the driver's error for its statement:
    nil whenever the driver does not fail, also for a telegram id that is
    not stored.  When it returns an error the table is unchanged.  When it
    returns nil it has changed the premium flag of the user with that
    telegram id and nothing else: a lookup by any telegram id finds the
    user it found before, with the flag set for the target, and for an
    unknown id the table is left as it was. *)
Theorem X16_set_premium telegramID isPremium db :
  let '(err, db') := SQLiteUsers.SetPremium telegramID isPremium db in
  err = SQLiteUsers.next_fault db /\
  (err <> None -> SQLiteUsers.users db' = SQLiteUsers.users db) /\
  (err = None ->
   (forall t,
       List.find (fun u => TelegramID u =? t) (SQLiteUsers.users db')
       = option_map (SQLiteUsers.set_premium telegramID isPremium)
                    (List.find (fun u => TelegramID u =? t) (SQLiteUsers.users db))) /\
   (forall u, In u (SQLiteUsers.users db') ->
              TelegramID u = telegramID -> IsPremium u = isPremium) /\
   (SQLiteUsers.telegram_id_taken telegramID db = false ->
    SQLiteUsers.users db' = SQLiteUsers.users db)).
Proof.
  unfold SQLiteUsers.SetPremium, SQLiteUsers.next_fault.
  destruct (SQLiteUsersFacts.begin_stmt_users db) as (Hu & _).
  destruct (SQLiteUsers.begin_stmt db) as [[e |] db1]; cbn [fst snd] in Hu |- *.
  - split; [reflexivity |]. split; [intros _; exact Hu | intros X; discriminate X].
  - split; [reflexivity |]. split; [intros X; contradiction |]. intros _.
    cbn [SQLiteUsers.users SQLiteUsers.with_users]. rewrite Hu.
    split; [| split].
    + intros t. apply SQLiteUsersFacts.find_map_keeping_id.
      intros u. apply SQLiteUsersFacts.set_premium_TelegramID.
    + intros u Hin Ht. apply in_map_iff in Hin. destruct Hin as (u0 & <- & _).
      rewrite SQLiteUsersFacts.set_premium_TelegramID in Ht.
      unfold SQLiteUsers.set_premium. rewrite Ht, Z.eqb_refl. reflexivity.
    + intros Hn. apply (SQLiteUsersFacts.map_unmatched _ telegramID); [| exact Hn].
      intros u NE. unfold SQLiteUsers.set_premium.
      destruct (Z.eqb_spec (TelegramID u) telegramID); [contradiction | reflexivity].
Qed.

(** X17. A successful UpdateUserNiches stores the given niches for the
    user with that telegram id and keeps every other field and every
    other user: GetUser afterwards returns the same user with the new
    niches. *)
Theorem X17_update_then_get_niches telegramID niches db db' u :
  SQLiteUsers.UpdateUserNiches telegramID niches db = (None, db') ->
  List.find (fun u => TelegramID u =? telegramID) (SQLiteUsers.users db) = Some u ->
  fst (SQLiteUsers.begin_stmt db') = None ->
  fst (SQLiteUsers.GetUser telegramID db')
  = (Some (mkUser (user_ID u) (TelegramID u) niches (IsPremium u) (user_CreatedAt u)),
     None) /\
  map TelegramID (SQLiteUsers.users db') = map TelegramID (SQLiteUsers.users db).
Proof.
  unfold SQLiteUsers.UpdateUserNiches.
  destruct (SQLiteUsersFacts.begin_stmt_users db) as (Hu & _).
  destruct (SQLiteUsers.begin_stmt db) as [[e |] db1]; cbn [snd] in Hu;
    intros E; [discriminate E |].
  injection E as <-. intros Hfind Hf.
  unfold SQLiteUsers.GetUser.
  destruct (SQLiteUsersFacts.begin_stmt_users
              (SQLiteUsers.with_users db1
                 (map (SQLiteUsers.set_niches telegramID niches) (SQLiteUsers.users db1))
                 (SQLiteUsers.users_seq db1))) as (Hu' & _).
  destruct (SQLiteUsers.begin_stmt _) as [f db2]. cbn [fst snd] in Hf, Hu'. subst f.
  cbn [SQLiteUsers.users SQLiteUsers.with_users] in Hu' |- *.
  rewrite Hu', Hu. split.
  - rewrite (SQLiteUsersFacts.find_map_keeping_id _ _ _
               (SQLiteUsersFacts.set_niches_TelegramID telegramID niches)), Hfind.
    cbn [option_map fst]. unfold SQLiteUsers.set_niches.
    apply find_some in Hfind. destruct Hfind as [_ Ht]. rewrite Ht. reflexivity.
  - rewrite map_map. apply map_ext. intros x.
    apply SQLiteUsersFacts.set_niches_TelegramID.
Qed.

(** X18. GetPremiumStats returns zero counts with every error; without an
    error the total is the number of users and the premium count lies
    between zero and the total. *)
Theorem X18_premium_stats db :
  let '((total, premium, err), _) := SQLiteUsers.GetPremiumStats db in
  (err <> None -> total = 0 /\ premium = 0) /\
  (err = None ->
   total = Z.of_nat (length (SQLiteUsers.users db)) /\ 0 <= premium <= total).
Proof.
  unfold SQLiteUsers.GetPremiumStats.
  destruct (SQLiteUsersFacts.begin_stmt_users db) as (Hu & _).
  destruct (SQLiteUsers.begin_stmt db) as [[e |] db1]; cbn [snd] in Hu.
  - split; [auto | intros X; discriminate X].
  - destruct (SQLiteUsersFacts.begin_stmt_users db1) as (Hu1 & _).
    destruct (SQLiteUsers.begin_stmt db1) as [[e |] db2]; cbn [snd] in Hu1.
    + split; [auto | intros X; discriminate X].
    + split; [intros X; contradiction |]. intros _.
      rewrite Hu1, Hu. split; [reflexivity |].
      pose proof (filter_length_le IsPremium (SQLiteUsers.users db)). lia.
Qed.

(** X19. GetAllUsers orders the users by created_at, newest first.  What
    it returns with a nil error is an initial part of that ordering, so no
    user is returned more often than stored.  When neither the query nor
    the reading of its rows fails, it returns every stored user exactly
    once.  But a failure of rows.Next() is not reported: the users read
    before it are returned with a nil error and the others are missing. *)
Theorem X19_all_users_newest_first db :
  (forall us db',
      SQLiteUsers.GetAllUsers db = ((us, None), db') ->
      exists missing,
        Permutation (SQLiteUsers.users db) (us ++ missing) /\
        (forall (i : nat) a b,
            (us ++ missing) !! i = Some a -> (us ++ missing) !! S i = Some b ->
            user_CreatedAt b <= user_CreatedAt a)) /\
  (SQLiteUsers.next_fault db = None -> SQLiteUsers.next_cursor db = None ->
   snd (fst (SQLiteUsers.GetAllUsers db)) = None /\
   Permutation (SQLiteUsers.users db) (fst (fst (SQLiteUsers.GetAllUsers db)))) /\
  (forall k : nat,
      SQLiteUsers.next_fault db = None ->
      SQLiteUsers.next_cursor db = Some (NextFails k) ->
      (k <= length (SQLiteUsers.users db))%nat ->
      snd (fst (SQLiteUsers.GetAllUsers db)) = None /\
      length (fst (fst (SQLiteUsers.GetAllUsers db))) = k).
Proof.
  pose proof (SQLiteUsersFacts.GetAllUsers_eq db) as Heq.
  set (sorted := order_by (fun a b => user_CreatedAt b <? user_CreatedAt a)
                          (SQLiteUsers.users db)) in *.
  split; [| split].
  - intros us db' E. rewrite E in Heq. cbn [fst] in Heq.
    destruct (SQLiteUsers.next_fault db); [discriminate Heq |].
    destruct (rows_read_cases "failed to scan user" (SQLiteUsers.next_cursor db) sorted)
      as [[n Hn] | [e He]]; [| rewrite He in Heq; discriminate Heq].
    rewrite Hn in Heq. injection Heq as ->.
    exists (skipn n sorted). rewrite firstn_skipn. split.
    + apply order_by_perm.
    + intros i a b. apply SQLiteUsersFacts.created_desc_adjacent.
  - intros Hf Hc. rewrite Hf, Hc in Heq. cbn [rows_read] in Heq.
    destruct (SQLiteUsers.GetAllUsers db) as [[us err] db'].
    cbn [fst snd] in Heq |- *. injection Heq as -> ->.
    split; [reflexivity | apply order_by_perm].
  - intros k Hf Hc Hk. rewrite Hf, Hc in Heq. cbn [rows_read] in Heq.
    destruct (SQLiteUsers.GetAllUsers db) as [[us err] db'].
    cbn [fst snd] in Heq |- *. injection Heq as -> ->.
    split; [reflexivity |]. rewrite length_take. subst sorted.
    rewrite order_by_length. lia.
Qed.

(** ** Growth is always a number *)

Lemma binary_round_aux_decomp s mx ex lx :
  0 <= mx ->
  exists k1 k2 m2,
    k1 = Z.max 0 (fexp prec emax (Zdigits2 mx + ex) - ex) /\
    k2 = Z.max 0 (fexp prec emax (Zdigits2 m2 + (ex + k1)) - (ex + k1)) /\
    mx / 2 ^ k1 <= m2 <= mx / 2 ^ k1 + 1 /\
    binary_round_aux prec emax s mx ex lx
    = match m2 / 2 ^ k2 with
      | Z0 => S754_zero s
      | Z.pos m =>
        if ex + k1 + k2 <=? emax - prec
        then S754_finite s m (ex + k1 + k2) else S754_infinity s
      | Z.neg _ => S754_nan
      end.
Proof.
  intros Hmx. unfold binary_round_aux, shr_fexp.
  pose proof (shr_spec mx lx ex (fexp prec emax (Zdigits2 mx + ex) - ex) Hmx) as [He1 Hm1].
  destruct (shr (shr_record_of_loc mx lx) ex (fexp prec emax (Zdigits2 mx + ex) - ex))
    as [mrs1 e1]; cbn [fst snd] in He1, Hm1.
  set (m2 := round_nearest_even (shr_m mrs1) (loc_of_shr_record mrs1)).
  assert (Hm1nn : 0 <= shr_m mrs1).
  { rewrite Hm1. apply Z.div_pos; [lia | apply Z.pow_pos_nonneg; lia]. }
  pose proof (round_nearest_even_range (shr_m mrs1) (loc_of_shr_record mrs1)) as Hr.
  fold m2 in Hr.
  assert (Hm2 : 0 <= m2) by lia.
  pose proof (shr_spec m2 loc_Exact e1 (fexp prec emax (Zdigits2 m2 + e1) - e1) Hm2) as [He2 Hm3].
  destruct (shr (shr_record_of_loc m2 loc_Exact) e1 (fexp prec emax (Zdigits2 m2 + e1) - e1))
    as [mrs2 e2]; cbn [fst snd] in He2, Hm3.
  exists (Z.max 0 (fexp prec emax (Zdigits2 mx + ex) - ex)).
  exists (Z.max 0 (fexp prec emax (Zdigits2 m2 + e1) - e1)).
  exists m2. subst e1 e2. rewrite <- Hm1, <- Hm3.
  repeat split; try lia.
Qed.

Lemma binary_round_aux_not_nan s mx ex lx :
  0 <= mx -> is_nan (binary_round_aux prec emax s mx ex lx) = false.
Proof.
  intros Hmx.
  destruct (binary_round_aux_decomp s mx ex lx Hmx)
    as (k1 & k2 & m2 & Hk1 & Hk2 & Hm2 & ->).
  assert (H0 : 0 <= mx / 2 ^ k1) by (apply Z.div_pos; [lia | apply Z.pow_pos_nonneg; lia]).
  assert (H3 : 0 <= m2 / 2 ^ k2) by (apply Z.div_pos; [lia | apply Z.pow_pos_nonneg; lia]).
  destruct (m2 / 2 ^ k2) as [| m | m]; [reflexivity | | lia].
  destruct (_ <=? _); reflexivity.
Qed.

Lemma Zdigits2_le m n : 0 <= m < 2 ^ n -> 0 <= n -> Zdigits2 m <= n.
Proof.
  intros [Hm Hlt] Hn. destruct m as [| p | p]; cbn [Zdigits2]; [lia | | lia].
  pose proof (digits2_pos_bounds p) as [Hlo _].
  destruct (Z_le_gt_dec (Z.pos (digits2_pos p)) n) as [| Hgt]; [assumption | exfalso].
  assert (2 ^ n <= 2 ^ (Z.pos (digits2_pos p) - 1)) by (apply Z.pow_le_mono_r; lia).
  lia.
Qed.

(** A rounding whose input has a moderate exponent and magnitude does not
    overflow to infinity. *)
Lemma binary_round_aux_no_overflow s m ex lx :
  emin prec emax <= ex <= emax - prec ->
  Z.pos (digits2_pos m) + ex <= emax - 1 ->
  exists m' e', binary_round_aux prec emax s (Z.pos m) ex lx = S754_finite s m' e'.
Proof.
  intros Hex HV.
  pose proof (binary_round_aux_nonzero s m ex lx (proj1 Hex)) as Hnz.
  destruct (binary_round_aux_decomp s (Z.pos m) ex lx ltac:(lia))
    as (k1 & k2 & m2 & Hk1 & Hk2 & Hm2 & E).
  rewrite E in Hnz |- *. cbn [Zdigits2] in Hk1.
  pose proof (digits2_pos_bounds m) as [_ Hup].
  set (d := Z.pos (digits2_pos m)) in *.
  assert (Hd : 1 <= d) by (subst d; lia).
  assert (H0 : 0 <= Z.pos m / 2 ^ k1)
    by (apply Z.div_pos; [lia | apply Z.pow_pos_nonneg; lia]).
  assert (Hfe : fexp prec emax (d + ex) = Z.max (d + ex - 53) (-1074))
    by (unfold fexp, emin, prec, emax; lia).
  assert (Hfe2 : fexp prec emax (Zdigits2 m2 + (ex + k1))
                 = Z.max (Zdigits2 m2 + (ex + k1) - 53) (-1074))
    by (unfold fexp, emin, prec, emax; lia).
  rewrite Hfe in Hk1. rewrite Hfe2 in Hk2.
  assert (Hex' : -1074 <= ex <= 971) by (unfold emin, prec, emax in Hex; lia).
  assert (HV' : d + ex <= 1023) by (unfold emax in HV; lia).
  assert (Hd2 : Zdigits2 m2 + (ex + k1) <= d + ex + 1).
  { destruct (Z_le_gt_dec (Z.max (d + ex - 53) (-1074) - ex) 0) as [Hn | Hn].
    - assert (Hk0 : k1 = 0) by lia. rewrite Hk0 in Hm2. rewrite Z.div_1_r in Hm2.
      assert (Zdigits2 m2 <= d + 1); [| lia].
      apply Zdigits2_le; [| lia]. rewrite Z.pow_add_r by lia. lia.
    - assert (Hkd : k1 = d - 53) by lia. rewrite Hkd in Hm2, H0.
      assert (Hq : Z.pos m / 2 ^ (d - 53) < 2 ^ 53).
      { apply Z.div_lt_upper_bound; [apply Z.pow_pos_nonneg; lia |].
        rewrite <- Z.pow_add_r by lia. replace (d - 53 + 53) with d by lia. exact Hup. }
      assert (Zdigits2 m2 <= 54); [| lia].
      apply Zdigits2_le; [| lia]. change (2 ^ 54) with (2 * 2 ^ 53). lia. }
  assert (He : ex + k1 + k2 <= emax - prec) by (unfold emax, prec; lia).
  assert (H3 : 0 <= m2 / 2 ^ k2)
    by (apply Z.div_pos; [lia | apply Z.pow_pos_nonneg; lia]).
  destruct (m2 / 2 ^ k2) as [| m' | m']; [discriminate Hnz | | lia].
  destruct (Z.leb_spec (ex + k1 + k2) (emax - prec)); [eauto | lia].
Qed.

Lemma digits2_pos_iter_xO p k :
  digits2_pos (Pos.iter xO p k) = (digits2_pos p + k)%positive.
Proof.
  induction k as [| k IH] using Pos.peano_ind.
  - cbn. rewrite Pos.add_1_r. reflexivity.
  - rewrite Pos.iter_succ. cbn [digits2_pos]. rewrite IH, Pos.add_succ_r. reflexivity.
Qed.

(** The conversion of a nonzero integer below 2^64 in magnitude is finite. *)
Lemma of_int64_finite z :
  z <> 0 -> - 2 ^ 64 < z < 2 ^ 64 ->
  exists s m e, of_int64 z = S754_finite s m e.
Proof.
  assert (Hround : forall s p, Z.pos p < 2 ^ 64 ->
            exists m e, binary_round prec emax s p 0 = S754_finite s m e).
  { intros s p Hp. unfold binary_round, shl_align.
    pose proof (digits2_pos_bounds p) as [Hlo _].
    set (d := Z.pos (digits2_pos p)) in *.
    assert (Hd : 1 <= d <= 64).
    { split; [subst d; lia |].
      destruct (Z_le_gt_dec d 64) as [| Hgt]; [assumption | exfalso].
      assert (2 ^ 64 <= 2 ^ (d - 1)) by (apply Z.pow_le_mono_r; lia). lia. }
    assert (Hfe : fexp prec emax (d + 0) = d - 53)
      by (unfold fexp, emin, prec, emax; lia).
    rewrite Hfe.
    destruct (d - 53 - 0) as [| k | k] eqn:Ek.
    - apply binary_round_aux_no_overflow; fold d; unfold emin, prec, emax; lia.
    - apply binary_round_aux_no_overflow; fold d; unfold emin, prec, emax; lia.
    - apply binary_round_aux_no_overflow.
      + unfold emin, prec, emax. lia.
      + rewrite digits2_pos_iter_xO, Pos2Z.inj_add. fold d. unfold prec, emax. lia. }
  intros Hz Hr. unfold of_int64, binary_normalize.
  destruct z as [| p | p]; [congruence | |].
  - destruct (Hround false p ltac:(lia)) as (m & e & E). eauto.
  - destruct (Hround true p ltac:(lia)) as (m & e & E). eauto.
Qed.

Lemma fmul_c100_not_nan x : is_nan x = false -> is_nan (fmul x c100) = false.
Proof.
  destruct x as [s | s | | s m e]; intros Hx; try discriminate Hx; try reflexivity.
  unfold fmul, c100. cbn [SFmul]. apply binary_round_aux_not_nan. lia.
Qed.

Lemma fdiv_finite_not_nan x sy my ey :
  is_nan x = false -> (forall s, x <> S754_infinity s) ->
  is_nan (fdiv x (S754_finite sy my ey)) = false.
Proof.
  destruct x as [s | s | | s m e]; intros Hx Hinf; try discriminate Hx.
  - reflexivity.
  - destruct (Hinf s eq_refl).
  - unfold fdiv. cbn [SFdiv].
    pose proof (SFdiv_core_binary_nonneg m e my ey) as Hq.
    destruct (SFdiv_core_binary prec emax (Z.pos m) e (Z.pos my) ey) as [[mz ez] lz].
    cbn [fst] in Hq. apply binary_round_aux_not_nan. exact Hq.
Qed.

Lemma Int64_wrap_range z : Int64.min_int <= Int64.wrap z <= Int64.max_int.
Proof.
  unfold Int64.wrap, Int64.min_int, Int64.max_int.
  pose proof (Z.mod_pos_bound (z + 2 ^ 63) (2 ^ 64) ltac:(lia)). lia.
Qed.

(** X20. For every 64-bit baseline and every current count,
    calculateGrowth returns a number, never NaN: the operands of its
    division are finite and the divisor is not zero. *)
Theorem X20_calculateGrowth_is_a_number oldCount newCount :
  Int64.min_int <= oldCount <= Int64.max_int ->
  is_nan (calculateGrowth oldCount newCount) = false.
Proof.
  intros Hold. unfold calculateGrowth.
  destruct (Z.eqb_spec oldCount 0) as [| Hne]; [reflexivity |].
  apply fmul_c100_not_nan.
  destruct (of_int64_finite oldCount Hne) as (sy & my & ey & ->).
  { unfold Int64.min_int, Int64.max_int in Hold. lia. }
  pose proof (Int64_wrap_range (newCount - oldCount)) as Hw.
  fold (Int64.sub newCount oldCount) in Hw.
  destruct (Z.eq_dec (Int64.sub newCount oldCount) 0) as [-> | Hx].
  - reflexivity.
  - destruct (of_int64_finite (Int64.sub newCount oldCount) Hx) as (sx & mx & ex & ->).
    { unfold Int64.min_int, Int64.max_int in Hw. lia. }
    apply fdiv_finite_not_nan; [reflexivity | intros s X; discriminate X].
Qed.

(** ** Detection reads, it does not write *)

Module SQLiteReadOnly.
Import SQLite SQLiteSpec SQLiteFacts.

Lemma same_tables_after_stmt db db1 :
  same_tables db db1 -> same_tables db (after_stmt db1).
Proof.
  intros (Hs & Hh & Hc). destruct (after_stmt_tables db1) as (As & Ah & _ & _ & _ & Ac).
  unfold same_tables. rewrite As, Ah, Ac. auto.
Qed.

Lemma history_loop_tables hoursAgo todo :
  forall historyMap db0 db,
    same_tables db0 db ->
    same_tables db0 (snd (history_loop hoursAgo todo historyMap db)).
Proof.
  induction todo as [| s rest IH]; intros historyMap db0 db Hsame; cbn [history_loop].
  - exact Hsame.
  - destruct (SQLiteReads.GetSoundHistoryByTime_cases (ID s) hoursAgo db) as [-> | [e ->]].
    + apply IH. apply same_tables_after_stmt. exact Hsame.
    + cbn [snd]. apply same_tables_after_stmt. exact Hsame.
Qed.

Lemma same_tables_after_query db db1 :
  same_tables db db1 -> same_tables db (after_query db1).
Proof.
  intros (Hs & Hh & Hc). destruct (after_query_tables db1) as (As & Ah & Ac & _).
  unfold same_tables. rewrite As, Ah, Ac. auto.
Qed.

Lemma GetSoundsByCategory_tables category limit db :
  same_tables db (snd (GetSoundsByCategory category limit db)).
Proof.
  rewrite GetSoundsByCategory_eq.
  destruct (next_fault db); cbn [snd];
    [apply same_tables_after_stmt | apply same_tables_after_query]; repeat split.
Qed.

Lemma GetAllSoundsWithHistory_tables category hoursAgo db :
  same_tables db (snd (GetAllSoundsWithHistory category hoursAgo db)).
Proof.
  unfold GetAllSoundsWithHistory.
  pose proof (GetSoundsByCategory_tables category 1000 db) as Hq.
  destruct (GetSoundsByCategory category 1000 db) as [[rows [e1 |]] db1];
    cbn [snd] in Hq |- *; [exact Hq |].
  pose proof (history_loop_tables hoursAgo rows ∅ db db1 Hq) as Hl.
  destruct (history_loop hoursAgo rows ∅ db1) as [[m [e2 |]] db2];
    cbn [snd] in Hl |- *; exact Hl.
Qed.
End SQLiteReadOnly.

(** X21. On the SQLite store DetectTrendingWithCriteria is read-only:
    whether it succeeds or fails, the sounds table, the history table and
    the clock are the same afterwards. *)
Theorem X21_detection_is_read_only (sorter : SliceSorter)
        category limit criteria db :
  let db' := snd (DetectTrendingWithCriteria category limit criteria db) in
  SQLite.sounds db' = SQLite.sounds db /\
  SQLite.sound_history db' = SQLite.sound_history db /\
  SQLite.clock db' = SQLite.clock db.
Proof.
  unfold DetectTrendingWithCriteria.
  change (@GetAllSoundsWithHistory SQLite.DB SQLite.storage)
    with SQLite.GetAllSoundsWithHistory.
  pose proof (SQLiteReadOnly.GetAllSoundsWithHistory_tables
                category (LookbackHours criteria) db) as Hsame.
  destruct (SQLite.GetAllSoundsWithHistory category (LookbackHours criteria) db)
    as [[[sounds hm] [e |]] db1]; cbn [snd] in Hsame |- *; exact Hsame.
Qed.

(** ** Failures while reading rows *)

(** X22. GetSoundsByCategory does not report a failure of rows.Next(): when
    the query itself succeeds and the step that would deliver row [k]
    fails, the first [k] selected rows are returned with a nil error, as
    if the category had no more sounds.  A failure of rows.Scan on a row
    is reported, with a nil list; and when reading does not fail, all the
    selected rows are returned. *)
Theorem X22_category_rows_lost_silently category limit db :
  SQLiteSpec.next_fault db = None ->
  let selected :=
    sql_limit limit
      (order_by (fun a b => UpdatedAt b <? UpdatedAt a)
         (List.filter (fun r => String.eqb (Category r) category) (SQLite.sounds db))) in
  (forall k : nat,
      SQLiteSpec.next_cursor db = Some (NextFails k) ->
      fst (SQLite.GetSoundsByCategory category limit db) = (firstn k selected, None)) /\
  (forall (k : nat) e,
      SQLiteSpec.next_cursor db = Some (ScanFails k e) ->
      (k < length selected)%nat ->
      fst (SQLite.GetSoundsByCategory category limit db)
      = ([], Some (wrap_error "failed to scan sound" e))) /\
  (SQLiteSpec.next_cursor db = None ->
   fst (SQLite.GetSoundsByCategory category limit db) = (selected, None)).
Proof.
  intros Hf selected.
  assert (Hc : SQLiteSpec.next_cursor (SQLiteSpec.after_stmt db)
               = SQLiteSpec.next_cursor db).
  { unfold SQLiteSpec.next_cursor, SQLite.open_cursor.
    rewrite SQLiteFacts.after_stmt_cursors. destruct (SQLite.cursors db); reflexivity. }
  rewrite SQLiteFacts.GetSoundsByCategory_eq, Hf, Hc. cbn [fst]. fold selected.
  split; [| split].
  - intros k ->. reflexivity.
  - intros k e -> Hk. cbn [rows_read].
    destruct (Nat.ltb_spec k (length selected)); [reflexivity | lia].
  - intros ->. reflexivity.
Qed.

(** ** The further properties at concrete inputs *)

Lemma X1_witness :
  In (ts_Sound demo_u1) (fst (fst (fst demo_load))) /\
  exists history,
    snd (fst (fst demo_load)) !! ID (ts_Sound demo_u1) = Some (Some history) /\
    (hist_UsesCount history <> 0 ->
     OldUsesCount demo_u1 = hist_UsesCount history /\
     fge (GrowthPercent demo_u1) (MinGrowth DefaultCriteria) = true).
Proof.
  apply (X1_results_have_baseline_and_growth
           (sorter := insertion_sorter) (sorter_laws := insertion_sorter_laws)
           "tech" 10 DefaultCriteria demo_db
           (fst (fst (fst demo_load))) (snd (fst (fst demo_load))) (snd demo_load)
           demo_u1).
  - exact demo_load_ok.
  - vm_compute. right. right. left. reflexivity.
Defined.

Lemma X2_witness :
  In (mkTrendingSound (ts_Sound demo_u1)
        (calculateGrowth (hist_UsesCount demo_h1) (UsesCount (ts_Sound demo_u1)))
        (hist_UsesCount demo_h1))
     (fst (fst (DetectTrendingWithCriteria (sorter := insertion_sorter)
                  "tech" 10 DefaultCriteria demo_db))).
Proof.
  apply (X2_qualifying_sound_is_returned
           (sorter := insertion_sorter) (sorter_laws := insertion_sorter_laws)
           "tech" 10 DefaultCriteria demo_db
           (fst (fst (fst demo_load))) (snd (fst (fst demo_load))) (snd demo_load)
           (ts_Sound demo_u1) demo_h1).
  - exact demo_load_ok.
  - vm_compute. right. right. right. left. reflexivity.
  - vm_compute. split; discriminate.
  - vm_compute. reflexivity.
  - vm_compute. discriminate.
  - vm_compute. reflexivity.
  - right. vm_compute. discriminate.
Defined.

Lemma X3_witness :
  500 <= UsesCount (ts_Sound demo_u1) <= 30000 /\
  GrowthPercent demo_u1
  = growth_formula (hist_UsesCount demo_h1) (UsesCount (ts_Sound demo_u1)) /\
  fge (GrowthPercent demo_u1) c150 = true.
Proof.
  assert (Hin : In demo_u1
                   (fst (fst (DetectTrending (sorter := insertion_sorter)
                                "tech" 10 demo_db))))
    by (vm_compute; right; right; left; reflexivity).
  destruct (X3_default_criteria
              (sorter := insertion_sorter) (sorter_laws := insertion_sorter_laws)
              "tech" 10 demo_db demo_u1 Hin) as [Hband Hgrowth].
  split; [exact Hband |].
  apply (Hgrowth (fst (fst (fst demo_load))) (snd (fst (fst demo_load)))
                 (snd demo_load) demo_h1).
  - exact demo_load_ok.
  - vm_compute. reflexivity.
  - vm_compute. split; [reflexivity | discriminate].
Defined.

Lemma X4_witness :
  exists item,
    fst (SQLite.GetSoundByURL (URL (demo_sound "u1" 3000))
           (snd (SQLite.RecordObservation (12 * Time.Hour) (demo_sound "u1" 3000) demo_db)))
    = (Some item, None) /\
    UsesCount item = UsesCount (demo_sound "u1" 3000).
Proof.
  destruct (X4_recorded_sound_is_found
              (12 * Time.Hour) (demo_sound "u1" 3000) demo_db
              (fst (fst (SQLite.RecordObservation (12 * Time.Hour)
                           (demo_sound "u1" 3000) demo_db)))
              (snd (SQLite.RecordObservation (12 * Time.Hour)
                      (demo_sound "u1" 3000) demo_db)))
    as (item & Hget & _ & Huses & _).
  - vm_compute. reflexivity.
  - vm_compute. reflexivity.
  - exists item. split; [exact Hget | exact Huses].
Defined.

Lemma X6_witness :
  snd (fst (SQLite.RecordObservation (12 * Time.Hour) (demo_sound "u1" 3000)
              demo_flaky_db))
  = Returned (Some (wrap_error "failed to save sound"
                               "UNIQUE constraint failed: sounds.url")).
Proof.
  apply (X6_failed_lookup_on_known_url
           (12 * Time.Hour) (demo_sound "u1" 3000) demo_flaky_db "io" []).
  - vm_compute. reflexivity.
  - vm_compute. reflexivity.
Defined.

Lemma X7_witness :
  fst (SQLite.GetSoundHistoryByTime 1 2562048 demo_db) = (None, None).
Proof.
  apply (X7_lookback_overflow 1 2562048 demo_db).
  - lia.
  - vm_compute. reflexivity.
  - intros h Hin.
    assert (Hall : forallb (fun h => RecordedAt h <=? SQLite.clock demo_db)
                           (SQLite.sound_history demo_db) = true)
      by (vm_compute; reflexivity).
    rewrite forallb_forall in Hall. apply Z.leb_le. exact (Hall h Hin).
Defined.

Lemma X8_witness :
  exists s h,
    Some demo_h1 = Some h /\ In s (fst (fst (fst demo_load))) /\ ID s = 1.
Proof.
  assert (Hload : SQLite.GetAllSoundsWithHistory "tech" (LookbackHours DefaultCriteria)
                    demo_db
                  = ((fst (fst (fst demo_load)), snd (fst (fst demo_load)), None),
                     snd demo_load))
    by (vm_compute; reflexivity).
  assert (Hv : snd (fst (fst demo_load)) !! 1 = Some (Some demo_h1))
    by (vm_compute; reflexivity).
  destruct (X8_history_map_entries
              "tech" (LookbackHours DefaultCriteria) demo_db
              (fst (fst (fst demo_load))) (snd (fst (fst demo_load))) (snd demo_load)
              1 (Some demo_h1) Hload Hv)
    as (s & h & Hs & Hin & Hid & _).
  exists s, h. exact (conj Hs (conj Hin Hid)).
Defined.

Lemma X9_witness :
  Z.of_nat (length (fst (fst (SQLite.GetSoundsByCategory "tech" 2 demo_db)))) <= 2.
Proof.
  apply (X9_sounds_by_category "tech" 2 demo_db
           (fst (fst (SQLite.GetSoundsByCategory "tech" 2 demo_db)))
           (snd (SQLite.GetSoundsByCategory "tech" 2 demo_db))).
  - vm_compute. reflexivity.
  - lia.
Defined.

Lemma X10_witness : Category (ts_Sound demo_u1) = "tech"%string.
Proof.
  apply (X10_results_are_in_category insertion_sorter insertion_sorter_laws
           "tech" 10 DefaultCriteria demo_db demo_u1).
  vm_compute. right. right. left. reflexivity.
Defined.

Lemma X14_witness :
  toggleNiche (toggleNiche ["fitness"; "beauty"] "tech") "tech"
  = ["fitness"; "beauty"]%string.
Proof.
  apply (X14_toggleNiche_twice ["fitness"; "beauty"]%string "tech"%string).
  reflexivity.
Defined.

Lemma X15_witness :
  exists u,
    fst (SQLiteUsers.GetUser 42 demo_users_1) = (Some u, None) /\
    TelegramID u = 42 /\ Niches u = "[]"%string /\ IsPremium u = false.
Proof.
  apply (proj1 (X15_create_then_get_user 42 demo_users None demo_users_1 eq_refl));
    reflexivity.
Defined.

Lemma X16_witness :
  fst (SQLiteUsers.SetPremium 7 true demo_users_1) = None /\
  SQLiteUsers.users (snd (SQLiteUsers.SetPremium 7 true demo_users_1))
  = SQLiteUsers.users demo_users_1.
Proof.
  generalize (X16_set_premium 7 true demo_users_1).
  destruct (SQLiteUsers.SetPremium 7 true demo_users_1) as [err db'].
  cbn [fst snd]. intros (Herr & _ & Hok).
  split; [rewrite Herr; reflexivity |].
  apply Hok; [rewrite Herr; reflexivity | reflexivity].
Defined.

Lemma X17_witness :
  fst (SQLiteUsers.GetUser 42
         (snd (SQLiteUsers.UpdateUserNiches 42 "[tech]" demo_users_1)))
  = (Some (mkUser (user_ID demo_user) (TelegramID demo_user) "[tech]"
                  (IsPremium demo_user) (user_CreatedAt demo_user)), None).
Proof.
  apply (X17_update_then_get_niches 42 "[tech]" demo_users_1
           (snd (SQLiteUsers.UpdateUserNiches 42 "[tech]" demo_users_1)) demo_user);
    reflexivity.
Defined.

Lemma X19_witness :
  Permutation (SQLiteUsers.users demo_users_1)
              (fst (fst (SQLiteUsers.GetAllUsers demo_users_1))).
Proof.
  exact (proj2 (proj1 (proj2 (X19_all_users_newest_first demo_users_1))
                      eq_refl eq_refl)).
Defined.

Lemma X20_witness : is_nan (calculateGrowth 1000 2600) = false.
Proof.
  apply (X20_calculateGrowth_is_a_number 1000 2600).
  vm_compute. split; discriminate.
Defined.

Lemma X11_witness :
  exists analysis,
    fst (fst (AnalyzeTrends (sorter := insertion_sorter) "tech" demo_db))
    = Some analysis /\
    TrendingCount analysis <= 10.
Proof.
  destruct (AnalyzeTrends (sorter := insertion_sorter) "tech" demo_db)
    as [[[analysis |] [e |]] db'] eqn:E;
    try (exfalso; vm_compute in E; discriminate E).
  exists analysis. split; [reflexivity |].
  exact (proj1 (proj2 (proj2 (X11_analysis_top_sound
                                (sorter := insertion_sorter)
                                (sorter_laws := insertion_sorter_laws)
                                "tech" demo_db analysis db' E)))).
Defined.

Lemma X22_witness :
  fst (SQLite.GetSoundsByCategory "tech" 1000 demo_short_db)
  = (firstn 1
       (sql_limit 1000
          (order_by (fun a b => UpdatedAt b <? UpdatedAt a)
             (List.filter (fun r => String.eqb (Category r) "tech")
                          (SQLite.sounds demo_short_db)))), None).
Proof.
  assert (Hf : SQLiteSpec.next_fault demo_short_db = None) by (vm_compute; reflexivity).
  assert (Hc : SQLiteSpec.next_cursor demo_short_db = Some (NextFails 1))
    by (vm_compute; reflexivity).
  exact (proj1 (X22_category_rows_lost_silently "tech" 1000 demo_short_db Hf) 1%nat Hc).
Defined.
